(** * Ghibli Food Database: admin server, security manager, database manager,
  monitoring service, backup and restore tools, embedded in Rocq.

  The development follows the JavaScript sources:
  - [Js]: JavaScript strings as sequences of UTF-16 code units, the
    character classes of regular expressions, [Array.prototype.slice];
  - [Regex], [Regexp]: the backtracking matcher behind
    [RegExp.prototype.test] for the constructs that the patterns of the
    admin server and of the security manager use;
  - [Admin]: [DatabaseAdminServer.isQuerySafe] and the query endpoint;
  - [Security], [Middleware]: [SecurityManager] (validators, sanitizer,
    query filter, token verification, authentication and authorization
    middleware, environment check);
  - [Eff]: a state-and-exception monad for the [async] methods;
  - [Monitoring], [Health]: [MonitoringService] (metrics collection,
    storage, alert evaluation, cooldown, notification, health checks);
  - [Backup]: [DatabaseManager.restoreBackup], the restore endpoint and the
    interactive restore tool;
  - [BackupTool]: the backup tool (dump, compression, listing, cleaning);
  - [Manager]: the pool of [DatabaseManager] and the methods that take a
    client from it.

  The definitions come first, the facts and the main results after them. *)

From Stdlib Require Import ZArith NArith List String Ascii Bool Lia.
From Stdlib Require Import Floats.PrimFloat DecimalString.
From Stdlib Require Import Sorting.Sorted Sorting.Permutation.
Import ListNotations.

(* ===================================================================== *)
(** * JavaScript strings and arrays *)
(* ===================================================================== *)

Module Js.

Local Open Scope N_scope.

(** A JavaScript string is a sequence of 16-bit code units. *)
Definition code_unit := N.
Definition jsstring := list code_unit.

(** The code units of an ASCII literal of the source. *)
Fixpoint units (s : string) : jsstring :=
  match s with
  | EmptyString => []
  | String a s' => N_of_ascii a :: units s'
  end.

(** The line feed of a multi-line literal. *)
Definition LF : string := String (ascii_of_nat 10) EmptyString.

Definition is_lower (c : code_unit) : bool := (97 <=? c) && (c <=? 122).

(** [Canonicalize] of the [i] flag without the [u] flag: a character is
    compared by its upper case, and a code unit of 128 or more is never
    mapped to one below 128.  Every literal character of the patterns
    below is an ASCII letter, so only the ASCII part of the map decides a
    comparison with a pattern character; the other code units are left as
    they are. *)
Definition canonicalize (c : code_unit) : code_unit :=
  if is_lower c then c - 32 else c.

(** A pattern character [p] against an input code unit [c], under [/i]. *)
Definition ci (p c : code_unit) : bool := canonicalize p =? canonicalize c.

(** Line terminators: LF, CR, LS, PS. *)
Definition is_line_terminator (c : code_unit) : bool :=
  (c =? 10) || (c =? 13) || (c =? 8232) || (c =? 8233).

(** The class [\s]: white space and line terminators. *)
Definition is_space (c : code_unit) : bool :=
  (c =? 9) || (c =? 10) || (c =? 11) || (c =? 12) || (c =? 13) ||
  (c =? 32) || (c =? 160) || (c =? 5760) ||
  ((8192 <=? c) && (c <=? 8202)) ||
  (c =? 8232) || (c =? 8233) || (c =? 8239) || (c =? 8287) ||
  (c =? 12288) || (c =? 65279).

(** The class [.] (no [s] flag): anything but a line terminator. *)
Definition dot (c : code_unit) : bool := negb (is_line_terminator c).

(** An [Error] object, as far as the code reads it: its message. *)
Record Error : Type := mkError { message : string }.

(** [arr.slice(-n)]: the last [n] elements, the whole array when it has
    fewer. *)
Definition slice_last {A : Type} (n : nat) (arr : list A) : list A :=
  skipn (List.length arr - n) arr.

End Js.

(* ===================================================================== *)
(** * Regular expressions *)
(* ===================================================================== *)

Module Regex.

Import Js.

(** The constructs of the patterns of [isQuerySafe].  Repetition is only
    ever applied to a character class there ([\s+], [\s*], [.*]). *)
Inductive regex : Type :=
| Eps                              (* the empty pattern *)
| Bol                              (* ^   (no m flag: start of input) *)
| Chr (p : code_unit -> bool)      (* one code unit of a class *)
| Star (p : code_unit -> bool)     (* p*  greedy *)
| Seq (a b : regex)                (* ab *)
| NegLook (a : regex).             (* (?!a) *)

Definition cat (rs : list regex) : regex := fold_right Seq Eps rs.

(** A literal word under the [i] flag. *)
Definition lit_units (w : jsstring) : regex := cat (map (fun p => Chr (ci p)) w).
Definition lit (w : string) : regex := lit_units (units w).

(** [p+] *)
Definition plus (p : code_unit -> bool) : regex := Seq (Chr p) (Star p).

(** The matcher, in continuation-passing style: [run r k n s] matches [r]
    at the front of [s], which starts at index [n] of the input, and hands
    the rest to [k]; backtracking is the [||]. *)
Definition cont := nat -> jsstring -> bool.

Definition accept : cont := fun _ _ => true.

Fixpoint star (p : code_unit -> bool) (k : cont) (n : nat) (s : jsstring) : bool :=
  match s with
  | c :: s' => (p c && star p k (S n) s') || k n s
  | [] => k n []
  end.

Fixpoint run (r : regex) (k : cont) (n : nat) (s : jsstring) : bool :=
  match r with
  | Eps => k n s
  | Bol => Nat.eqb n 0 && k n s
  | Chr p => match s with
             | c :: s' => p c && k (S n) s'
             | [] => false
             end
  | Star p => star p k n s
  | Seq a b => run a (run b k) n s
  | NegLook a => negb (run a accept n s) && k n s
  end.

(** A pattern without the [g] or [y] flag is tried at every index, from
    the left. *)
Fixpoint search (r : regex) (n : nat) (s : jsstring) : bool :=
  run r accept n s ||
  match s with
  | [] => false
  | _ :: s' => search r (S n) s'
  end.

(** [pattern.test(str)] *)
Definition test (r : regex) (str : jsstring) : bool := search r 0 str.

End Regex.

(* ===================================================================== *)
(** * The admin server's query filter *)
(* ===================================================================== *)

Module Admin.

Import Js Regex.

Definition dangerousPatterns : list regex :=
  [ cat [lit "drop"; plus is_space; lit "table"];
    cat [lit "drop"; plus is_space; lit "database"];
    lit "truncate";
    cat [lit "alter"; plus is_space; lit "table"; Star dot; lit "drop"];
    cat [lit "delete"; plus is_space; lit "from"; plus is_space;
         NegLook (cat [Star dot; lit "where"])];
    cat [lit "update"; plus is_space; Star dot; lit "set"; plus is_space;
         NegLook (cat [Star dot; lit "where"])] ].

Definition allowedPatterns : list regex :=
  [ cat [Bol; Star is_space; lit "select"];
    cat [Bol; Star is_space; lit "insert"];
    cat [Bol; Star is_space; lit "update"; Star dot; lit "where"];
    cat [Bol; Star is_space; lit "with"];
    cat [Bol; Star is_space; lit "explain"] ].

Definition isQuerySafe (query : jsstring) : bool :=
  if existsb (fun pattern => test pattern query) dangerousPatterns
  then false
  else existsb (fun pattern => test pattern query) allowedPatterns.

(** ** POST /api/database/query *)

Inductive body (R : Type) : Type :=
| ErrorBody (error : string)          (* { error: ... } *)
| JsonBody (result : R).              (* res.json(result) *)
Arguments ErrorBody {R} error.
Arguments JsonBody {R} result.

Record response (R : Type) : Type :=
  mkResponse { status : Z; payload : body R; logged : list (string * Error) }.
Arguments mkResponse {R} status payload logged.
Arguments status {R} r.
Arguments payload {R} r.
Arguments logged {R} r.

Section QueryEndpoint.

(** [this.dbManager.executeQuery(query, params)] resolves with a result or
    rejects with an error of the database driver. *)
Variables (Params Result : Type).
Variable executeQuery : jsstring -> Params -> Error + Result.

Definition post_query (query : jsstring) (params : Params) : response Result :=
  if negb (isQuerySafe query)
  then mkResponse 400 (ErrorBody "Unsafe query detected") []
  else match executeQuery query params with
       | inr result => mkResponse 200 (JsonBody result) []
       | inl error =>
           mkResponse 500 (ErrorBody (message error))
                      [("Error executing query:"%string, error)]
       end.

End QueryEndpoint.
Arguments post_query {Params Result} executeQuery query params.

End Admin.


(* ===================================================================== *)
(** * The words of the query-filter claims *)
(* ===================================================================== *)

(** What the prose about the filter says of a query, as decidable
    predicates on the query text; they are compared with the patterns of
    [Admin] in [AdminFacts]. *)
Module QueryWords.

Import Js.

(** [s] starts with the word [w], letters compared without case. *)
Fixpoint prefix_ci (w s : jsstring) : bool :=
  match w, s with
  | [], _ => true
  | p :: w', c :: s' => ci p c && prefix_ci w' s'
  | _ :: _, [] => false
  end.

(** [s] contains the word [w] somewhere, letters compared without case. *)
Fixpoint contains_ci (w s : jsstring) : bool :=
  prefix_ci w s ||
  match s with
  | [] => false
  | _ :: s' => contains_ci w s'
  end.

(** [s] without its leading white space. *)
Fixpoint drop_ws (s : jsstring) : jsstring :=
  match s with
  | c :: s' => if is_space c then drop_ws s' else s
  | [] => []
  end.

(** The query begins, after optional leading white space, with [w]. *)
Definition begins_ci (w : string) (q : jsstring) : bool :=
  prefix_ci (units w) (drop_ws q).


(** [s] is the word [w], in some letter case. *)
Definition same_word (w : string) (s : jsstring) : bool :=
  Nat.eqb (List.length s) (List.length (units w)) && prefix_ci (units w) s.

(** [s] is white space, one character or more. *)
Definition blank (s : jsstring) : bool :=
  negb (Nat.eqb (List.length s) 0) && forallb is_space s.

(** [s] holds no line end. *)
Definition one_line (s : jsstring) : bool := forallb dot s.



(** ** Sample queries *)

(** A statement of one [WITH ... UPDATE ... SET ...] over three lines: it
    updates every row of [users]. *)
Definition update_all_rows : jsstring :=
  units ("WITH x AS (SELECT 1)" ++ LF ++ "UPDATE users" ++ LF ++ "SET role = 'admin'").

(** An [UPDATE] of every row, on one line, followed by a second statement
    that has a [WHERE]. *)
Definition update_then_select : jsstring :=
  units "update users set role = 'admin'; select 1 where true".

End QueryWords.


(* ===================================================================== *)
(** * Regular expressions, second part: the constructs of security.js *)
(* ===================================================================== *)

(** The patterns of [SecurityManager] use, beside the constructs of
    [Regex], the end anchor, alternation, the positive lookahead and the
    counted repetition of a class.  The matcher is that of [Regex] with
    these cases added; [embed] carries a pattern of [Regex] over. *)
Module Regexp.

Import Js.

Inductive re : Type :=
| Eps                                        (* the empty pattern *)
| Bol                                        (* ^   (no m flag) *)
| Eol                                        (* $   (no m flag) *)
| Chr (p : code_unit -> bool)                (* one code unit of a class *)
| AtLeast (m : nat) (p : code_unit -> bool)  (* p{m,} greedy: p* is p{0,}, p+ is p{1,} *)
| Seq (a b : re)                             (* ab *)
| Alt (a b : re)                             (* a|b *)
| Look (a : re)                              (* (?=a) *)
| NegLook (a : re).                          (* (?!a) *)

Definition cat (rs : list re) : re := fold_right Seq Eps rs.

(** [(a|b|...)], the alternatives tried from the left. *)
Fixpoint alt (rs : list re) : re :=
  match rs with
  | [] => NegLook Eps                        (* no alternative: no match *)
  | [r] => r
  | r :: rs' => Alt r (alt rs')
  end.

(** A literal word under the [i] flag. *)
Definition word (w : string) : re := cat (map (fun p => Chr (ci p)) (units w)).

(** A literal word of a pattern without the [i] flag. *)
Definition exact (w : string) : re := cat (map (fun p => Chr (N.eqb p)) (units w)).

Fixpoint atleast (m : nat) (p : code_unit -> bool) (k : Regex.cont) (n : nat)
    (s : jsstring) : bool :=
  match m with
  | O => Regex.star p k n s
  | S m' => match s with
            | c :: s' => p c && atleast m' p k (S n) s'
            | [] => false
            end
  end.

Fixpoint exec (r : re) (k : Regex.cont) (n : nat) (s : jsstring) : bool :=
  match r with
  | Eps => k n s
  | Bol => Nat.eqb n 0 && k n s
  | Eol => match s with
           | [] => k n s
           | _ :: _ => false
           end
  | Chr p => match s with
             | c :: s' => p c && k (S n) s'
             | [] => false
             end
  | AtLeast m p => atleast m p k n s
  | Seq a b => exec a (exec b k) n s
  | Alt a b => exec a k n s || exec b k n s
  | Look a => exec a Regex.accept n s && k n s
  | NegLook a => negb (exec a Regex.accept n s) && k n s
  end.

Fixpoint search (r : re) (n : nat) (s : jsstring) : bool :=
  exec r Regex.accept n s ||
  match s with
  | [] => false
  | _ :: s' => search r (S n) s'
  end.

(** [pattern.test(str)] *)
Definition test (r : re) (str : jsstring) : bool := search r 0 str.

(** The continuation that [$] leaves at the end of a pattern: nothing is
    left of the input. *)
Definition at_end : Regex.cont :=
  fun _ s => match s with [] => true | _ :: _ => false end.

(** A pattern of [Regex] in this syntax. *)
Fixpoint embed (r : Regex.regex) : re :=
  match r with
  | Regex.Eps => Eps
  | Regex.Bol => Bol
  | Regex.Chr p => Chr p
  | Regex.Star p => AtLeast 0 p
  | Regex.Seq a b => Seq (embed a) (embed b)
  | Regex.NegLook a => NegLook (embed a)
  end.

End Regexp.

(* ===================================================================== *)
(** * The security manager *)
(* ===================================================================== *)

Module Security.

Import Js Regexp QueryWords.
Local Open Scope N_scope.

(** ** Character classes *)

Definition is_upper (c : code_unit) : bool := (65 <=? c) && (c <=? 90).

(** [[A-Za-z]] *)
Definition is_letter (c : code_unit) : bool := is_upper c || is_lower c.

(** [\d] *)
Definition is_digit (c : code_unit) : bool := (48 <=? c) && (c <=? 57).

(** [[A-Za-z\d@$!%*#?&]] *)
Definition password_char (c : code_unit) : bool :=
  is_letter c || is_digit c ||
  (c =? 64) || (c =? 36) || (c =? 33) || (c =? 37) || (c =? 42) ||
  (c =? 35) || (c =? 63) || (c =? 38).

(** [[^\s@]] *)
Definition address_char (c : code_unit) : bool := negb (is_space c || (c =? 64)).

(** [[<>]] *)
Definition angle (c : code_unit) : bool := (c =? 60) || (c =? 62).

(** ** validateEmail, validatePassword *)

Definition emailRegex : re :=
  cat [Bol; AtLeast 1 address_char; exact "@"; AtLeast 1 address_char; exact ".";
       AtLeast 1 address_char; Eol].

Definition validateEmail (email : jsstring) : bool := test emailRegex email.

Definition passwordRegex : re :=
  cat [Bol; Look (cat [AtLeast 0 dot; Chr is_letter]);
       Look (cat [AtLeast 0 dot; Chr is_digit]);
       AtLeast 8 password_char; Eol].

Definition validatePassword (password : jsstring) : bool := test passwordRegex password.

(** ** sanitizeInput *)

(** [str.trim()]: white space and line terminators off both ends. *)
Fixpoint trim_start (s : jsstring) : jsstring :=
  match s with
  | c :: s' => if is_space c then trim_start s' else s
  | [] => []
  end.

Definition trim (s : jsstring) : jsstring := rev (trim_start (rev (trim_start s))).

(** The argument of [sanitizeInput]: a string, or a value of another type,
    which the method hands back as it is. *)
Inductive input (A : Type) : Type :=
| Text (s : jsstring)
| NotText (a : A).
Arguments Text {A} s.
Arguments NotText {A} a.

Definition sanitizeInput {A : Type} (v : input A) : input A :=
  match v with
  | NotText a => NotText a
  | Text s => Text (firstn 1000 (trim (filter (fun c => negb (angle c)) s)))
  end.

(** ** isQuerySafe *)

Definition dangerousPatterns : list re :=
  [ cat [word "drop"; AtLeast 1 is_space; word "table"];
    cat [word "drop"; AtLeast 1 is_space; word "database"];
    word "truncate";
    cat [word "alter"; AtLeast 1 is_space; word "table"; AtLeast 0 dot; word "drop"];
    cat [word "delete"; AtLeast 1 is_space; word "from"; AtLeast 1 is_space;
         NegLook (cat [AtLeast 0 dot; word "where"])];
    cat [word "update"; AtLeast 1 is_space; AtLeast 0 dot; word "set";
         AtLeast 1 is_space; NegLook (cat [AtLeast 0 dot; word "where"])];
    cat [word "union"; AtLeast 0 dot; word "select"];
    cat [word "exec"; AtLeast 0 is_space; word "("];
    word "sp_executesql";
    word "xp_cmdshell";
    cat [word ";"; AtLeast 0 is_space;
         alt [word "drop"; word "delete"; word "update"; word "insert";
              word "create"; word "alter"]] ].

Definition isQuerySafe (query : jsstring) : bool :=
  negb (existsb (fun pattern => test pattern query) dangerousPatterns).

(** ** The words of the properties of the validators *)

(** A password as the comment of [validatePassword] describes it, with the
    character set of the pattern. *)
Definition strong_password (s : jsstring) : bool :=
  (8 <=? List.length s)%nat && forallb password_char s &&
  existsb is_letter s && existsb is_digit s.

(** [local@domain.tail], each part with one character or more, none of
    them white space or an at sign. *)
Definition address_shape (s : jsstring) : Prop :=
  exists l d t : jsstring,
    s = (l ++ 64 :: d ++ 46 :: t)%list /\
    l <> [] /\ d <> [] /\ t <> [] /\
    forallb address_char l = true /\ forallb address_char d = true /\
    forallb address_char t = true.

(** A statement keyword that the last pattern of the denylist names. *)
Definition stacked_keyword (w : jsstring) : bool :=
  same_word "drop" w || same_word "delete" w || same_word "update" w ||
  same_word "insert" w || same_word "create" w || same_word "alter" w.

End Security.

(* ===================================================================== *)
(** * Effects: state, exceptions, process exit *)
(* ===================================================================== *)

(** An [async] method is a function of the state of the world.  It returns
    a value, throws (a rejected promise, seen by the [await] of its caller),
    or ends the process ([process.exit]); what it did to the state before
    stays done in each case. *)
Module Eff.

Import Js.

Inductive outcome (W A : Type) : Type :=
| Return (a : A) (s : W)
| Throw (e : Error) (s : W)
| Exit (code : Z) (s : W).
Arguments Return {W A} a s.
Arguments Throw {W A} e s.
Arguments Exit {W A} code s.

Definition M (W A : Type) : Type := W -> outcome W A.

Definition ret {W A : Type} (a : A) : M W A := fun s => Return a s.

Definition bind {W A B : Type} (m : M W A) (f : A -> M W B) : M W B :=
  fun s =>
    match m s with
    | Return a s' => f a s'
    | Throw e s' => Throw e s'
    | Exit code s' => Exit code s'
    end.

Definition throw {W A : Type} (e : Error) : M W A := fun s => Throw e s.

Definition exit {W A : Type} (code : Z) : M W A := fun s => Exit code s.

Definition gets {W A : Type} (f : W -> A) : M W A := fun s => Return (f s) s.

Definition modify {W : Type} (f : W -> W) : M W unit := fun s => Return tt (f s).

(** [try { body } catch (error) { handler }] *)
Definition try_catch {W A : Type} (body : M W A) (handler : Error -> M W A) : M W A :=
  fun s =>
    match body s with
    | Throw e s' => handler e s'
    | o => o
    end.

(** [try { body } finally { cleanup }]: the cleanup runs after a return and
    after a throw, and what it throws replaces the outcome of the body;
    [process.exit] runs no [finally] block. *)
Definition try_finally {W A : Type} (body : M W A) (cleanup : M W unit) : M W A :=
  fun s =>
    match body s with
    | Return a s' =>
        match cleanup s' with
        | Return _ s'' => Return a s''
        | Throw e s'' => Throw e s''
        | Exit code s'' => Exit code s''
        end
    | Throw e s' =>
        match cleanup s' with
        | Return _ s'' => Throw e s''
        | Throw e' s'' => Throw e' s''
        | Exit code s'' => Exit code s''
        end
    | Exit code s' => Exit code s'
    end.

(** A value that resolves or rejects without touching the state. *)
Definition settle {W A : Type} (r : Error + A) : M W A :=
  match r with
  | inr a => ret a
  | inl e => throw e
  end.

(** Reading a property of [undefined] throws a [TypeError]. *)
Definition defined {W A : Type} (what : string) (v : option A) : M W A :=
  match v with
  | Some a => ret a
  | None => throw (mkError ("Cannot read properties of undefined (reading '" ++ what ++ "')"))
  end.

(** [for (const x of xs) await body(x)], with the index of the iteration. *)
Fixpoint for_each {W A : Type} (body : nat -> A -> M W unit) (i : nat) (xs : list A)
  : M W unit :=
  match xs with
  | [] => ret tt
  | x :: xs' => bind (body i x) (fun _ => for_each body (S i) xs')
  end.

(** The state an outcome leaves. *)
Definition final {W A : Type} (o : outcome W A) : W :=
  match o with
  | Return _ s => s
  | Throw _ s => s
  | Exit _ s => s
  end.

Definition returns {W A : Type} (o : outcome W A) : bool :=
  match o with
  | Return _ _ => true
  | _ => false
  end.

Declare Scope eff_scope.
Delimit Scope eff_scope with eff.
Notation "x <- m ;; k" := (bind m (fun x => k))
  (at level 100, m at next level, right associativity) : eff_scope.
Notation "m ;; k" := (bind m (fun _ => k))
  (at level 100, right associativity) : eff_scope.

End Eff.
(* ===================================================================== *)
(** * Effects: what a computation leaves alone, how it ends *)
(* ===================================================================== *)

Module EffViews.

Import Js Eff.

(** [m] leaves the reading [f] of the world as it finds it, however it
    ends. *)
Definition keeps {W X A : Type} (f : W -> X) (m : M W A) : Prop :=
  forall w, f (final (m w)) = f w.

(** [m] does not end by throwing. *)
Definition catches {W A : Type} (m : M W A) : Prop :=
  forall w e w', m w <> Throw e w'.

(** [m] does not end the process. *)
Definition stays {W A : Type} (m : M W A) : Prop :=
  forall w code w', m w <> Exit code w'.

End EffViews.

(* ===================================================================== *)
(** * The security manager: tokens, middleware, environment *)
(* ===================================================================== *)

Module Middleware.

Import Js Eff.
Local Open Scope string_scope.
Local Open Scope eff_scope.

(** A property of a decoded token: a string, no property at all, or a value
    of another type. *)
Inductive value : Type :=
| Undefined
| Str (s : string)
| Other.

(** What [jwt.verify] returns: the payload object, of which the middleware
    reads [id] and [role], or a payload that is a plain string. *)
Inductive user : Type :=
| Claims (id role : value)
| Plain (s : jsstring).

(** What [jwt.verify] throws. *)
Record JwtError : Type := mkJwtError { name : string; jwt_message : string }.

Inductive LogEntry : Type :=
| ErrorVerifying (error : JwtError)
| AuthenticationFailed (error : string) (ip : string)
| AuthorizationFailed (userId userRole : value) (requiredRoles : list string) (ip : string)
| DefaultSecret.

Definition Log : Type := list LogEntry.

Definition logger (entry : LogEntry) : M Log unit :=
  modify (fun log => (log ++ [entry])%list).

Record Request : Type := mkRequest {
  authorization : option jsstring;   (* req.headers['authorization'] *)
  ip : string;
  req_user : option user             (* req.user *)
}.

Definition set_user (req : Request) (decoded : user) : Request :=
  mkRequest (authorization req) (ip req) (Some decoded).

(** A middleware answers the request itself, [res.status(..).json({ error })],
    or hands it to the next one, [next()]. *)
Inductive step : Type :=
| Respond (status : Z) (error : string)
| Next (req : Request).

(** [s.split(sep)] for a separator of one code unit: the pieces between the
    separators, one more than there are separators. *)
Fixpoint split (sep : code_unit) (s : jsstring) : list jsstring :=
  match s with
  | [] => [[]]
  | c :: s' =>
      if N.eqb c sep then [] :: split sep s'
      else match split sep s' with
           | piece :: pieces => (c :: piece) :: pieces
           | [] => [[c]]
           end
  end.

(** [roles.includes(v)] for an array of strings. *)
Definition includes (roles : list string) (v : value) : bool :=
  match v with
  | Str s => existsb (String.eqb s) roles
  | _ => false
  end.

Definition role_of (u : user) : value :=
  match u with
  | Claims _ role => role
  | Plain _ => Undefined
  end.

Definition id_of (u : user) : value :=
  match u with
  | Claims id _ => id
  | Plain _ => Undefined
  end.

Definition defaultSecret : string := "ghibli-food-db-secret-key-change-in-production".

Section Manager.

(** [jwt.verify(token, this.jwtSecret, { issuer, audience })] *)
Variable jwt_verify : jsstring -> JwtError + user.

Definition verifyToken (token : jsstring) : M Log user :=
  match jwt_verify token with
  | inr decoded => ret decoded
  | inl error =>
      if String.eqb (name error) "JsonWebTokenError" then
        throw (mkError "Invalid token")
      else if String.eqb (name error) "TokenExpiredError" then
        throw (mkError "Token expired")
      else
        (logger (ErrorVerifying error) ;;
         throw (mkError "Token verification failed"))
  end.

(** [authHeader && authHeader.split(' ')[1]], when it is truthy. *)
Definition token_of (authHeader : option jsstring) : option jsstring :=
  match authHeader with
  | Some (c :: h) =>
      match nth_error (split 32%N (c :: h)) 1 with
      | Some (t :: oken) => Some (t :: oken)
      | _ => None
      end
  | _ => None
  end.

Definition authenticateToken (req : Request) : M Log step :=
  match token_of (authorization req) with
  | None => ret (Respond 401%Z "Access token is required")
  | Some token =>
      try_catch
        (decoded <- verifyToken token ;;
         ret (Next (set_user req decoded)))
        (fun error =>
           logger (AuthenticationFailed (message error) (ip req)) ;;
           ret (Respond 403%Z (message error)))
  end.

Definition authorizeRoles (roles : list string) (req : Request) : M Log step :=
  match req_user req with
  | None | Some (Plain []) => ret (Respond 401%Z "Authentication required")
  | Some u =>
      if negb (includes roles (role_of u)) then
        logger (AuthorizationFailed (id_of u) (role_of u) roles (ip req)) ;;
        ret (Respond 403%Z "Insufficient permissions")
      else ret (Next req)
  end.

Definition requireAdmin : Request -> M Log step := authorizeRoles ["admin"].

(** [router.use(first, second)]: the second middleware runs when the first
    calls [next()]. *)
Definition chain (first second : Request -> M Log step) (req : Request) : M Log step :=
  r <- first req ;;
  match r with
  | Next req' => second req'
  | Respond status error => ret (Respond status error)
  end.

End Manager.

(** ** The environment *)

Section Environment.

(** [process.env] *)
Variable env : string -> option string.

Definition set (key : string) : bool :=
  match env key with
  | Some (String _ _) => true
  | _ => false
  end.

(** The constructor: [process.env.JWT_SECRET || '...'] *)
Definition jwtSecret : string :=
  match env "JWT_SECRET" with
  | Some (String c s) => String c s
  | _ => defaultSecret
  end.

(** [missing.join(', ')] *)
Fixpoint join (sep : string) (xs : list string) : string :=
  match xs with
  | [] => ""
  | [x] => x
  | x :: xs' => x ++ sep ++ join sep xs'
  end.

Definition required : list string := ["DB_HOST"; "DB_USER"; "DB_PASSWORD"; "DB_NAME"].

Definition validateEnvironment : M Log unit :=
  let missing := filter (fun key => negb (set key)) required in
  (if (0 <? Z.of_nat (List.length missing))%Z then
     throw (mkError ("Missing required environment variables: " ++ join ", " missing))
   else ret tt) ;;
  if negb (set "JWT_SECRET") ||
     match env "JWT_SECRET" with
     | Some secret => String.eqb secret defaultSecret
     | None => false
     end
  then logger DefaultSecret
  else ret tt.

End Environment.

(** ** Vocabulary of the statements *)

(** A string without a blank. *)
Definition unbroken (s : jsstring) : bool := forallb (fun c => negb (N.eqb c 32%N)) s.

Definition passes (o : outcome Log step) : bool :=
  match o with
  | Return (Next _) _ => true
  | _ => false
  end.

Definition refusal : list string :=
  ["Invalid token"; "Token expired"; "Token verification failed"].

End Middleware.


(* ===================================================================== *)
(** * The monitoring service *)
(* ===================================================================== *)

Module Monitoring.

Import Js Eff.
Local Open Scope string_scope.
Local Open Scope eff_scope.

(** ** Data *)

(** The rows of the four catalog queries; a JavaScript number is a double. *)
Record ConnectionsRow : Type := mkConnectionsRow {
  active_connections : float;
  idle_connections : float;
  active_queries : float }.

Record PerformanceRow : Type := mkPerformanceRow {
  total_queries : float;
  total_query_time : float;
  slow_queries : float }.

Record SizeRow : Type := mkSizeRow { db_size : float }.

Record LockRow : Type := mkLockRow { mode : string; lock_count : float }.

(** [rows[0]] is [undefined] on an empty result. *)
Record MetricsSnapshot : Type := mkMetricsSnapshot {
  snapshot_timestamp : Z;
  connections : option ConnectionsRow;
  performance : PerformanceRow;
  size : option SizeRow;
  locks : list LockRow }.

Record Alert : Type := mkAlert {
  type : string;
  level : string;
  alert_message : string;
  value : float;
  threshold : option float }.

Record AlertHistoryEntry : Type := mkAlertHistoryEntry {
  key : string;
  timestamp : Z;
  alert : Alert }.

Record HealthCheck : Type := mkHealthCheck {
  name : string;
  healthy : bool;
  check_details : option string;
  check_timestamp : Z }.

(** The second argument of [sendAlert]. *)
Inductive Details : Type :=
| AlertDetails (a : Alert)
| HealthDetails (checks : list HealthCheck)
| ErrorDetails (messages : list string).

Record Mail : Type := mkMail {
  from : option string;
  to : string;
  subject : string;
  html : string }.

Inductive LogEntry : Type :=
| LogWarn (text : string) (details : Details)
| LogInfo (text : string)
| LogError (text : string) (error : Error).

Inductive Query : Type :=
| ConnectionsQuery        (* pg_stat_activity *)
| PerformanceQuery        (* pg_stat_statements *)
| SizeQuery               (* pg_database_size *)
| LocksQuery.             (* pg_locks *)

(** What [metrics.json] holds, as [storeMetrics] reads it: nothing that
    [readFile] and [JSON.parse] get through, an array, or another JSON
    value. *)
Inductive FileContent : Type :=
| Unreadable
| ArrayOf (entries : list MetricsSnapshot)
| NotAnArray.

(** ** The world: the service object, the pool, the logger, the file *)

Record World : Type := mkWorld {
  alertHistory : list AlertHistoryEntry;      (* this.alertHistory *)
  errors : Z;                                 (* this.metrics.errors *)
  lastCollection : option Z;                  (* this.metrics.lastCollection *)
  log : list LogEntry;                        (* what the logger wrote *)
  outbox : list Mail;                         (* mails the transport took *)
  issued : list Query;                        (* queries sent to the server *)
  acquired : nat;                             (* pool.connect() that resolved *)
  released : nat;                             (* client.release() *)
  metricsFile : FileContent }.                (* metrics.json *)

Definition set_alertHistory (h : list AlertHistoryEntry) (w : World) : World :=
  mkWorld h (errors w) (lastCollection w) (log w) (outbox w) (issued w)
          (acquired w) (released w) (metricsFile w).

Definition set_errors (n : Z) (w : World) : World :=
  mkWorld (alertHistory w) n (lastCollection w) (log w) (outbox w) (issued w)
          (acquired w) (released w) (metricsFile w).

Definition set_lastCollection (t : Z) (w : World) : World :=
  mkWorld (alertHistory w) (errors w) (Some t) (log w) (outbox w) (issued w)
          (acquired w) (released w) (metricsFile w).

Definition add_log (e : LogEntry) (w : World) : World :=
  mkWorld (alertHistory w) (errors w) (lastCollection w) (log w ++ [e])%list (outbox w)
          (issued w) (acquired w) (released w) (metricsFile w).

Definition add_mail (m : Mail) (w : World) : World :=
  mkWorld (alertHistory w) (errors w) (lastCollection w) (log w) (outbox w ++ [m])%list
          (issued w) (acquired w) (released w) (metricsFile w).

Definition add_issued (q : Query) (w : World) : World :=
  mkWorld (alertHistory w) (errors w) (lastCollection w) (log w) (outbox w)
          (issued w ++ [q])%list (acquired w) (released w) (metricsFile w).

Definition add_acquired (w : World) : World :=
  mkWorld (alertHistory w) (errors w) (lastCollection w) (log w) (outbox w)
          (issued w) (S (acquired w)) (released w) (metricsFile w).

Definition add_released (w : World) : World :=
  mkWorld (alertHistory w) (errors w) (lastCollection w) (log w) (outbox w)
          (issued w) (acquired w) (S (released w)) (metricsFile w).

Definition set_metricsFile (f : FileContent) (w : World) : World :=
  mkWorld (alertHistory w) (errors w) (lastCollection w) (log w) (outbox w)
          (issued w) (acquired w) (released w) f.

(** A service just constructed. *)
Definition fresh : World := mkWorld [] 0 None [] [] [] 0 0 Unreadable.

(** ** The environment: configuration and what the outside answers *)

Record Env : Type := mkEnv {
  (* this.alertThresholds.maxConnections *)
  maxConnections : float;
  (* this.emailTransporter, when SMTP_HOST is set: sendMail resolves (None)
     or rejects *)
  emailTransporter : option (Mail -> option Error);
  (* process.env *)
  ALERT_EMAIL : option string;
  SMTP_FROM : option string;
  SMTP_USER : option string;
  (* the html template of sendAlert, with its JSON.stringify(details) *)
  render : string -> Details -> Error + string;
  (* Number.prototype.toFixed and the conversion of a number to a string *)
  toFixed : nat -> float -> string;
  numberToString : float -> string;
  (* pool.connect() resolves (None) or rejects *)
  connect : option Error;
  (* what the server answers to each query *)
  connectionResult : Error + list ConnectionsRow;
  performanceResult : Error + list PerformanceRow;
  sizeResult : Error + list SizeRow;
  lockResult : Error + list LockRow;
  (* fs.writeFile resolves (None) or rejects *)
  writeFile : option Error }.

(** A string of [process.env] in a condition: set and not empty. *)
Definition truthy (v : option string) : bool :=
  match v with
  | Some s => negb (String.eqb s "")
  | None => false
  end.

(** [a || b] on two strings of [process.env]. *)
Definition or_else (a b : option string) : option string :=
  if truthy a then a else b.

Section Service.

Variable env : Env.

Definition logger_warn (text : string) (details : Details) : M World unit :=
  modify (add_log (LogWarn text details)).

Definition logger_info (text : string) : M World unit :=
  modify (add_log (LogInfo text)).

Definition logger_error (text : string) (error : Error) : M World unit :=
  modify (add_log (LogError text error)).

Definition sendMail (transporter : Mail -> option Error) (mail : Mail) : M World unit :=
  match transporter mail with
  | None => modify (add_mail mail)
  | Some error => throw error
  end.

(** ** sendAlert *)

Definition sendAlert (title : string) (details : Details) : M World unit :=
  logger_warn ("ALERT: " ++ title) details ;;
  match emailTransporter env with
  | Some transporter =>
      if truthy (ALERT_EMAIL env) then
        try_catch
          (body <- settle (render env title details) ;;
           sendMail transporter
             (mkMail (or_else (SMTP_FROM env) (SMTP_USER env))
                     (match ALERT_EMAIL env with Some a => a | None => "" end)
                     ("Database Alert: " ++ title)
                     body) ;;
           logger_info ("Alert email sent: " ++ title))
          (fun error => logger_error "Failed to send alert email:" error)
      else ret tt
  | None => ret tt
  end.

(** ** processAlert *)

(** The test of [alertHistory.find]: same key, sent less than an hour
    before [now]. *)
Definition recent (alertKey : string) (now : Z) (a : AlertHistoryEntry) : bool :=
  String.eqb (key a) alertKey && (now - timestamp a <? 3600000)%Z.

(** [now] is what [Date.now()] returns at the start of the call. *)
Definition processAlert (now : Z) (alert : Alert) : M World unit :=
  let alertKey := type alert ++ "_" ++ level alert in
  history <- gets alertHistory ;;
  match find (recent alertKey now) history with
  | None =>
      sendAlert (type alert) (AlertDetails alert) ;;
      modify (fun w =>
        set_alertHistory (alertHistory w ++ [mkAlertHistoryEntry alertKey now alert])%list w) ;;
      pushed <- gets alertHistory ;;
      if (100 <? List.length pushed)%nat
      then modify (set_alertHistory (slice_last 100 pushed))
      else ret tt
  | Some _ => ret tt
  end.

(** ** checkAlerts *)

Local Open Scope float_scope.

(** [clock i] is what [Date.now()] returns in the call of [processAlert]
    for the alert of index [i]. *)
Definition checkAlerts (clock : nat -> Z) (metrics : MetricsSnapshot) : M World unit :=
  conn <- defined "active_connections" (connections metrics) ;;
  let connectionUsage := (active_connections conn / 100) * 100 in
  let alerts1 :=
    if maxConnections env <? connectionUsage
    then [mkAlert "high_connection_usage" "warning"
                  ("High connection usage: " ++ toFixed env 1 connectionUsage ++ "%")
                  connectionUsage (Some (maxConnections env))]
    else [] in
  let slow := slow_queries (performance metrics) in
  let alerts2 :=
    if 0 <? slow
    then (alerts1 ++ [mkAlert "slow_queries" "warning"
                              (numberToString env slow ++ " slow queries detected")
                              slow None])%list
    else alerts1 in
  sz <- defined "db_size" (size metrics) ;;
  let dbSizeGB := db_size sz / (1024 * 1024 * 1024) in
  let alerts :=
    if 1 <? dbSizeGB
    then (alerts2 ++ [mkAlert "large_database" "info"
                              ("Database size: " ++ toFixed env 2 dbSizeGB ++ " GB")
                              dbSizeGB None])%list
    else alerts2 in
  for_each (fun i alert => processAlert (clock i) alert) 0 alerts.

Local Close Scope float_scope.

(** ** storeMetrics *)

Definition storeMetrics (metrics : MetricsSnapshot) : M World unit :=
  try_catch
    (file <- gets metricsFile ;;
     existingMetrics <-
       match file with
       | Unreadable => ret []
       | ArrayOf entries => ret entries
       | NotAnArray => throw (mkError "existingMetrics.push is not a function")
       end ;;
     let pushed := (existingMetrics ++ [metrics])%list in
     let kept :=
       if (1000 <? List.length pushed)%nat then slice_last 1000 pushed else pushed in
     match writeFile env with
     | None => modify (set_metricsFile (ArrayOf kept))
     | Some error => throw error
     end)
    (fun error => logger_error "Error storing metrics:" error).

(** ** collectMetrics *)

Definition pool_connect : M World unit :=
  match connect env with
  | None => modify add_acquired
  | Some error => throw error
  end.

Definition client_release : M World unit := modify add_released.

Definition client_query {R : Type} (q : Query) (result : Error + R) : M World R :=
  modify (add_issued q) ;;
  settle result.

(** [timestamp] is what [Date.now()] returns once the four queries are
    answered, [clock] is as in [checkAlerts]. *)
Definition collectMetrics (timestamp : Z) (clock : nat -> Z) : M World unit :=
  pool_connect ;;
  try_finally
    (try_catch
       (connectionRows <- client_query ConnectionsQuery (connectionResult env) ;;
        performanceRows <- client_query PerformanceQuery (performanceResult env) ;;
        sizeRows <- client_query SizeQuery (sizeResult env) ;;
        lockRows <- client_query LocksQuery (lockResult env) ;;
        let metrics :=
          mkMetricsSnapshot
            timestamp
            (hd_error connectionRows)
            (match performanceRows with
             | row :: _ => row
             | [] => mkPerformanceRow 0 0 0
             end)
            (hd_error sizeRows)
            lockRows in
        storeMetrics metrics ;;
        checkAlerts clock metrics ;;
        modify (set_lastCollection timestamp))
       (fun error =>
          logger_error "Error collecting metrics:" error ;;
          modify (fun w => set_errors (errors w + 1) w)))
    client_release.

(** ** A sequence of candidate alerts *)

(** Calls of [processAlert] one after the other, each with the reading of
    the clock it starts with. *)
Definition processAlerts (events : list (Z * Alert)) : M World unit :=
  for_each (fun _ event => processAlert (fst event) (snd event)) 0 events.

End Service.

(** ** What the log shows *)

(** The alerts dispatched so far: the calls of [sendAlert], by title. *)
Fixpoint dispatched (l : list LogEntry) : list string :=
  match l with
  | LogWarn text _ :: l' => text :: dispatched l'
  | _ :: l' => dispatched l'
  | [] => []
  end.

(** How many alerts of a type were dispatched. *)
Definition dispatched_of (type : string) (w : World) : nat :=
  count_occ string_dec (dispatched (log w)) ("ALERT: " ++ type).

(** ** The words of the collection claims *)

Definition fails {R : Type} (r : Error + R) : bool :=
  match r with
  | inl _ => true
  | inr _ => false
  end.

(** Some catalog query of the tick fails. *)
Definition some_query_fails (env : Env) : bool :=
  fails (connectionResult env) || fails (performanceResult env) ||
  fails (sizeResult env) || fails (lockResult env).

(** The entries that [metrics.json] holds. *)
Definition stored (f : FileContent) : list MetricsSnapshot :=
  match f with
  | ArrayOf entries => entries
  | _ => []
  end.

(** ** The words of the three-snapshot claim *)

(** Every reading of the clock falls inside the hour that starts at [t0]. *)
Definition in_window (t0 t : Z) : Prop := (t0 <= t < t0 + 3600000)%Z.

Definition within_hour (t0 : Z) (clock : nat -> Z) : Prop :=
  forall i, in_window t0 (clock i).

(** A snapshot with [n] active connections (and a size row, as the size
    query always gives one). *)
Definition has_connections (n : float) (s : MetricsSnapshot) : Prop :=
  (exists conn, connections s = Some conn /\ active_connections conn = n) /\
  (exists sz, size s = Some sz).

(** ** Sample environments *)

(** No mail transport ([SMTP_HOST] not set), a server that answers every
    query with no row. *)
Definition quiet_env_with (threshold : float) : Env :=
  mkEnv threshold None None None None
        (fun _ _ => inr "") (fun _ _ => "") (fun _ => "")
        None (inr []) (inr []) (inr []) (inr []) None.

Definition quiet_env : Env := quiet_env_with 80.

(** A mail transport that rejects every mail. *)
Definition smtp_down : Error := mkError "connect ECONNREFUSED 127.0.0.1:587".

Definition failing_mail_env : Env :=
  mkEnv 80%float (Some (fun _ => Some smtp_down)) (Some "ops@example.org")
        None (Some "db@example.org")
        (fun _ _ => inr "<h2>Database Alert</h2>") (fun _ _ => "") (fun _ => "")
        None (inr []) (inr []) (inr []) (inr []) None.

(** A server that answers the first two queries and fails the third. *)
Definition size_query_down : Error := mkError "canceling statement due to statement timeout".

Definition failing_query_env : Env :=
  mkEnv 80%float None None None None
        (fun _ _ => inr "") (fun _ _ => "") (fun _ => "")
        None
        (inr [mkConnectionsRow 12 3 1]) (inr [mkPerformanceRow 100 2500 0])
        (inl size_query_down) (inr []) None.

Definition snapshot_at (i : nat) : MetricsSnapshot :=
  mkMetricsSnapshot (Z.of_nat i) (Some (mkConnectionsRow 1 0 1))
                    (mkPerformanceRow 0 0 0) (Some (mkSizeRow 0)) [].

Definition snapshot_with (n : float) (slow bytes : float) : MetricsSnapshot :=
  mkMetricsSnapshot 0 (Some (mkConnectionsRow n 0 1))
                    (mkPerformanceRow 0 0 slow) (Some (mkSizeRow bytes)) [].

(** Alerts with keys of their own: [burst_alert n v] has a type that no
    [burst_alert m _] with [m <> n] has. *)
Fixpoint tag (n : nat) : string :=
  match n with
  | O => ""
  | S n' => String "x" (tag n')
  end.

Definition burst_alert (n : nat) (v : float) : Alert :=
  mkAlert ("burst" ++ tag n) "warning" "" v None.

End Monitoring.

(* ===================================================================== *)
(** * The monitoring service: the vocabulary of its properties *)
(* ===================================================================== *)

(** The functions below are read off [Monitoring]: each one names a piece
    of a method, and [MonitoringFacts] proves that the method computes it. *)
Module MonitoringViews.

Import Js Eff Monitoring.
Local Open Scope string_scope.

(** The world after a call of [sendAlert]. *)
Definition sent (env : Env) (title : string) (details : Details) (w : World) : World :=
  final (sendAlert env title details w).

(** The dedup key of an alert: its type, an underscore, its level. *)
Definition alertKey (alert : Alert) : string := type alert ++ "_" ++ level alert.

(** The history after a push. *)
Definition trim (h : list AlertHistoryEntry) : list AlertHistoryEntry :=
  if (100 <? List.length h)%nat then slice_last 100 h else h.

(** How many alerts were dispatched so far. *)
Definition count (w : World) : nat := List.length (dispatched (log w)).

(** The entry that a dispatch at [now] pushes. *)
Definition entry_of (now : Z) (alert : Alert) : AlertHistoryEntry :=
  mkAlertHistoryEntry (alertKey alert) now alert.

(** What the cooldown reads and what the log shows. *)
Definition view (w : World) : list AlertHistoryEntry * list string :=
  (alertHistory w, dispatched (log w)).

(** [processAlert] on the view. *)
Definition step (now : Z) (alert : Alert) (v : list AlertHistoryEntry * list string)
  : list AlertHistoryEntry * list string :=
  match find (recent (alertKey alert) now) (fst v) with
  | None => (trim (fst v ++ [entry_of now alert]),
             (snd v ++ [("ALERT: " ++ type alert)%string])%list)
  | Some _ => v
  end.

Fixpoint steps (clock : nat -> Z) (i : nat) (alerts : list Alert)
    (v : list AlertHistoryEntry * list string) : list AlertHistoryEntry * list string :=
  match alerts with
  | [] => v
  | a :: alerts' => steps clock (S i) alerts' (step (clock i) a v)
  end.

(** The candidate alerts of [checkAlerts], in the order of its rules. *)
Definition candidates (env : Env) (conn : ConnectionsRow) (perf : PerformanceRow)
    (sz : SizeRow) : list Alert :=
  let connectionUsage := ((active_connections conn / 100) * 100)%float in
  let alerts1 :=
    if (maxConnections env <? connectionUsage)%float
    then [mkAlert "high_connection_usage" "warning"
                  ("High connection usage: " ++ toFixed env 1 connectionUsage ++ "%")
                  connectionUsage (Some (maxConnections env))]
    else [] in
  let slow := slow_queries perf in
  let alerts2 :=
    if (0 <? slow)%float
    then (alerts1 ++ [mkAlert "slow_queries" "warning"
                              (numberToString env slow ++ " slow queries detected")
                              slow None])%list
    else alerts1 in
  let dbSizeGB := (db_size sz / (1024 * 1024 * 1024))%float in
  if (1 <? dbSizeGB)%float
  then (alerts2 ++ [mkAlert "large_database" "info"
                            ("Database size: " ++ toFixed env 2 dbSizeGB ++ " GB")
                            dbSizeGB None])%list
  else alerts2.

(** The cooldown test without its clock. *)
Definition same_key (alertKey : string) (a : AlertHistoryEntry) : bool :=
  String.eqb (key a) alertKey.

(** Every entry of the history was pushed in the hour that starts at [t0]. *)
Definition all_in_window (t0 : Z) (h : list AlertHistoryEntry) : Prop :=
  Forall (fun e => in_window t0 (timestamp e)) h.

(** [step] with the key test in place of the cooldown test. *)
Definition step_key (now : Z) (alert : Alert) (v : list AlertHistoryEntry * list string)
  : list AlertHistoryEntry * list string :=
  match find (same_key (alertKey alert)) (fst v) with
  | None => (trim (fst v ++ [entry_of now alert]),
             (snd v ++ [("ALERT: " ++ type alert)%string])%list)
  | Some _ => v
  end.

Fixpoint steps_key (clock : nat -> Z) (i : nat) (alerts : list Alert)
    (v : list AlertHistoryEntry * list string) : list AlertHistoryEntry * list string :=
  match alerts with
  | [] => v
  | a :: alerts' => steps_key clock (S i) alerts' (step_key (clock i) a v)
  end.

(** The keys of the alerts that [checkAlerts] raises. *)
Definition alert_keys : list string :=
  ["high_connection_usage_warning"; "slow_queries_warning"; "large_database_info"].

(** The type of the alert on the connection count. *)
Definition connection_alert : string := "high_connection_usage".

End MonitoringViews.
(* ===================================================================== *)
(** * The monitoring service: health checks *)
(* ===================================================================== *)

Module Health.

Import Js Eff Monitoring.
Local Open Scope string_scope.
Local Open Scope eff_scope.

(** The queries of [checkHealth], in its order. *)
Inductive Probe : Type :=
| Connectivity            (* SELECT 1 *)
| TableCount              (* information_schema.tables *)
| DiskSize                (* pg_database_size *)
| Replication.            (* pg_stat_replication *)

(** [rows[0]] of the table count: the number that [table_count > 0]
    compares, and the text that the template literal prints. *)
Record TableCountRow : Type := mkTableCountRow {
  table_count : float;
  table_count_text : string }.

(** One entry of [health-checks.json]. *)
Record HealthRun : Type := mkHealthRun {
  run_timestamp : Z;
  checks : list HealthCheck }.

(** What [health-checks.json] holds, as [storeHealthChecks] reads it:
    nothing that [readFile] and [JSON.parse] get through, an array, or
    another JSON value. *)
Inductive HealthFile : Type :=
| NoRuns
| Runs (runs : list HealthRun)
| NotRuns.

(** The world of [Monitoring], the queries of the health check, the file. *)
Record World : Type := mkWorld {
  service : Monitoring.World;
  probes : list Probe;
  healthFile : HealthFile }.

Definition set_service (s : Monitoring.World) (w : World) : World :=
  mkWorld s (probes w) (healthFile w).

Definition add_probe (p : Probe) (w : World) : World :=
  mkWorld (service w) (probes w ++ [p])%list (healthFile w).

Definition set_healthFile (f : HealthFile) (w : World) : World :=
  mkWorld (service w) (probes w) f.

Record Env : Type := mkEnv {
  base : Monitoring.Env;
  (* what the server answers: rows.length, rows, nothing read, rows.length *)
  connectivityResult : Error + nat;
  tablesResult : Error + list TableCountRow;
  diskResult : Error + unit;
  replicationResult : Error + nat;
  (* fs.writeFile of health-checks.json resolves (None) or rejects *)
  writeHealthFile : option Error }.

(** A method of [Monitoring] run on the service part of the world. *)
Definition lift {A : Type} (m : M Monitoring.World A) : M World A :=
  fun w =>
    match m (service w) with
    | Return a s => Return a (set_service s w)
    | Throw e s => Throw e (set_service s w)
    | Exit code s => Exit code (set_service s w)
    end.

(** [`${n}`] for an array length. *)
Definition count_text (n : nat) : string := NilZero.string_of_uint (Nat.to_uint n).

Section Service.

Variable env : Env.

Definition probe {R : Type} (p : Probe) (result : Error + R) : M World R :=
  modify (add_probe p) ;;
  settle result.

(** ** storeHealthChecks *)

(** [now] is what [Date.now()] returns at the push. *)
Definition storeHealthChecks (now : Z) (healthChecks : list HealthCheck) : M World unit :=
  try_catch
    (file <- gets healthFile ;;
     existingChecks <-
       match file with
       | NoRuns => ret []
       | Runs runs => ret runs
       | NotRuns => throw (mkError "existingChecks.push is not a function")
       end ;;
     let pushed := (existingChecks ++ [mkHealthRun now healthChecks])%list in
     let kept :=
       if (100 <? List.length pushed)%nat then slice_last 100 pushed else pushed in
     match writeHealthFile env with
     | None => modify (set_healthFile (Runs kept))
     | Some error => throw error
     end)
    (fun error => lift (logger_error "Error storing health checks:" error)).

(** ** checkHealth *)

(** The [try] block of [checkHealth].  [clock i] is what the call of
    [Date.now()] number [i] of the run returns. *)
Definition checkHealth_body (clock : nat -> Z) : M World unit :=
  connectivityRows <- probe Connectivity (connectivityResult env) ;;
  let checks1 :=
    [mkHealthCheck "database_connectivity" (0 <? connectivityRows)%nat None
                   (clock 0%nat)] in
  tablesRows <- probe TableCount (tablesResult env) ;;
  row <- defined "table_count" (hd_error tablesRows) ;;
  let checks2 :=
    (checks1 ++
     [mkHealthCheck "table_accessibility" (0 <? table_count row)%float
                    (Some (table_count_text row ++ " tables found")%string)
                    (clock 1%nat)])%list in
  probe DiskSize (diskResult env) ;;
  healthChecks <-
    try_catch
      (replicas <- probe Replication (replicationResult env) ;;
       ret (checks2 ++
            [mkHealthCheck "replication_status" true
                           (Some (count_text replicas ++ " replicas")%string)
                           (clock 2%nat)])%list)
      (fun _ => ret checks2) ;;
  storeHealthChecks (clock (List.length healthChecks)) healthChecks ;;
  let unhealthyChecks := filter (fun check => negb (healthy check)) healthChecks in
  if (0 <? List.length unhealthyChecks)%nat
  then lift (sendAlert (base env) "Health Check Failed" (HealthDetails unhealthyChecks))
  else ret tt.

Definition checkHealth (clock : nat -> Z) : M World unit :=
  lift (pool_connect (base env)) ;;
  try_finally
    (try_catch
       (checkHealth_body clock)
       (fun error =>
          lift (logger_error "Health check failed:" error) ;;
          lift (sendAlert (base env) "Health Check Error" (ErrorDetails [message error]))))
    (lift client_release).

End Service.

(** ** The vocabulary of the statements *)

(** One of the first three queries fails, or the table count has no row. *)
Definition probe_fails (env : Env) : bool :=
  fails (connectivityResult env) ||
  match tablesResult env with
  | inl _ | inr [] => true
  | inr (_ :: _) => false
  end ||
  fails (diskResult env).

(** A check of the run is unhealthy: [SELECT 1] gave no row, or the table
    count is not above zero. *)
Definition unhealthy (env : Env) : bool :=
  match connectivityResult env, tablesResult env with
  | inr n, inr (row :: _) => negb (0 <? n)%nat || negb (0 <? table_count row)%float
  | _, _ => false
  end.

(** The titles of the alerts dispatched so far. *)
Definition alerts (w : World) : list string := dispatched (log (service w)).

(** What a run leaves alone in the service: the pool's counters apart, which
    it moves by one each. *)
Definition untouched (w w' : World) : Prop :=
  acquired (service w') = acquired (service w) /\
  released (service w') = released (service w) /\
  errors (service w') = errors (service w) /\
  alertHistory (service w') = alertHistory (service w) /\
  metricsFile (service w') = metricsFile (service w).

Definition runs_of (f : HealthFile) : list HealthRun :=
  match f with
  | Runs runs => runs
  | _ => []
  end.

(** ** Sample environment *)

(** A service just constructed, no file yet. *)
Definition fresh : World := mkWorld Monitoring.fresh [] NoRuns.

(** A server that answers, with no table in the schema and no view of the
    replication. *)
Definition empty_schema_env : Env :=
  mkEnv quiet_env (inr 1%nat) (inr [mkTableCountRow 0 "0"]) (inr tt)
        (inl (mkError "permission denied for view pg_stat_replication")) None.

End Health.


(* ===================================================================== *)
(** * Backups: the database manager, the restore endpoint, the restore tool *)
(* ===================================================================== *)

Module Backup.

Import Js Eff.
Local Open Scope string_scope.
Local Open Scope eff_scope.

(** ** Paths and file contents *)

(** [str.includes(word)] *)
Fixpoint includes (word str : string) : bool :=
  String.prefix word str ||
  match str with
  | EmptyString => false
  | String _ str' => includes word str'
  end.

(** [str.endsWith(suffix)] *)
Definition endsWith (suffix str : string) : bool :=
  (String.length suffix <=? String.length str)%nat &&
  String.eqb (substring (String.length str - String.length suffix)
                        (String.length suffix) str) suffix.

(** [str.startsWith(prefix)] *)
Definition startsWith (prefix str : string) : bool := String.prefix prefix str.

(** [str.replace(word, '')]: the first occurrence of [word] is taken out. *)
Fixpoint remove_first (word str : string) : string :=
  if String.prefix word str
  then substring (String.length word) (String.length str - String.length word) str
  else match str with
       | EmptyString => EmptyString
       | String c str' => String c (remove_first word str')
       end.

(** ** The scan of [path.extname] (POSIX) *)

(** Node's [path.extname], a library function that the repository calls:
    the extension runs from the last dot of the last segment of the path to
    its end; there is none when the segment has no dot, or no character
    other than dots before its last dot.  The scan goes from the end of the
    path to its start.  [restoreBackup] takes the function from the
    environment; this one serves the sample environments. *)
Record ExtScan : Type := mkExtScan {
  startDot : Z;
  startPart : Z;
  scanEnd : Z;
  matchedSlash : bool;
  preDotState : Z }.

Fixpoint extname_scan (reversed : list ascii) (i : Z) (st : ExtScan) : ExtScan :=
  match reversed with
  | [] => st
  | code :: rest =>
      if Ascii.eqb code "/" then
        if negb (matchedSlash st)
        then mkExtScan (startDot st) (i + 1) (scanEnd st) (matchedSlash st) (preDotState st)
        else extname_scan rest (i - 1) st
      else
        let st1 :=
          if (scanEnd st =? -1)%Z
          then mkExtScan (startDot st) (startPart st) (i + 1) false (preDotState st)
          else st in
        let st2 :=
          if Ascii.eqb code "." then
            if (startDot st1 =? -1)%Z
            then mkExtScan i (startPart st1) (scanEnd st1) (matchedSlash st1) (preDotState st1)
            else if negb (preDotState st1 =? 1)%Z
                 then mkExtScan (startDot st1) (startPart st1) (scanEnd st1)
                                (matchedSlash st1) 1
                 else st1
          else if negb (startDot st1 =? -1)%Z
               then mkExtScan (startDot st1) (startPart st1) (scanEnd st1)
                              (matchedSlash st1) (-1)
               else st1 in
        extname_scan rest (i - 1) st2
  end.

Definition posix_extname (path : string) : string :=
  let st := extname_scan (rev (list_ascii_of_string path))
                         (Z.of_nat (String.length path) - 1)
                         (mkExtScan (-1) 0 (-1) true 0) in
  if (startDot st =? -1)%Z || (scanEnd st =? -1)%Z || (preDotState st =? 0)%Z ||
     ((preDotState st =? 1)%Z && (startDot st =? scanEnd st - 1)%Z &&
      (startDot st =? startPart st + 1)%Z)
  then ""
  else substring (Z.to_nat (startDot st)) (Z.to_nat (scanEnd st - startDot st)) path.

(** ** The world *)

(** The external tools. *)
Inductive Command : Type :=
| Psql (file : string)                          (* psql ... -f file *)
| PgDump (file : string) (tables : list string). (* pg_dump ... --file=file -t ... *)

Inductive Line : Type :=
| Info (text : string)        (* logger.info, console.log, the spinner *)
| Failure (text : string).    (* logger.error, console.error, spinner.fail *)

Record World : Type := mkWorld {
  spawned : list Command;     (* child processes started *)
  written : list string;      (* files created by the tool itself *)
  output : list Line }.       (* log and console *)

Definition add_spawned (c : Command) (w : World) : World :=
  mkWorld (spawned w ++ [c])%list (written w) (output w).

Definition add_written (p : string) (w : World) : World :=
  mkWorld (spawned w) (written w ++ [p])%list (output w).

Definition add_output (l : Line) (w : World) : World :=
  mkWorld (spawned w) (written w) (output w ++ [l])%list.

Definition fresh : World := mkWorld [] [] [].

(** ** The environment *)

(** How a child process ends: the [close] event with its exit code, or the
    [error] event. *)
Inductive SpawnResult : Type :=
| Closed (code : Z)
| SpawnError (error : Error).

Record Stats : Type := mkStats { size : Z; birthtime : Z }.

Record Options : Type := mkOptions {
  file : option string;       (* --file *)
  directory : string;         (* --directory, ./backup by default *)
  force : bool;               (* --force *)
  dryRun : bool }.            (* --dry-run *)

Record Env : Type := mkEnv {
  (* path.extname, path.resolve, path.join, path.basename *)
  extname : string -> string;
  resolve : string -> string;
  join : string -> string -> string;
  basename : string -> string;
  (* the file system *)
  access : string -> option Error;
  readdir : string -> Error + list string;
  stat : string -> Error + Stats;
  readFile : string -> Error + string;
  gunzip : string -> option Error;
  mkdir : string -> option Error;
  (* the external tools *)
  psql : string -> SpawnResult;
  pg_dump : string -> SpawnResult;
  (* the database *)
  testConnection : option Error;
  getDatabaseInfo : Error + string;
  getTableStatistics : Error + list string;
  (* the clock, as createBackup writes it into a file name *)
  isoTimestamp : string;
  (* where database-manager.js lives *)
  dirname : string;
  (* the answers of the user *)
  selectedBackup : list string -> string;
  confirmed : bool }.

Definition isZero (code : Z) : bool := (code =? 0)%Z.

(** A number in a template literal. *)
Definition decimal (n : Z) : string := NilZero.string_of_int (Z.to_int n).

Section Manager.

Variable env : Env.

Definition say (text : string) : M World unit := modify (add_output (Info text)).
Definition complain (text : string) : M World unit := modify (add_output (Failure text)).

(** A promise that resolves (None) or rejects. *)
Definition attempt (r : option Error) : M World unit :=
  match r with
  | None => ret tt
  | Some error => throw error
  end.

(** ** DatabaseManager *)

Definition exits (tool : string) (r : SpawnResult) : M World unit :=
  match r with
  | Closed code =>
      if isZero code then ret tt
      else throw (mkError (tool ++ " exited with code " ++ decimal code))
  | SpawnError error => throw error
  end.

Definition restoreSQLBackup (backupPath : string) : M World unit :=
  modify (add_spawned (Psql backupPath)) ;;
  exits "psql" (psql env backupPath).

Definition restoreCSVBackup (backupPath : string) : M World unit :=
  throw (mkError "CSV restore not implemented yet").

Definition restoreBackup (backupPath : string) : M World unit :=
  let ext := extname env backupPath in
  (if String.eqb ext ".sql" then restoreSQLBackup backupPath
   else if String.eqb ext ".zip" then restoreCSVBackup backupPath
   else throw (mkError "Unsupported backup file format")) ;;
  say ("Backup restored from: " ++ backupPath).

Definition createSQLBackup (backupPath : string) (tables : list string) : M World unit :=
  modify (add_spawned (PgDump backupPath tables)) ;;
  exits "pg_dump" (pg_dump env backupPath).

(** [createBackup(tables, 'sql')], the only format the tools of this file
    ask for. *)
Definition createBackup (tables : list string) : M World string :=
  let backupDir := join env (dirname env) "../backup" in
  let backupPath := join env backupDir ("backup-" ++ isoTimestamp env ++ ".sql") in
  attempt (mkdir env backupDir) ;;
  try_catch
    (createSQLBackup backupPath tables ;;
     say ("Backup created: " ++ backupPath) ;;
     ret backupPath)
    (fun error => complain "Backup creation failed:" ;; throw error).

(** ** POST /api/database/restore *)

Inductive response : Type :=
| Ok (message : string)                  (* res.json({ success: true, message }) *)
| ServerError (error : string).          (* res.status(500).json({ error }) *)

Definition post_restore (backupPath : string) : M World response :=
  try_catch
    (restoreBackup backupPath ;;
     ret (Ok "Database restored successfully"))
    (fun error =>
       complain "Error restoring backup:" ;;
       ret (ServerError (message error))).

(** ** BackupManager.compressBackup: the name of the compressed file *)

Definition compressedPath (backupPath : string) : string := backupPath ++ ".gz".

(** ** The restore tool *)

Variable options : Options.

Definition backupDir : string := resolve env (directory options).

Record BackupFile : Type := mkBackupFile {
  name : string;
  path : string;
  created : Z }.

Fixpoint insert_by_created (b : BackupFile) (l : list BackupFile) : list BackupFile :=
  match l with
  | [] => [b]
  | b' :: l' => if (created b' <=? created b)%Z then b :: l
                else b' :: insert_by_created b l'
  end.

(** [backupFiles.sort((a, b) => b.created - a.created)]: newest first, and
    files of the same date in the order they had ([Array.prototype.sort] is
    stable). *)
Definition sort_by_created (l : list BackupFile) : list BackupFile :=
  fold_right insert_by_created [] l.

Fixpoint stat_all (files : list string) : M World (list BackupFile) :=
  match files with
  | [] => ret []
  | f :: files' =>
      let p := join env backupDir f in
      stats <- settle (stat env p) ;;
      rest <- stat_all files' ;;
      ret (mkBackupFile f p (birthtime stats) :: rest)
  end.

Definition listAvailableBackups : M World (list BackupFile) :=
  try_catch
    (files <- settle (readdir env backupDir) ;;
     let backupFiles :=
       filter (fun f => startsWith "backup-" f &&
                        (endsWith ".sql" f || endsWith ".zip" f || endsWith ".gz" f))
              files in
     backups <- stat_all backupFiles ;;
     ret (sort_by_created backups))
    (fun error =>
       complain ("Error reading backup directory: " ++ message error) ;;
       ret []).

Definition selectBackupFile : M World string :=
  match file options with
  | Some f =>
      let filePath := resolve env f in
      try_catch
        (attempt (access env filePath) ;; ret filePath)
        (fun _ => complain ("Backup file not found: " ++ filePath) ;; exit 1)
  | None =>
      backups <- listAvailableBackups ;;
      match backups with
      | [] => say "No backup files found in the directory" ;; exit 1
      | _ =>
          say "Available backup files:" ;;
          ret (selectedBackup env (map path backups))
      end
  end.

Definition validateBackup (backupPath : string) : M World bool :=
  try_catch
    (stats <- settle (stat env backupPath) ;;
     if (size stats =? 0)%Z then
       complain "Backup file is empty" ;; ret false
     else
       valid <-
         (if endsWith ".sql" backupPath || endsWith ".gz" backupPath then
            content <- settle (readFile env backupPath) ;;
            ret (includes "CREATE" content || includes "INSERT" content ||
                 includes "COPY" content)
          else ret true) ;;
       if valid then say "Backup file validation passed" ;; ret true
       else complain "Backup file appears to be invalid (no SQL content found)" ;;
            ret false)
    (fun error =>
       complain ("Backup validation failed: " ++ message error) ;; ret false).

Definition createRestorePoint : M World unit :=
  say "Creating restore point before proceeding..." ;;
  try_catch
    (createBackup [] ;; say "Restore point created")
    (fun error => say ("Could not create restore point: " ++ message error)).

Definition confirmRestore (backupPath : string) : M World bool :=
  if force options then ret true
  else
    say "WARNING: This operation will replace existing data!" ;;
    say ("Backup file: " ++ basename env backupPath) ;;
    dbInfo <- settle (getDatabaseInfo env) ;;
    say ("Target database: " ++ dbInfo) ;;
    ret (confirmed env).

Definition decompressBackup (compressed : string) : M World string :=
  let decompressedPath := remove_first ".gz" compressed in
  attempt (gunzip env compressed) ;;
  modify (add_written decompressedPath) ;;
  ret decompressedPath.

Definition showRestoreSummary : M World unit :=
  try_catch
    (dbInfo <- settle (getDatabaseInfo env) ;;
     tables <- settle (getTableStatistics env) ;;
     say "Restore Summary:" ;;
     say ("Database: " ++ dbInfo) ;;
     for_each (fun _ table => say table) 0 tables)
    (fun error => say ("Could not generate summary: " ++ message error)).

Definition performRestore (backupPath : string) : M World unit :=
  try_catch
    (attempt (testConnection env) ;;
     if dryRun options then
       say ("DRY RUN: Would restore from " ++ basename env backupPath)
     else
       toRestore <-
         (if endsWith ".gz" backupPath then decompressBackup backupPath
          else ret backupPath) ;;
       restoreBackup toRestore ;;
       say "Database restored successfully!" ;;
       showRestoreSummary)
    (fun error => complain ("Restore failed: " ++ message error) ;; throw error).

(** [main] of restore-database.js.  The [finally] block closes the pool,
    which shows in nothing that is modelled here. *)
Definition main : M World unit :=
  say "Ghibli Food Database Restore Tool" ;;
  try_catch
    (backupPath <- selectBackupFile ;;
     isValid <- validateBackup backupPath ;;
     if negb isValid then exit 1
     else
       (if negb (dryRun options) then createRestorePoint else ret tt) ;;
       ok <- confirmRestore backupPath ;;
       if negb ok then say "Restore cancelled" ;; exit 0
       else
         performRestore backupPath ;;
         say "Restore completed successfully!")
    (fun error =>
       complain ("Restore failed: " ++ message error) ;;
       (if includes "connection" (message error)
        then say "Troubleshooting tips:"
        else ret tt) ;;
       exit 1).

End Manager.

(** ** The words of the restore claims *)

(** An external tool was started. *)
Definition tool_started (before after : World) : bool :=
  negb (Nat.eqb (List.length (spawned after)) (List.length (spawned before))).

(** [psql] was started on [file]. *)
Definition restored_from (file : string) (w : World) : bool :=
  existsb (fun c => match c with
                    | Psql f => String.eqb f file
                    | PgDump _ _ => false
                    end) (spawned w).

(** The errors of [restoreBackup]. *)
Definition unsupported : Error := mkError "Unsupported backup file format".
Definition not_implemented : Error := mkError "CSV restore not implemented yet".

(** ** Sample environments *)

Definition empty_backup : string := "/app/backup/backup-2024-01-01T00-00-00-000Z.sql".

(** A machine on which [empty_backup] exists and has no byte, [psql] and
    [pg_dump] run and exit with 0, and the user confirms. *)
Definition empty_file_env : Env :=
  mkEnv posix_extname (fun p => p) (fun d f => d ++ "/" ++ f) (fun p => p)
        (fun _ => None)
        (fun _ => inr ["backup-2024-01-01T00-00-00-000Z.sql"])
        (fun _ => inr (mkStats 0 1704067200000))
        (fun _ => inr "")
        (fun _ => None) (fun _ => None)
        (fun _ => Closed 0) (fun _ => Closed 0)
        None (inr "ghibli_food_db on localhost:5432") (inr [])
        "2024-01-02T00-00-00-000Z" "/app/admin"
        (fun choices => hd "" choices) true.

(** The same machine with 2048 bytes of SQL in the file. *)
Definition sound_file_env : Env :=
  mkEnv posix_extname (fun p => p) (fun d f => d ++ "/" ++ f) (fun p => p)
        (fun _ => None)
        (fun _ => inr ["backup-2024-01-01T00-00-00-000Z.sql"])
        (fun _ => inr (mkStats 2048 1704067200000))
        (fun _ => inr "CREATE TABLE books (id integer);")
        (fun _ => None) (fun _ => None)
        (fun _ => Closed 0) (fun _ => Closed 0)
        None (inr "ghibli_food_db on localhost:5432") (inr [])
        "2024-01-02T00-00-00-000Z" "/app/admin"
        (fun choices => hd "" choices) true.

Definition restore_empty_options : Options :=
  mkOptions (Some empty_backup) "./backup" true false.

End Backup.
(* ===================================================================== *)
(** * Backups: the vocabulary of the properties of the tools *)
(* ===================================================================== *)

Module BackupViews.

Import Js Eff Backup.

Definition is_psql (c : Command) : bool :=
  match c with
  | Psql _ => true
  | PgDump _ _ => false
  end.

(** The runs of [psql] so far. *)
Definition psql_runs (w : World) : list Command := filter is_psql (spawned w).

(** What a run changes outside the database and the console: the tools it
    starts and the files it writes. *)
Definition footprint (w : World) : list Command * list string := (spawned w, written w).

(** The names that the restore tool lists. *)
Definition listed (f : string) : bool :=
  startsWith "backup-" f && (endsWith ".sql" f || endsWith ".zip" f || endsWith ".gz" f).

(** Newest first. *)
Definition newer_first (a b : BackupFile) : Prop := (created b <= created a)%Z.

(** What [listAvailableBackups] reports of a file. *)
Definition reported (env : Env) (options : Options) (b : BackupFile) : Prop :=
  listed (name b) = true /\
  path b = join env (backupDir env options) (name b) /\
  exists stats, stat env (path b) = inr stats /\ created b = birthtime stats.

(** ** Sample environments *)

(** The machine of [sound_file_env] with a user who answers no. *)
Definition declining_env : Env :=
  mkEnv posix_extname (fun p => p) (fun d x => d ++ "/" ++ x)%string (fun p => p)
        (fun _ => None)
        (fun _ => inr ["backup-2024-01-01T00-00-00-000Z.sql"%string])
        (fun _ => inr (mkStats 2048 1704067200000))
        (fun _ => inr "CREATE TABLE books (id integer);"%string)
        (fun _ => None) (fun _ => None)
        (fun _ => Closed 0) (fun _ => Closed 0)
        None (inr "ghibli_food_db on localhost:5432"%string) (inr [])
        "2024-01-02T00-00-00-000Z"%string "/app/admin"%string
        (fun choices => hd ""%string choices) false.

(** [--file empty_backup], no [--force], no [--dry-run]. *)
Definition ask_options : Options := mkOptions (Some empty_backup) "./backup"%string false false.

(** [--file empty_backup --force --dry-run]. *)
Definition dry_run_options : Options :=
  mkOptions (Some empty_backup) "./backup"%string true true.

End BackupViews.

(* ===================================================================== *)
(** * The backup tool *)
(* ===================================================================== *)

Module BackupTool.

Import Js Eff Backup.
Local Open Scope string_scope.
Local Open Scope eff_scope.

(** The options of [backup-database]. *)
Record Options : Type := mkOptions {
  format : string;              (* --format, sql by default *)
  tables : list string;         (* --tables *)
  outputDir : string;           (* --output, ./backup by default *)
  compress : bool;              (* --compress *)
  schedule : option string }.   (* --schedule *)

(** The world of [Backup], and the paths that the tool has unlinked. *)
Record World : Type := mkWorld {
  manager : Backup.World;
  unlinked : list string }.

Definition set_manager (m : Backup.World) (w : World) : World :=
  mkWorld m (unlinked w).

Definition add_unlinked (p : string) (w : World) : World :=
  mkWorld (manager w) (unlinked w ++ [p])%list.

Definition fresh : World := mkWorld Backup.fresh [].

Record Env : Type := mkEnv {
  base : Backup.Env;
  (* DatabaseManager.createCSVBackup resolves (None) or rejects *)
  csvBackup : string -> list string -> option Error;
  (* the streams of compressBackup: the read side and gzip have no error
     listener, the write side rejects the promise *)
  readStream : string -> option Error;
  writeStream : string -> option Error;
  (* fs.unlink resolves (None) or rejects *)
  unlink : string -> option Error;
  (* formatBytes, Date.prototype.toISOString, and the line that listBackups
     prints for a file *)
  formatBytes : Z -> string;
  toISOString : Z -> string;
  describe : string -> Stats -> string;
  (* the date thirty days before the run *)
  cutoffDate : Z;
  (* cron.validate *)
  validCron : string -> bool }.

(** A method of [Backup] run on the manager's part of the world. *)
Definition lift {A : Type} (m : M Backup.World A) : M World A :=
  fun w =>
    match m (manager w) with
    | Return a s => Return a (set_manager s w)
    | Throw e s => Throw e (set_manager s w)
    | Exit code s => Exit code (set_manager s w)
    end.

(** [files.sort()]: by code units. *)
Fixpoint insert_by_name (f : string) (l : list string) : list string :=
  match l with
  | [] => [f]
  | g :: l' => if String.leb f g then f :: l else g :: insert_by_name f l'
  end.

Definition sort_by_name (l : list string) : list string :=
  fold_right insert_by_name [] l.

(** The error of [createBackup] for a format it does not know; the message
    has the two formats in double quotes. *)
Definition quoted (s : string) : string :=
  String (ascii_of_nat 34) (s ++ String (ascii_of_nat 34) EmptyString).

Definition unsupported_format : Error :=
  mkError ("Unsupported backup format. Use " ++ quoted "sql" ++ " or " ++ quoted "csv").

Section Tool.

Variable env : Env.
Variable options : Options.

Definition say (text : string) : M World unit := lift (Backup.say text).
Definition complain (text : string) : M World unit := lift (Backup.complain text).

(** An error event on a stream without listener, a rejection in an event
    handler: nothing catches them, and the process ends with code 1 (for
    the rejection, the default of Node 15 and later). *)
Definition uncaught {A : Type} : M World A := exit 1.

(** [fs.stat]: a path that the tool has unlinked is gone. *)
Definition fs_stat (p : string) : M World Stats :=
  gone <- gets (fun w => existsb (String.eqb p) (unlinked w)) ;;
  if gone
  then throw (mkError ("ENOENT: no such file or directory, stat '" ++ p ++ "'"))
  else settle (stat (base env) p).

Definition fs_unlink (p : string) : M World unit :=
  match unlink env p with
  | None => modify (add_unlinked p)
  | Some error => throw error
  end.

(** ** DatabaseManager.createBackup, with its format *)

Definition createBackup_of (tables : list string) (format : string) : M World string :=
  let backupDir := join (base env) (dirname (base env)) "../backup" in
  let backupPath :=
    join (base env) backupDir
         ("backup-" ++ isoTimestamp (base env) ++ "." ++
          (if String.eqb format "csv" then "zip" else "sql")) in
  lift (attempt (mkdir (base env) backupDir)) ;;
  try_catch
    ((if String.eqb format "sql" then
        lift (createSQLBackup (base env) backupPath tables)
      else if String.eqb format "csv" then
        lift (attempt (csvBackup env backupPath tables))
      else throw unsupported_format) ;;
     say ("Backup created: " ++ backupPath) ;;
     ret backupPath)
    (fun error => complain "Backup creation failed:" ;; throw error).

(** ** BackupManager *)

Definition backupDir : string := resolve (base env) (outputDir options).

Definition ensureBackupDirectory : M World unit :=
  try_catch
    (lift (attempt (mkdir (base env) backupDir)) ;;
     say ("Backup directory ready: " ++ backupDir))
    (fun error =>
       complain ("Failed to create backup directory: " ++ message error) ;;
       exit 1).

Definition compressBackup (backupPath : string) : M World string :=
  let compressedPath := backupPath ++ ".gz" in
  match readStream env backupPath with
  | Some _ => uncaught
  | None =>
      match writeStream env compressedPath with
      | Some error => throw error
      | None =>
          lift (modify (add_written compressedPath)) ;;
          try_catch (fs_unlink backupPath) (fun _ => uncaught) ;;
          say ("Backup compressed: " ++ compressedPath) ;;
          ret compressedPath
      end
  end.

Definition createBackup : M World string :=
  try_catch
    (lift (attempt (testConnection (base env))) ;;
     backupPath <- createBackup_of (tables options) (format options) ;;
     (if compress options && String.eqb (format options) "sql"
      then compressBackup backupPath ;; ret tt
      else ret tt) ;;
     say ("Backup created successfully: " ++ backupPath) ;;
     stats <- fs_stat backupPath ;;
     say ("Size: " ++ formatBytes env (size stats)) ;;
     say ("Created: " ++ toISOString env (birthtime stats)) ;;
     ret backupPath)
    (fun error =>
       complain ("Backup failed: " ++ message error) ;;
       throw error).

Definition listBackups : M World unit :=
  try_catch
    (files <- lift (settle (readdir (base env) backupDir)) ;;
     let backupFiles :=
       filter (fun f => startsWith "backup-" f &&
                        (endsWith ".sql" f || endsWith ".zip" f || endsWith ".gz" f))
              files in
     match backupFiles with
     | [] => say "No backup files found"
     | _ =>
         say "Available backups:" ;;
         for_each
           (fun _ f =>
              let filePath := join (base env) backupDir f in
              stats <- fs_stat filePath ;;
              say (describe env f stats))
           0 (rev (sort_by_name backupFiles))
     end)
    (fun error => complain ("Error listing backups: " ++ message error)).

(** The loop of [cleanOldBackups], with [deletedCount] and [totalSize]. *)
Fixpoint clean (files : list string) (deletedCount totalSize : Z) : M World (Z * Z) :=
  match files with
  | [] => ret (deletedCount, totalSize)
  | f :: files' =>
      if startsWith "backup-" f then
        let filePath := join (base env) backupDir f in
        stats <- fs_stat filePath ;;
        if (birthtime stats <? cutoffDate env)%Z then
          fs_unlink filePath ;;
          clean files' (deletedCount + 1)%Z (totalSize + size stats)%Z
        else clean files' deletedCount totalSize
      else clean files' deletedCount totalSize
  end.

Definition cleanOldBackups : M World unit :=
  try_catch
    (files <- lift (settle (readdir (base env) backupDir)) ;;
     counts <- clean files 0 0 ;;
     say ("Cleaned " ++ decimal (fst counts) ++ " old backups (freed " ++
          formatBytes env (snd counts) ++ ")"))
    (fun error => complain ("Cleanup failed: " ++ message error)).

(** What the scheduler runs at each tick. *)
Definition scheduledBackup : M World unit :=
  say "Scheduled backup starting..." ;;
  try_catch
    (createBackup ;; cleanOldBackups)
    (fun error => complain ("Scheduled backup failed: " ++ message error)).

Definition scheduleBackups (cronExpression : string) : M World unit :=
  say ("Scheduling backups with cron: " ++ cronExpression) ;;
  if negb (validCron env cronExpression) then
    complain "Invalid cron expression" ;; exit 1
  else say "Backup scheduler started. Press Ctrl+C to stop.".

(** [main] of backup-database.js.  The [finally] block closes the pool,
    which shows in nothing that is modelled here. *)
Definition main : M World unit :=
  say "Ghibli Food Database Backup Tool" ;;
  try_catch
    (ensureBackupDirectory ;;
     match schedule options with
     | Some cronExpression => scheduleBackups cronExpression
     | None =>
         listBackups ;;
         say "" ;;
         createBackup ;;
         cleanOldBackups
     end)
    (fun error => complain ("Error: " ++ message error) ;; exit 1).

End Tool.

(** ** The vocabulary of the statements *)

(** The file names that [cleanOldBackups] may delete: the entries of the
    directory that start with [backup-] and were created before the
    cutoff. *)
Definition old_backup (env : Env) (options : Options) (f : string) : bool :=
  startsWith "backup-" f &&
  match stat (base env) (join (base env) (backupDir env options) f) with
  | inr stats => (birthtime stats <? cutoffDate env)%Z
  | inl _ => false
  end.

(** The entries of the output directory. *)
Definition entries (env : Env) (options : Options) : list string :=
  match readdir (base env) (backupDir env options) with
  | inr files => files
  | inl _ => []
  end.

(** An entry that starts with [backup-] and was created before the cutoff. *)
Definition expired (env : Env) (options : Options) (f : string) : Prop :=
  In f (entries env options) /\
  startsWith "backup-" f = true /\
  exists stats,
    stat (base env) (join (base env) (backupDir env options) f) = inr stats /\
    (birthtime stats < cutoffDate env)%Z.

Definition dumps (w : World) : list Command := spawned (manager w).

Definition lines (w : World) : list Line := output (manager w).

(** ** Sample environments *)

(** The machine of [sound_file_env], on which every stream and every call
    of the file system succeeds; files are a day old, the cutoff is now. *)
Definition sound_env : Env :=
  mkEnv sound_file_env (fun _ _ => None) (fun _ => None) (fun _ => None) (fun _ => None)
        (fun _ => "2 KB") (fun _ => "2024-01-01T00:00:00.000Z") (fun f _ => f)
        1704153600000 (fun _ => true).

Definition compress_options : Options := mkOptions "sql" [] "./backup" true None.

Definition plain_options : Options := mkOptions "sql" [] "./backup" false None.

End BackupTool.

(* ===================================================================== *)
(** * The database manager: the pool and its clients *)
(* ===================================================================== *)

Module Manager.

Import Js Eff.
Local Open Scope string_scope.
Local Open Scope eff_scope.

(** What [client.query] sends: one of the fixed statements of the manager,
    or a text with its parameters. *)
Inductive Statement : Type :=
| SelectNow                 (* SELECT NOW() *)
| ListTables                (* tablename of pg_tables, schema public *)
| TableStatistics           (* pg_stat_user_tables *)
| Analyze                   (* ANALYZE *)
| Text (sql : jsstring) (params : list jsstring).

(** A row: its columns by name. *)
Definition Row : Type := list (string * jsstring).

Record Result : Type := mkResult { rows : list Row; rowCount : Z }.

(** [`${row[column]}`]: what a template literal prints for the column,
    [undefined] when the row has none of that name. *)
Fixpoint field (column : string) (row : Row) : jsstring :=
  match row with
  | [] => units "undefined"
  | (c, v) :: row' => if String.eqb c column then v else field column row'
  end.

Inductive Line : Type :=
| Info (text : string)
| Failure (text : string) (error : Error).

Record World : Type := mkWorld {
  acquired : nat;             (* pool.connect() that resolved *)
  released : nat;             (* client.release() *)
  sent : list Statement;      (* statements sent to the server *)
  log : list Line }.

Definition add_acquired (w : World) : World :=
  mkWorld (S (acquired w)) (released w) (sent w) (log w).

Definition add_released (w : World) : World :=
  mkWorld (acquired w) (S (released w)) (sent w) (log w).

Definition add_sent (s : Statement) (w : World) : World :=
  mkWorld (acquired w) (released w) (sent w ++ [s])%list (log w).

Definition add_log (l : Line) (w : World) : World :=
  mkWorld (acquired w) (released w) (sent w) (log w ++ [l])%list.

Definition fresh : World := mkWorld 0 0 [] [].

(** The clients that are checked out. *)
Definition outstanding (w : World) : nat := acquired w - released w.

Record Env : Type := mkEnv {
  (* a connection to the server is made (None) or fails *)
  connect : option Error;
  (* what the server answers *)
  answer : Statement -> Error + Result }.

(** The pool of the constructor: at most 20 clients, and a [connect] that
    finds them all checked out rejects after two seconds. *)
Definition max : nat := 20.

Definition connectionTimeout : Error := mkError "timeout exceeded when trying to connect".

Section Methods.

Variable env : Env.

Definition pool_connect : M World unit :=
  busy <- gets outstanding ;;
  if (max <=? busy)%nat then throw connectionTimeout
  else match connect env with
       | None => modify add_acquired
       | Some error => throw error
       end.

Definition client_release : M World unit := modify add_released.

Definition client_query (s : Statement) : M World Result :=
  modify (add_sent s) ;;
  settle (answer env s).

Definition logger_info (text : string) : M World unit := modify (add_log (Info text)).

Definition logger_error (text : string) (error : Error) : M World unit :=
  modify (add_log (Failure text error)).

(** ** testConnection *)

Definition testConnection : M World bool :=
  try_catch
    (pool_connect ;;
     client_query SelectNow ;;
     client_release ;;
     logger_info "Database connection successful" ;;
     ret true)
    (fun error =>
       logger_error "Database connection failed:" error ;;
       throw error).

(** ** getTableStatistics *)

Definition getTableStatistics : M World (list Row) :=
  pool_connect ;;
  try_finally
    (result <- client_query TableStatistics ;;
     ret (rows result))
    client_release.

(** ** executeQuery *)

Record QueryResult : Type := mkQueryResult {
  result_rows : list Row;
  result_rowCount : Z;
  duration : Z;
  query_echo : jsstring }.

(** [start] and [finish] are the two readings of [Date.now()]. *)
Definition executeQuery (start finish : Z) (query : jsstring) (params : list jsstring)
  : M World QueryResult :=
  pool_connect ;;
  try_finally
    (result <- client_query (Text query params) ;;
     ret (mkQueryResult (rows result) (rowCount result) (finish - start)
            (firstn 100 query ++
             (if (100 <? List.length query)%nat then units "..." else []))%list))
    client_release.

(** ** optimizeDatabase *)

(** The loop over [tables.rows], with [results]. *)
Fixpoint vacuum (tables : list Row) (results : list jsstring) : M World (list jsstring) :=
  match tables with
  | [] => ret results
  | table :: tables' =>
      client_query (Text (units "VACUUM ANALYZE " ++ field "tablename" table)%list []) ;;
      vacuum tables' (results ++ [units "Optimized table: " ++ field "tablename" table])%list
  end.

Definition optimizeDatabase : M World (list jsstring) :=
  pool_connect ;;
  try_finally
    (tables <- client_query ListTables ;;
     results <- vacuum (rows tables) [] ;;
     client_query Analyze ;;
     ret (results ++ [units "Updated database statistics"])%list)
    client_release.

(** ** POST /api/database/query *)

Definition post_query (start finish : Z) (query : jsstring) (params : list jsstring)
  : M World (Admin.response QueryResult) :=
  try_catch
    (if negb (Admin.isQuerySafe query) then
       ret (Admin.mkResponse 400 (Admin.ErrorBody "Unsafe query detected") [])
     else
       result <- executeQuery start finish query params ;;
       ret (Admin.mkResponse 200 (Admin.JsonBody result) []))
    (fun error =>
       logger_error "Error executing query:" error ;;
       ret (Admin.mkResponse 500 (Admin.ErrorBody (message error))
              [("Error executing query:", error)])).

End Methods.

(** ** The vocabulary of the statements *)

(** [n] calls of [testConnection], one after the other. *)
Fixpoint testConnections (env : Env) (n : nat) (w : World) : World :=
  match n with
  | O => w
  | S n' => testConnections env n' (final (testConnection env w))
  end.

(** The statement that [optimizeDatabase] sends for a table. *)
Definition vacuuming (table : Row) : Statement :=
  Text (units "VACUUM ANALYZE " ++ field "tablename" table)%list [].

(** The statements that a full run of [optimizeDatabase] sends. *)
Definition optimizing (tables : list Row) : list Statement :=
  (ListTables :: map vacuuming tables ++ [Analyze])%list.

(** The server answers the statement with a result. *)
Definition answers (env : Env) (s : Statement) : bool :=
  match answer env s with
  | inr _ => true
  | inl _ => false
  end.

(** The clients of the pool: taken, given back. *)
Definition clients (w : World) : nat * nat := (acquired w, released w).

(** ** Sample environments *)

(** A server that accepts connections and refuses [SELECT NOW()]. *)
Definition no_clock_env : Env :=
  mkEnv None
        (fun s => match s with
                  | SelectNow => inl (mkError "canceling statement due to statement timeout")
                  | _ => inr (mkResult [] 0)
                  end).

(** A server with two tables. *)
Definition two_tables_env : Env :=
  mkEnv None
        (fun s => match s with
                  | ListTables =>
                      inr (mkResult [[("tablename", units "books")];
                                     [("tablename", units "users")]] 2)
                  | _ => inr (mkResult [] 0)
                  end).

End Manager.

(* ===================================================================== *)
(** * Facts about the matcher *)
(* ===================================================================== *)

Module RegexFacts.

Import Js Regex QueryWords.

Lemma run_lit_units (w : jsstring) (k : cont) (n : nat) (s : jsstring) :
  run (lit_units w) k n s
  = prefix_ci w s && k (n + List.length w) (skipn (List.length w) s).
Proof.
  revert n s. induction w as [|p w IH]; intros n s.
  - cbn. now rewrite Nat.add_0_r.
  - destruct s as [|c s]; [reflexivity|].
    cbn [List.length skipn prefix_ci].
    change (run (lit_units (p :: w)) k n (c :: s))
      with (ci p c && run (lit_units w) k (S n) s).
    rewrite IH, andb_assoc. now replace (S n + List.length w) with (n + S (List.length w)) by lia.
Qed.

Lemma run_lit (w : string) (k : cont) (n : nat) (s : jsstring) :
  run (lit w) k n s
  = prefix_ci (units w) s
    && k (n + List.length (units w)) (skipn (List.length (units w)) s).
Proof. apply run_lit_units. Qed.

Lemma run_seq (a b : regex) (k : cont) (n : nat) (s : jsstring) :
  run (Seq a b) k n s = run a (run b k) n s.
Proof. reflexivity. Qed.

Lemma star_zero (p : code_unit -> bool) (k : cont) (n : nat) (s : jsstring) :
  k n s = true -> star p k n s = true.
Proof.
  intros H. destruct s as [|c s]; cbn; [exact H|]. rewrite H. apply orb_true_r.
Qed.


(** What [p*] hands on is a suffix of what it was given. *)
Lemma star_contains (p : code_unit -> bool) (k : cont) (w : jsstring) :
  (forall n s, k n s = true -> prefix_ci w s = true) ->
  forall n s, star p k n s = true -> contains_ci w s = true.
Proof.
  intros Hk n s. revert n. induction s as [|c s IH]; intros n H; cbn in *.
  - now rewrite (Hk _ _ H).
  - apply orb_true_iff in H. destruct H as [H|H].
    + apply andb_true_iff in H. destruct H as [_ H].
      rewrite (IH _ H). apply orb_true_r.
    + apply Hk in H. cbn in H. now rewrite H.
Qed.

Lemma search_bol_later (r : regex) (n : nat) (s : jsstring) :
  search (Seq Bol r) (S n) s = false.
Proof. revert n. induction s as [|c s IH]; intros n; cbn; [reflexivity|apply IH]. Qed.

(** An anchored pattern is tried at index 0 only. *)
Lemma test_bol (r : regex) (s : jsstring) :
  test (Seq Bol r) s = run r accept 0 s.
Proof.
  unfold test. destruct s as [|c s]; cbn.
  - apply orb_false_r.
  - now rewrite search_bol_later, orb_false_r.
Qed.

(** A pattern that can only match where [w] stands is found only in a text
    that contains [w]. *)
Lemma search_contains (r : regex) (w : jsstring) :
  (forall n s, run r accept n s = true -> prefix_ci w s = true) ->
  forall n s, search r n s = true -> contains_ci w s = true.
Proof.
  intros Hr n s. revert n. induction s as [|c s IH]; intros n H; cbn in H.
  - rewrite orb_false_r in H. apply Hr in H. cbn. now rewrite H.
  - apply orb_true_iff in H. destruct H as [H|H].
    + apply Hr in H. cbn [contains_ci]. now rewrite H.
    + cbn [contains_ci]. rewrite (IH _ H). apply orb_true_r.
Qed.

(** A pattern that matches wherever [w] stands is found in every text that
    contains [w]. *)
Lemma contains_search (r : regex) (w : jsstring) :
  (forall n s, prefix_ci w s = true -> run r accept n s = true) ->
  forall n s, contains_ci w s = true -> search r n s = true.
Proof.
  intros Hr n s. revert n. induction s as [|c s IH]; intros n H; cbn in H.
  - rewrite orb_false_r in H. cbn. now rewrite (Hr _ _ H).
  - apply orb_true_iff in H. cbn [search]. destruct H as [H|H].
    + now rewrite (Hr _ _ H).
    + rewrite (IH _ H). apply orb_true_r.
Qed.

Lemma prefix_ci_app (a b s : jsstring) :
  prefix_ci (a ++ b) s = prefix_ci a s && prefix_ci b (skipn (List.length a) s).
Proof.
  revert s. induction a as [|p a IH]; intros s; [reflexivity|].
  destruct s as [|c s]; cbn; [reflexivity|]. now rewrite IH, andb_assoc.
Qed.

End RegexFacts.

(* ===================================================================== *)
(** * The query filter: what it rejects and what it accepts *)
(* ===================================================================== *)

Module AdminFacts.

Import Js Regex Admin QueryWords RegexFacts.
Local Open Scope N_scope.






Lemma star_space_skip (k : cont) (s : jsstring) :
  (forall m, k m (drop_ws s) = true) -> forall n, star is_space k n s = true.
Proof.
  induction s as [|c s IH]; intros Hk n; cbn in *; [apply Hk|].
  destruct (is_space c) eqn:Hc.
  - cbn. now rewrite IH.
  - cbn. apply Hk.
Qed.

Lemma begins_test (w : string) (q : jsstring) :
  begins_ci w q = true ->
  test (cat [Bol; Star is_space; lit w]) q = true.
Proof.
  intros H. change (cat [Bol; Star is_space; lit w])
    with (Seq Bol (Seq (Star is_space) (Seq (lit w) Eps))).
  rewrite test_bol, run_seq. cbn [run]. apply star_space_skip.
  intros m. rewrite run_lit. unfold begins_ci in H. now rewrite H.
Qed.






(** ** The denylist *)

Lemma ci_space (c : code_unit) : ci 32 c = true -> is_space c = true.
Proof.
  unfold ci, canonicalize. change (is_lower 32) with false. cbv iota.
  destruct (is_lower c) eqn:Hc; rewrite N.eqb_eq; intros H.
  - unfold is_lower in Hc. rewrite andb_true_iff, !N.leb_le in Hc. lia.
  - now subst c.
Qed.

Lemma suffix_contains (w : jsstring) (n : nat) (s : jsstring) :
  contains_ci w (skipn n s) = true -> contains_ci w s = true.
Proof.
  revert s. induction n as [|n IH]; intros s H; [exact H|].
  destruct s as [|c s]; [exact H|]. cbn [skipn] in H. cbn [contains_ci].
  rewrite (IH _ H). apply orb_true_r.
Qed.

(** A denylist pattern that opens with the word [w] is found only in a
    query that contains [w]. *)
Lemma test_lit_contains (w : string) (r : regex) (q : jsstring) :
  test (Seq (lit w) r) q = true -> contains_ci (units w) q = true.
Proof.
  unfold test. apply search_contains. intros n s H.
  rewrite run_seq, run_lit in H. now apply andb_true_iff in H.
Qed.

Lemma dangerous_sound (q : jsstring) :
  existsb (fun pattern => test pattern q) dangerousPatterns = true ->
  contains_ci (units "drop") q = true \/ contains_ci (units "truncate") q = true \/
  contains_ci (units "alter") q = true \/ contains_ci (units "delete") q = true \/
  contains_ci (units "update") q = true.
Proof.
  unfold dangerousPatterns. cbn [existsb]. rewrite !orb_true_iff.
  intros [H|[H|[H|[H|[H|[H|H]]]]]]; try discriminate.
  - left. revert H. apply test_lit_contains.
  - left. revert H. apply test_lit_contains.
  - right; left. revert H.
    change (lit "truncate") with (lit_units (units "truncate")).
    unfold test. apply search_contains. intros n s H.
    rewrite run_lit_units in H. now apply andb_true_iff in H.
  - right; right; left. revert H. apply test_lit_contains.
  - right; right; right; left. revert H. apply test_lit_contains.
  - right; right; right; right. revert H. apply test_lit_contains.
Qed.

(** [w1], one blank, [w2]: found by [w1\s+w2]. *)
Lemma run_two_words (w1 w2 : string) (n : nat) (s : jsstring) :
  prefix_ci (units w1 ++ 32 :: units w2) s = true ->
  run (cat [lit w1; plus is_space; lit w2]) accept n s = true.
Proof.
  intros H. rewrite prefix_ci_app in H. apply andb_true_iff in H.
  destruct H as [H1 H2].
  change (cat [lit w1; plus is_space; lit w2])
    with (Seq (lit w1) (Seq (plus is_space) (Seq (lit w2) Eps))).
  rewrite run_seq, run_lit, H1. cbn [andb].
  destruct (skipn (List.length (units w1)) s) as [|c s'];
    cbn in H2; [discriminate|].
  apply andb_true_iff in H2. destruct H2 as [Hc H2].
  unfold plus. rewrite !run_seq. cbn [run]. rewrite (ci_space c Hc). cbn [andb].
  apply star_zero. rewrite run_lit, H2. reflexivity.
Qed.

Lemma drop_table_dangerous (q : jsstring) :
  contains_ci (units "drop table") q = true ->
  existsb (fun pattern => test pattern q) dangerousPatterns = true.
Proof.
  intros H. unfold dangerousPatterns. cbn [existsb].
  apply orb_true_iff. left. unfold test. revert H.
  apply contains_search. intros n s. apply (run_two_words "drop" "table").
Qed.

Lemma truncate_dangerous (q : jsstring) :
  contains_ci (units "truncate") q = true ->
  existsb (fun pattern => test pattern q) dangerousPatterns = true.
Proof.
  intros H. unfold dangerousPatterns. cbn [existsb].
  rewrite !orb_true_iff. right; right; left. unfold test. revert H.
  apply contains_search. intros n s Hs.
  change (lit "truncate") with (lit_units (units "truncate")).
  now rewrite run_lit_units, Hs.
Qed.

(** ** UPDATE and DELETE on one line *)

Lemma search_here (r : regex) (n : nat) (s : jsstring) :
  run r accept n s = true -> search r n s = true.
Proof. intros H. destruct s; cbn; now rewrite H. Qed.

Lemma search_app (r : regex) (pre s : jsstring) :
  forall n, run r accept (n + List.length pre) s = true ->
            search r n (pre ++ s) = true.
Proof.
  induction pre as [|c pre IH]; intros n H.
  - rewrite Nat.add_0_r in H. now apply search_here.
  - cbn [app search]. rewrite (IH (S n)); [apply orb_true_r|].
    cbn [List.length] in H. now replace (S n + List.length pre)%nat
      with (n + S (List.length pre))%nat by lia.
Qed.

Lemma prefix_ci_app_r (w s rest : jsstring) :
  prefix_ci w s = true -> prefix_ci w (s ++ rest) = true.
Proof.
  revert s. induction w as [|p w IH]; intros s H; [reflexivity|].
  destruct s as [|c s]; [discriminate|]. cbn in *.
  apply andb_true_iff in H. destruct H as [H1 H2]. now rewrite H1, IH.
Qed.

(** A word of the pattern matches the same word of the text, and goes on
    right after it. *)
Lemma run_word (w : string) (word rest : jsstring) (k : cont) (n : nat) :
  same_word w word = true ->
  run (lit w) k n (word ++ rest) = k (n + List.length word)%nat rest.
Proof.
  unfold same_word. intros H. apply andb_true_iff in H. destruct H as [Hl Hp].
  apply Nat.eqb_eq in Hl. rewrite run_lit, (prefix_ci_app_r _ _ rest Hp). cbn [andb].
  rewrite <- Hl, skipn_app, skipn_all, Nat.sub_diag. reflexivity.
Qed.

Lemma star_app (p : code_unit -> bool) (k : cont) (x s : jsstring) :
  forallb p x = true ->
  forall n, k (n + List.length x)%nat s = true -> star p k n (x ++ s) = true.
Proof.
  induction x as [|c x IH]; intros Hx n H.
  - rewrite Nat.add_0_r in H. now apply star_zero.
  - cbn in Hx. apply andb_true_iff in Hx. destruct Hx as [Hc Hx].
    cbn [app star]. rewrite Hc, (IH Hx (S n)); [reflexivity|].
    cbn [List.length] in H. now replace (S n + List.length x)%nat
      with (n + S (List.length x))%nat by lia.
Qed.

Lemma plus_blank (k : cont) (ws s : jsstring) (n : nat) :
  blank ws = true ->
  k (n + List.length ws)%nat s = true -> run (plus is_space) k n (ws ++ s) = true.
Proof.
  unfold blank. intros H Hk. apply andb_true_iff in H. destruct H as [Hn Hs].
  destruct ws as [|c ws]; [discriminate|]. cbn in Hs.
  apply andb_true_iff in Hs. destruct Hs as [Hc Hs].
  unfold plus. rewrite run_seq. cbn [app run]. rewrite Hc. cbn [andb].
  apply star_app; trivial.
  cbn [List.length] in Hk. now replace (S n + List.length ws)%nat
    with (n + S (List.length ws))%nat by lia.
Qed.

(** With no WHERE in what follows, the lookahead [(?!.*where)] lets the
    match go on. *)
Lemma no_where_lookahead (k : cont) (n : nat) (s : jsstring) :
  contains_ci (units "where") s = false ->
  run (NegLook (cat [Star dot; lit "where"])) k n s = k n s.
Proof.
  intros H. cbn [run].
  destruct (run (cat [Star dot; lit "where"]) accept n s) eqn:E; [|reflexivity].
  change (cat [Star dot; lit "where"]) with (Seq (Star dot) (Seq (lit "where") Eps)) in E.
  rewrite run_seq in E. cbn [run] in E.
  apply (star_contains dot _ (units "where")) in E; [congruence|].
  intros m t Ht. rewrite run_lit in Ht. now apply andb_true_iff in Ht.
Qed.

Lemma delete_from_dangerous (pre d ws1 f ws2 post : jsstring) :
  same_word "delete" d = true -> blank ws1 = true ->
  same_word "from" f = true -> blank ws2 = true ->
  contains_ci (units "where") post = false ->
  existsb (fun pattern => test pattern (pre ++ d ++ ws1 ++ f ++ ws2 ++ post))
          dangerousPatterns = true.
Proof.
  intros Hd H1 Hf H2 Hw. unfold dangerousPatterns. cbn [existsb].
  rewrite !orb_true_iff. right; right; right; right; left.
  unfold test. apply search_app.
  change (cat [lit "delete"; plus is_space; lit "from"; plus is_space;
               NegLook (cat [Star dot; lit "where"])])
    with (Seq (lit "delete") (Seq (plus is_space) (Seq (lit "from")
            (Seq (plus is_space) (Seq (NegLook (cat [Star dot; lit "where"])) Eps))))).
  rewrite run_seq, (run_word "delete" d _ _ _ Hd).
  rewrite run_seq. apply plus_blank; trivial.
  rewrite run_seq, (run_word "from" f _ _ _ Hf).
  rewrite run_seq. apply plus_blank; trivial.
  rewrite run_seq, no_where_lookahead; trivial.
Qed.

Lemma update_set_dangerous (pre u ws1 x s ws2 post : jsstring) :
  same_word "update" u = true -> blank ws1 = true -> one_line x = true ->
  same_word "set" s = true -> blank ws2 = true ->
  contains_ci (units "where") post = false ->
  existsb (fun pattern => test pattern (pre ++ u ++ ws1 ++ x ++ s ++ ws2 ++ post))
          dangerousPatterns = true.
Proof.
  intros Hu H1 Hx Hs H2 Hw. unfold dangerousPatterns. cbn [existsb].
  rewrite !orb_true_iff. right; right; right; right; right; left.
  unfold test. apply search_app.
  change (cat [lit "update"; plus is_space; Star dot; lit "set"; plus is_space;
               NegLook (cat [Star dot; lit "where"])])
    with (Seq (lit "update") (Seq (plus is_space) (Seq (Star dot) (Seq (lit "set")
            (Seq (plus is_space) (Seq (NegLook (cat [Star dot; lit "where"])) Eps)))))).
  rewrite run_seq, (run_word "update" u _ _ _ Hu).
  rewrite run_seq. apply plus_blank; trivial.
  rewrite run_seq. change (run (Star dot)) with (star dot). apply star_app; trivial.
  rewrite run_seq, (run_word "set" s _ _ _ Hs).
  rewrite run_seq. apply plus_blank; trivial.
  rewrite run_seq, no_where_lookahead; trivial.
Qed.

End AdminFacts.

(* ===================================================================== *)
(** * The query filter and the query endpoint: main results *)
(* ===================================================================== *)

Module AdminClaims.

Import Js Regex Admin QueryWords RegexFacts AdminFacts.
Local Open Scope string_scope.

(** C1: the filter is meant to refuse an UPDATE that has no WHERE clause
    (pattern 6 of the denylist, "UPDATE without WHERE"), and it accepts
    [update_all_rows], which contains UPDATE ... SET and no WHERE at all:
    [.] does not cross the line ends between UPDATE and SET, so the pattern
    does not match, and the WITH prefix is on the allowlist.  It also accepts
    [update_then_select], where the only WHERE belongs to another
    statement. *)
Theorem isQuerySafe_accepts_update_without_where
    (Params Result : Type) (executeQuery : jsstring -> Params -> Error + Result)
    (params : Params) :
  isQuerySafe update_all_rows = true /\
  contains_ci (units "update") update_all_rows = true /\
  contains_ci (units "set") update_all_rows = true /\
  contains_ci (units "where") update_all_rows = false /\
  isQuerySafe update_then_select = true /\
  status (post_query executeQuery update_all_rows params) <> 400%Z.
Proof.
  assert (H : isQuerySafe update_all_rows = true) by (vm_compute; reflexivity).
  repeat split; try (vm_compute; reflexivity).
  unfold post_query. rewrite H. cbn [negb].
  destruct (executeQuery update_all_rows params); discriminate.
Qed.

(** The same UPDATE on one line is refused. *)
Example update_one_line_refused :
  isQuerySafe (units "WITH x AS (SELECT 1) UPDATE users SET role = 'admin'") = false.
Proof. vm_compute. reflexivity. Qed.



(** The filter refuses every query that contains DROP TABLE or TRUNCATE, in
    any letter case. *)
Theorem isQuerySafe_refuses_drop_table_and_truncate (q : jsstring) :
  contains_ci (units "drop table") q = true \/
  contains_ci (units "truncate") q = true ->
  isQuerySafe q = false.
Proof.
  intros H. unfold isQuerySafe.
  destruct H as [H|H];
    [rewrite (drop_table_dangerous q H)|rewrite (truncate_dangerous q H)];
    reflexivity.
Qed.

Lemma isQuerySafe_refuses_drop_table_and_truncate_witness :
  isQuerySafe (units "select 1; DrOp TaBlE users") = false /\
  isQuerySafe (units "TRUNCATE users") = false.
Proof.
  split.
  - apply isQuerySafe_refuses_drop_table_and_truncate. left.
    vm_compute. reflexivity.
  - apply isQuerySafe_refuses_drop_table_and_truncate. right.
    vm_compute. reflexivity.
Defined.

(** The filter refuses a query that contains DELETE FROM, or UPDATE ... SET
    with no line end between the two words, when no WHERE follows; the words
    may be in any letter case and apart by any white space. *)
Theorem isQuerySafe_refuses_one_line_statement_without_where
    (pre w1 ws1 x w2 ws2 post : jsstring) :
  blank ws1 = true -> blank ws2 = true ->
  contains_ci (units "where") post = false ->
  (same_word "delete" w1 = true -> same_word "from" w2 = true ->
   isQuerySafe (pre ++ w1 ++ ws1 ++ w2 ++ ws2 ++ post)%list = false) /\
  (same_word "update" w1 = true -> one_line x = true -> same_word "set" w2 = true ->
   isQuerySafe (pre ++ w1 ++ ws1 ++ x ++ w2 ++ ws2 ++ post)%list = false).
Proof.
  intros H1 H2 Hw. split.
  - intros Hd Hf. unfold isQuerySafe.
    now rewrite (delete_from_dangerous pre w1 ws1 w2 ws2 post).
  - intros Hu Hx Hs. unfold isQuerySafe.
    now rewrite (update_set_dangerous pre w1 ws1 x w2 ws2 post).
Qed.

Lemma isQuerySafe_refuses_one_line_statement_without_where_witness :
  isQuerySafe (units "select 1; " ++ units "Delete" ++ units " " ++ units "From"
               ++ units " " ++ units "books")%list = false /\
  isQuerySafe (units "WITH x AS (SELECT 1) " ++ units "UPDATE" ++ units " "
               ++ units "books " ++ units "SET" ++ units " "
               ++ units "visibility = false")%list
  = false.
Proof.
  split.
  - apply (proj1 (isQuerySafe_refuses_one_line_statement_without_where
                    (units "select 1; ") (units "Delete") (units " ") []
                    (units "From") (units " ") (units "books")
                    eq_refl eq_refl eq_refl)); reflexivity.
  - apply (proj2 (isQuerySafe_refuses_one_line_statement_without_where
                    (units "WITH x AS (SELECT 1) ") (units "UPDATE") (units " ")
                    (units "books ") (units "SET") (units " ")
                    (units "visibility = false")
                    eq_refl eq_refl eq_refl)); reflexivity.
Defined.

(** The filter accepts every query that begins with SELECT and contains
    none of the words DROP, TRUNCATE, ALTER, DELETE and UPDATE. *)
Theorem isQuerySafe_accepts_plain_select (q : jsstring) :
  begins_ci "select" q = true ->
  contains_ci (units "drop") q = false ->
  contains_ci (units "truncate") q = false ->
  contains_ci (units "alter") q = false ->
  contains_ci (units "delete") q = false ->
  contains_ci (units "update") q = false ->
  isQuerySafe q = true.
Proof.
  intros Hsel H1 H2 H3 H4 H5. unfold isQuerySafe.
  destruct (existsb _ dangerousPatterns) eqn:E.
  - apply dangerous_sound in E. destruct E as [E|[E|[E|[E|E]]]]; congruence.
  - unfold allowedPatterns. cbn [existsb].
    now rewrite (begins_test "select" q Hsel).
Qed.

Lemma isQuerySafe_accepts_plain_select_witness :
  isQuerySafe (units "SELECT name, rating FROM books") = true.
Proof.
  apply isQuerySafe_accepts_plain_select; vm_compute; reflexivity.
Defined.

(** POST /api/database/query answers 400 exactly when the filter returns
    false; the query is handed to the database otherwise. *)
Theorem post_query_400_iff_unsafe
  (Params Result : Type) (executeQuery : jsstring -> Params -> Error + Result)
  (query : jsstring) (params : Params) :
  status (post_query executeQuery query params) = 400%Z <->
  isQuerySafe query = false.
Proof.
  unfold post_query. destruct (isQuerySafe query); cbn.
  - destruct (executeQuery query params); cbn; split; discriminate.
  - split; reflexivity.
Qed.

End AdminClaims.

(* ===================================================================== *)
(** * Facts about the second matcher *)
(* ===================================================================== *)

Module RegexpFacts.

Import Js Regexp QueryWords RegexFacts AdminFacts.

(** ** The two matchers agree *)

Lemma star_ext (p : code_unit -> bool) (k1 k2 : Regex.cont) :
  (forall n s, k1 n s = k2 n s) ->
  forall n s, Regex.star p k1 n s = Regex.star p k2 n s.
Proof.
  intros H n s. revert n. induction s as [|c s IH]; intros n; cbn.
  - apply H.
  - now rewrite IH, H.
Qed.

Lemma run_ext (r : Regex.regex) :
  forall (k1 k2 : Regex.cont), (forall n s, k1 n s = k2 n s) ->
  forall n s, Regex.run r k1 n s = Regex.run r k2 n s.
Proof.
  induction r as [| |p|p|a IHa b IHb|a IHa]; intros k1 k2 H n s; cbn.
  - apply H.
  - now rewrite H.
  - destruct s; [reflexivity|]. now rewrite H.
  - now apply star_ext.
  - apply IHa. intros n' s'. now apply IHb.
  - now rewrite H.
Qed.

Lemma exec_embed (r : Regex.regex) :
  forall (k : Regex.cont) n s, exec (embed r) k n s = Regex.run r k n s.
Proof.
  induction r as [| |p|p|a IHa b IHb|a IHa]; intros k n s; cbn; trivial.
  - rewrite IHa. apply run_ext. intros n' s'. apply IHb.
  - now rewrite IHa.
Qed.

Lemma test_embed (r : Regex.regex) (s : jsstring) :
  test (embed r) s = Regex.test r s.
Proof.
  unfold test, Regex.test. generalize 0%nat.
  induction s as [|c s IH]; intros n; cbn; rewrite exec_embed; [reflexivity|].
  now rewrite IH.
Qed.

(** ** Anchors *)

Lemma search_bol_after (r : re) (n : nat) (s : jsstring) :
  search (Seq Bol r) (S n) s = false.
Proof. revert n. induction s as [|c s IH]; intros n; cbn; [reflexivity|apply IH]. Qed.

Lemma test_anchored (r : re) (s : jsstring) :
  test (Seq Bol r) s = exec r Regex.accept 0 s.
Proof.
  unfold test. destruct s as [|c s]; cbn.
  - apply orb_false_r.
  - now rewrite search_bol_after, orb_false_r.
Qed.

Lemma exec_eol (n : nat) (s : jsstring) :
  exec (Seq Eol Eps) Regex.accept n s = at_end n s.
Proof. destruct s; reflexivity. Qed.

(** ** Repetition of a class *)

Lemma star_sound (p : code_unit -> bool) (k : Regex.cont) :
  forall n s, Regex.star p k n s = true ->
  exists x rest, s = (x ++ rest)%list /\ forallb p x = true /\
                 k (n + List.length x)%nat rest = true.
Proof.
  intros n s. revert n. induction s as [|c s IH]; intros n H; cbn in H.
  - exists [], []. cbn. now rewrite Nat.add_0_r.
  - apply orb_true_iff in H. destruct H as [H|H].
    + apply andb_true_iff in H. destruct H as [Hc H].
      destruct (IH _ H) as [x [rest [E [Hx Hk]]]].
      exists (c :: x), rest. cbn. rewrite Hc, Hx, E. repeat split.
      now replace (n + S (List.length x))%nat with (S n + List.length x)%nat by lia.
    + exists [], (c :: s). cbn. now rewrite Nat.add_0_r.
Qed.

Lemma atleast_sound (m : nat) (p : code_unit -> bool) (k : Regex.cont) :
  forall n s, atleast m p k n s = true ->
  exists x rest, s = (x ++ rest)%list /\ forallb p x = true /\
                 (m <= List.length x)%nat /\ k (n + List.length x)%nat rest = true.
Proof.
  induction m as [|m IH]; intros n s H; cbn in H.
  - destruct (star_sound p k n s H) as [x [rest [E [Hx Hk]]]].
    exists x, rest. repeat split; trivial. lia.
  - destruct s as [|c s]; [discriminate|].
    apply andb_true_iff in H. destruct H as [Hc H].
    destruct (IH _ _ H) as [x [rest [E [Hx [Hm Hk]]]]].
    exists (c :: x), rest. cbn. rewrite Hc, Hx, E. repeat split; [lia|].
    now replace (n + S (List.length x))%nat with (S n + List.length x)%nat by lia.
Qed.

Lemma atleast_complete (m : nat) (p : code_unit -> bool) (k : Regex.cont) :
  forall (x rest : jsstring) n,
    forallb p x = true -> (m <= List.length x)%nat ->
    k (n + List.length x)%nat rest = true ->
    atleast m p k n (x ++ rest) = true.
Proof.
  induction m as [|m IH]; intros x rest n Hx Hm Hk.
  - cbn. now apply star_app.
  - destruct x as [|c x]; [cbn in Hm; lia|]. cbn in Hx.
    apply andb_true_iff in Hx. destruct Hx as [Hc Hx].
    cbn [app atleast]. rewrite Hc. cbn [andb]. apply IH; trivial.
    + cbn in Hm. lia.
    + cbn [List.length] in Hk.
      now replace (S n + List.length x)%nat with (n + S (List.length x))%nat by lia.
Qed.

(** Up to the end of the input, [p{m,}] asks for [m] code units or more,
    all of the class. *)
Lemma star_to_end (p : code_unit -> bool) (n : nat) (s : jsstring) :
  Regex.star p at_end n s = forallb p s.
Proof.
  revert n. induction s as [|c s IH]; intros n; cbn; [reflexivity|].
  now rewrite IH, orb_false_r.
Qed.

Lemma atleast_to_end (m : nat) (p : code_unit -> bool) :
  forall n s, atleast m p at_end n s = (m <=? List.length s)%nat && forallb p s.
Proof.
  induction m as [|m IH]; intros n s; cbn [atleast].
  - now rewrite star_to_end.
  - destruct s as [|c s]; [reflexivity|]. cbn [List.length forallb].
    rewrite IH. cbn [Nat.leb]. now rewrite andb_assoc, (andb_comm (p c)), <- andb_assoc.
Qed.

(** On one line, [.*] followed by a class looks for the class anywhere. *)
Lemma star_dot_finds (q : code_unit -> bool) (n : nat) (s : jsstring) :
  forallb dot s = true ->
  Regex.star dot (exec (Seq (Chr q) Eps) Regex.accept) n s = existsb q s.
Proof.
  revert n. induction s as [|c s IH]; intros n H; cbn; [reflexivity|].
  cbn in H. apply andb_true_iff in H. destruct H as [Hc H].
  rewrite Hc, (IH _ H). cbn. now rewrite andb_true_r, orb_comm.
Qed.

(** ** Words *)

Lemma exec_word (w : string) (k : Regex.cont) (n : nat) (s : jsstring) :
  exec (word w) k n s
  = prefix_ci (units w) s
    && k (n + List.length (units w))%nat (skipn (List.length (units w)) s).
Proof.
  unfold word. generalize (units w) as u. intros u. revert n s.
  induction u as [|p u IH]; intros n s.
  - cbn. now rewrite Nat.add_0_r.
  - destruct s as [|c s]; [reflexivity|].
    cbn [List.length skipn prefix_ci map cat fold_right exec].
    fold (cat (map (fun p => Chr (ci p)) u)).
    rewrite IH, andb_assoc.
    now replace (S n + List.length u)%nat with (n + S (List.length u))%nat by lia.
Qed.

Lemma exec_same_word (w : string) (text rest : jsstring) (k : Regex.cont) (n : nat) :
  same_word w text = true ->
  exec (word w) k n (text ++ rest) = k (n + List.length text)%nat rest.
Proof.
  unfold same_word. intros H. apply andb_true_iff in H. destruct H as [Hl Hp].
  apply Nat.eqb_eq in Hl.
  rewrite exec_word, (prefix_ci_app_r _ _ rest Hp). cbn [andb].
  rewrite <- Hl, skipn_app, skipn_all, Nat.sub_diag. reflexivity.
Qed.

Lemma search_at (r : re) (pre s : jsstring) :
  forall n, exec r Regex.accept (n + List.length pre) s = true ->
            search r n (pre ++ s) = true.
Proof.
  induction pre as [|c pre IH]; intros n H.
  - rewrite Nat.add_0_r in H. destruct s; cbn; now rewrite H.
  - cbn [app search]. rewrite (IH (S n)); [apply orb_true_r|].
    cbn [List.length] in H.
    now replace (S n + List.length pre)%nat with (n + S (List.length pre))%nat by lia.
Qed.

End RegexpFacts.

(* ===================================================================== *)
(** * The security manager: validators and the query filter *)
(* ===================================================================== *)

Module SecurityProps.

Import Js Regexp QueryWords RegexFacts AdminFacts RegexpFacts Security.
Local Open Scope N_scope.

(** ** validatePassword *)

Lemma password_char_on_line (c : code_unit) :
  password_char c = true -> dot c = true.
Proof.
  unfold password_char, is_letter, is_upper, is_lower, is_digit, dot, is_line_terminator.
  rewrite ?orb_true_iff, ?andb_true_iff, ?N.eqb_eq, ?N.leb_le, negb_true_iff,
    ?orb_false_iff, ?N.eqb_neq. lia.
Qed.

Lemma password_on_line (s : jsstring) :
  forallb password_char s = true -> forallb dot s = true.
Proof.
  induction s as [|c s IH]; [reflexivity|]. cbn. intros H.
  apply andb_true_iff in H. destruct H as [Hc H].
  now rewrite (password_char_on_line c Hc), IH.
Qed.

(** [validatePassword] accepts exactly the strings of 8 code units or more,
    all of them letters, digits or one of [@$!%*#?&], with a letter and a
    digit among them. *)
Theorem validatePassword_exact (password : jsstring) :
  validatePassword password = strong_password password.
Proof.
  unfold validatePassword, strong_password, passwordRegex.
  change (cat [Bol; Look (cat [AtLeast 0 dot; Chr is_letter]);
               Look (cat [AtLeast 0 dot; Chr is_digit]);
               AtLeast 8 password_char; Eol])
    with (Seq Bol (Seq (Look (Seq (AtLeast 0 dot) (Seq (Chr is_letter) Eps)))
            (Seq (Look (Seq (AtLeast 0 dot) (Seq (Chr is_digit) Eps)))
               (Seq (AtLeast 8 password_char) (Seq Eol Eps))))).
  rewrite test_anchored.
  change (exec (Seq ?a ?b) ?k) with (exec a (exec b k)).
  cbn [exec].
  change (fun (n : nat) (s : jsstring) =>
            match s with [] => true | _ :: _ => false end) with at_end.
  rewrite (atleast_to_end 8 password_char).
  destruct (forallb password_char password) eqn:Hall.
  - pose proof (password_on_line password Hall) as Hline.
    change (fun (n : nat) (s : jsstring) =>
              match s with
              | [] => false
              | c :: s' => is_letter c && Regex.accept (S n) s'
              end) with (exec (Seq (Chr is_letter) Eps) Regex.accept).
    change (fun (n : nat) (s : jsstring) =>
              match s with
              | [] => false
              | c :: s' => is_digit c && Regex.accept (S n) s'
              end) with (exec (Seq (Chr is_digit) Eps) Regex.accept).
    cbn [atleast]. rewrite !star_dot_finds; trivial.
    destruct (existsb is_letter password), (existsb is_digit password),
      (8 <=? List.length password)%nat; reflexivity.
  - rewrite !andb_false_r. reflexivity.
Qed.

(** ** validateEmail *)

Lemma emailRegex_exec (s : jsstring) :
  validateEmail s
  = atleast 1 address_char
      (exec (Chr (N.eqb 64))
         (atleast 1 address_char
            (exec (Chr (N.eqb 46)) (atleast 1 address_char at_end))))
      0 s.
Proof.
  unfold validateEmail, emailRegex.
  change (cat [Bol; AtLeast 1 address_char; exact "@"; AtLeast 1 address_char;
               exact "."; AtLeast 1 address_char; Eol])
    with (Seq Bol (Seq (AtLeast 1 address_char) (Seq (Seq (Chr (N.eqb 64)) Eps)
            (Seq (AtLeast 1 address_char) (Seq (Seq (Chr (N.eqb 46)) Eps)
               (Seq (AtLeast 1 address_char) (Seq Eol Eps))))))).
  rewrite test_anchored. reflexivity.
Qed.

Lemma nonempty_length (x : jsstring) : x <> [] <-> (1 <= List.length x)%nat.
Proof. destruct x; cbn; split; intros H; try congruence; lia. Qed.

Lemma emailRegex_shape (email : jsstring) :
  validateEmail email = true <-> address_shape email.
Proof.
  rewrite emailRegex_exec. unfold address_shape. split.
  - intros H.
    apply atleast_sound in H. destruct H as [l [r1 [E1 [Hl [Nl H]]]]].
    destruct r1 as [|c1 r1]; [discriminate|]. cbn [exec] in H.
    apply andb_true_iff in H. destruct H as [Hc1 H]. apply N.eqb_eq in Hc1.
    apply atleast_sound in H. destruct H as [d [r2 [E2 [Hd [Nd H]]]]].
    destruct r2 as [|c2 r2]; [discriminate|]. cbn [exec] in H.
    apply andb_true_iff in H. destruct H as [Hc2 H]. apply N.eqb_eq in Hc2.
    apply atleast_sound in H. destruct H as [t [r3 [E3 [Ht [Nt H]]]]].
    destruct r3; [|discriminate].
    exists l, d, t. subst. rewrite app_nil_r.
    repeat split; trivial; now apply nonempty_length.
  - intros [l [d [t [E [Nl [Nd [Nt [Hl [Hd Ht]]]]]]]]]. subst email.
    apply nonempty_length in Nl, Nd, Nt.
    apply atleast_complete; trivial. cbn [exec]. rewrite N.eqb_refl. cbn [andb].
    apply atleast_complete; trivial. cbn [exec]. rewrite N.eqb_refl. cbn [andb].
    rewrite <- (app_nil_r t). apply atleast_complete; trivial.
Qed.

Lemma address_chars_no_at (x : list N) :
  forallb address_char x = true -> count_occ N.eq_dec x 64 = 0%nat.
Proof.
  induction x as [|c x IH]; [reflexivity|]. cbn [forallb]. intros Hx.
  apply andb_true_iff in Hx. destruct Hx as [Hc Hx]. cbn [count_occ].
  destruct (N.eq_dec c 64) as [->|_]; [discriminate|]. now apply IH.
Qed.

Lemma address_chars_no_blank (x : list N) :
  forallb address_char x = true -> existsb is_space x = false.
Proof.
  induction x as [|c x IH]; [reflexivity|]. cbn [forallb existsb]. intros Hx.
  apply andb_true_iff in Hx. destruct Hx as [Hc Hx]. rewrite (IH Hx).
  unfold address_char in Hc. apply negb_true_iff, orb_false_iff in Hc.
  now rewrite (proj1 Hc).
Qed.

(** [validateEmail] accepts exactly the strings of the shape
    [local@domain.tail] whose three parts are not empty and hold no white
    space and no at sign; an accepted address therefore has one at sign and
    no white space. *)
Theorem validateEmail_exact (email : jsstring) :
  (validateEmail email = true <-> address_shape email) /\
  (validateEmail email = true ->
   count_occ N.eq_dec email 64 = 1%nat /\ existsb is_space email = false).
Proof.
  split; [apply emailRegex_shape|].
  intros H. apply emailRegex_shape in H.
  destruct H as [l [d [t [E [_ [_ [_ [Hl [Hd Ht]]]]]]]]]. subst email. split.
  - rewrite count_occ_app, count_occ_cons_eq, count_occ_app by reflexivity.
    rewrite count_occ_cons_neq by discriminate.
    change code_unit with N.
    rewrite (address_chars_no_at l Hl), (address_chars_no_at d Hd),
      (address_chars_no_at t Ht). reflexivity.
  - rewrite existsb_app. cbn [existsb]. rewrite existsb_app. cbn [existsb].
    now rewrite (address_chars_no_blank l Hl), (address_chars_no_blank d Hd),
      (address_chars_no_blank t Ht).
Qed.

Lemma validateEmail_exact_witness :
  address_shape (units "chihiro@bathhouse.example") /\
  count_occ N.eq_dec (units "chihiro@bathhouse.example") 64 = 1%nat /\
  existsb is_space (units "chihiro@bathhouse.example") = false.
Proof.
  split.
  - apply (proj1 (validateEmail_exact (units "chihiro@bathhouse.example"))).
    vm_compute. reflexivity.
  - apply (proj2 (validateEmail_exact (units "chihiro@bathhouse.example"))).
    vm_compute. reflexivity.
Defined.

(** ** sanitizeInput *)

Lemma trim_start_suffix (s : jsstring) :
  exists dropped, s = (dropped ++ trim_start s)%list.
Proof.
  induction s as [|c s [dropped IH]]; [now exists []|]. cbn.
  destruct (is_space c).
  - exists (c :: dropped). cbn. now rewrite <- IH.
  - now exists [].
Qed.

Lemma trim_start_head (s : jsstring) :
  match trim_start s with
  | c :: _ => is_space c = false
  | [] => True
  end.
Proof.
  induction s as [|c s IH]; [exact I|]. cbn.
  destruct (is_space c) eqn:E; [exact IH|exact E].
Qed.

(** Taking white space off the front stops at a character that is not white
    space and keeps what follows it. *)
Lemma trim_start_keeps (x y : jsstring) (c : code_unit) :
  is_space c = false ->
  exists z, trim_start (x ++ c :: y) = (z ++ c :: y)%list.
Proof.
  intros Hc. induction x as [|a x [z IH]].
  - exists []. cbn. now rewrite Hc.
  - cbn. destruct (is_space a); [now exists z|now exists (a :: x)].
Qed.

Lemma trim_sublist (s : jsstring) (p : code_unit -> bool) :
  forallb p s = true -> forallb p (trim s) = true.
Proof.
  intros H. unfold trim.
  destruct (trim_start_suffix s) as [d1 E1].
  destruct (trim_start_suffix (rev (trim_start s))) as [d2 E2].
  rewrite E1, forallb_app in H. apply andb_true_iff in H. destruct H as [_ H].
  rewrite <- (rev_involutive (trim_start s)), E2, rev_app_distr, forallb_app in H.
  now apply andb_true_iff in H.
Qed.

Lemma trim_head (s : jsstring) :
  match trim s with
  | c :: _ => is_space c = false
  | [] => True
  end.
Proof.
  unfold trim. pose proof (trim_start_head s) as H.
  destruct (trim_start s) as [|c u]; [exact I|].
  cbn [rev]. destruct (trim_start_keeps (rev u) [] c H) as [z E].
  rewrite E, rev_app_distr. cbn. exact H.
Qed.

Lemma firstn_forallb {A : Type} (p : A -> bool) (n : nat) (l : list A) :
  forallb p l = true -> forallb p (firstn n l) = true.
Proof.
  intros H. rewrite <- (firstn_skipn n l), forallb_app in H.
  now apply andb_true_iff in H.
Qed.

(** What [sanitizeInput] returns for a string holds no angle bracket, has at
    most 1000 code units and does not start with white space; a value that
    is not a string comes back as it is. *)
Theorem sanitizeInput_output (A : Type) (v : input A) :
  match v, sanitizeInput v with
  | Text _, Text r =>
      existsb angle r = false /\ (List.length r <= 1000)%nat /\
      match r with
      | c :: _ => is_space c = false
      | [] => True
      end
  | NotText a, NotText b => a = b
  | _, _ => False
  end.
Proof.
  destruct v as [s|a]; [|reflexivity]. cbn [sanitizeInput].
  set (clean := filter (fun c => negb (angle c)) s).
  assert (Hclean : forallb (fun c => negb (angle c)) clean = true).
  { apply forallb_forall. intros c Hc. now apply filter_In in Hc. }
  repeat split.
  - pose proof (firstn_forallb _ 1000 _ (trim_sublist clean _ Hclean)) as H.
    revert H. generalize (firstn 1000 (trim clean)). intros r H.
    induction r as [|c r IH]; [reflexivity|]. cbn in *.
    apply andb_true_iff in H. destruct H as [Hc H].
    apply negb_true_iff in Hc. now rewrite Hc, IH.
  - apply firstn_le_length.
  - pose proof (trim_head clean) as H. destruct (trim clean); [exact I|exact H].
Qed.

(** The cut at 1000 comes after the trim: white space can be left at the
    end, and a second pass then returns a shorter string. *)
Example sanitizeInput_not_idempotent :
  let s := (repeat 97 999 ++ units " b")%list in
  sanitizeInput (A := unit) (Text s) = Text (repeat 97 999 ++ [32])%list /\
  sanitizeInput (sanitizeInput (A := unit) (Text s)) = Text (repeat 97 999).
Proof. cbv zeta. split; vm_compute; reflexivity. Qed.

(** ** isQuerySafe *)

Lemma test_same (a b : re) :
  (forall n s, exec a Regex.accept n s = exec b Regex.accept n s) ->
  forall q, test a q = test b q.
Proof.
  intros H q. unfold test. generalize 0%nat.
  induction q as [|c q IH]; intros n; cbn; rewrite H; [reflexivity|].
  now rewrite IH.
Qed.

(** The first six patterns of the denylist are those of the admin server. *)
Lemma shared_patterns (q : jsstring) :
  map (fun pattern => test pattern q) (firstn 6 dangerousPatterns)
  = map (fun pattern => Regex.test pattern q) Admin.dangerousPatterns.
Proof.
  unfold dangerousPatterns, Admin.dangerousPatterns. cbn [firstn map].
  repeat f_equal; rewrite <- test_embed; apply test_same; reflexivity.
Qed.

Lemma existsb_of_map (A B : Type) (f : A -> B) (g : B -> bool) (l : list A) :
  existsb g (map f l) = existsb (fun x => g (f x)) l.
Proof.
  induction l as [|a l IH]; [reflexivity|]. cbn. now rewrite IH.
Qed.

Lemma admin_denylist_passes (q : jsstring) :
  isQuerySafe q = true ->
  existsb (fun pattern => Regex.test pattern q) Admin.dangerousPatterns = false.
Proof.
  unfold isQuerySafe. intros H. apply negb_true_iff in H.
  rewrite <- (firstn_skipn 6 dangerousPatterns), existsb_app in H.
  apply orb_false_iff in H. destruct H as [H _].
  assert (E : existsb (fun b => b)
                (map (fun pattern => test pattern q) (firstn 6 dangerousPatterns)) = false).
  { rewrite existsb_of_map. exact H. }
  rewrite shared_patterns, existsb_of_map in E. exact E.
Qed.

(** A query that the security manager's filter accepts matches no pattern
    of the admin server's denylist: the admin server's filter then decides
    by its allowlist alone. *)
Theorem security_filter_is_stricter (q : jsstring) :
  isQuerySafe q = true ->
  Admin.isQuerySafe q
  = existsb (fun pattern => Regex.test pattern q) Admin.allowedPatterns.
Proof.
  intros H. unfold Admin.isQuerySafe. now rewrite (admin_denylist_passes q H).
Qed.

Lemma security_filter_is_stricter_witness :
  Admin.isQuerySafe (units "GRANT ALL ON books TO guest")
  = existsb (fun pattern => Regex.test pattern (units "GRANT ALL ON books TO guest"))
            Admin.allowedPatterns.
Proof.
  apply security_filter_is_stricter. vm_compute. reflexivity.
Defined.

Lemma exec_keyword (kw post : jsstring) (n : nat) :
  stacked_keyword kw = true ->
  exec (alt [word "drop"; word "delete"; word "update"; word "insert";
             word "create"; word "alter"]) Regex.accept n (kw ++ post) = true.
Proof.
  unfold stacked_keyword. rewrite !orb_true_iff. cbn [alt exec].
  intros [[[[[H|H]|H]|H]|H]|H];
    rewrite (exec_same_word _ kw post Regex.accept n H);
    unfold Regex.accept; rewrite ?orb_true_r; reflexivity.
Qed.

(** The filter refuses every query in which a semicolon is followed, after
    optional white space, by DROP, DELETE, UPDATE, INSERT, CREATE or ALTER
    in any letter case: a second statement of these kinds cannot ride on a
    first one. *)
Theorem security_filter_refuses_stacked_statement (pre ws kw post : jsstring) :
  forallb is_space ws = true ->
  stacked_keyword kw = true ->
  isQuerySafe (pre ++ 59 :: ws ++ kw ++ post) = false.
Proof.
  intros Hws Hkw. unfold isQuerySafe. apply negb_false_iff.
  rewrite <- (firstn_skipn 10 dangerousPatterns), existsb_app.
  apply orb_true_iff. right. unfold dangerousPatterns. cbn [skipn existsb].
  apply orb_true_iff. left. unfold test. apply search_at.
  change (cat [word ";"; AtLeast 0 is_space;
               alt [word "drop"; word "delete"; word "update"; word "insert";
                    word "create"; word "alter"]])
    with (Seq (word ";") (Seq (AtLeast 0 is_space)
            (Seq (alt [word "drop"; word "delete"; word "update"; word "insert";
                       word "create"; word "alter"]) Eps))).
  change (59 :: ws ++ kw ++ post)%list with ([59] ++ ws ++ kw ++ post)%list.
  change (exec (Seq ?a ?b) ?k) with (exec a (exec b k)).
  rewrite (exec_same_word ";" [59]) by reflexivity.
  change (exec (AtLeast 0 is_space) ?k) with (atleast 0 is_space k).
  apply atleast_complete; [exact Hws|lia|].
  change (exec (Seq ?a ?b) ?k) with (exec a (exec b k)).
  change (exec Eps Regex.accept) with Regex.accept.
  now apply exec_keyword.
Qed.

Lemma security_filter_refuses_stacked_statement_witness :
  isQuerySafe (units "select 1" ++ 59 :: units "  " ++ units "Insert"
               ++ units " into users values (1)") = false.
Proof.
  apply security_filter_refuses_stacked_statement; reflexivity.
Defined.

(** The filter has no allowlist and looks for UPDATE ... SET on one line
    only: it accepts a GRANT, and the three-line UPDATE without WHERE that
    the admin server's filter accepts. *)
Example security_filter_accepts :
  isQuerySafe (units "GRANT ALL ON books TO guest") = true /\
  isQuerySafe update_all_rows = true.
Proof. split; vm_compute; reflexivity. Qed.

End SecurityProps.
(* ===================================================================== *)
(** * Properties of the security middleware *)
(* ===================================================================== *)

Module MiddlewareProps.

Import Js Eff Middleware.
Local Open Scope string_scope.
Local Open Scope list_scope.

Lemma split_nonempty (sep : code_unit) (s : jsstring) : split sep s <> [].
Proof.
  destruct s as [|c s]; cbn; [discriminate|].
  destruct (N.eqb c sep); [discriminate|].
  destruct (split sep s); discriminate.
Qed.

Lemma split_unbroken (t : jsstring) : unbroken t = true -> split 32%N t = [t].
Proof.
  induction t as [|c t IH]; [reflexivity|]. cbn.
  intros H. apply andb_true_iff in H. destruct H as [Hc Ht].
  apply negb_true_iff in Hc. rewrite Hc, (IH Ht). reflexivity.
Qed.

Lemma split_app (a s : jsstring) :
  unbroken a = true -> split 32%N (a ++ 32%N :: s) = (a :: split 32%N s)%list.
Proof.
  induction a as [|c a IH]; [reflexivity|]. cbn.
  intros H. apply andb_true_iff in H. destruct H as [Hc Ha].
  apply negb_true_iff in Hc. rewrite Hc, (IH Ha). reflexivity.
Qed.

(** The word before the first blank is not looked at; the token is what
    stands between the first blank and the second. *)
Lemma token_of_second (scheme t : jsstring) :
  unbroken scheme = true -> unbroken t = true ->
  token_of (Some (scheme ++ 32%N :: t)%list)
  = match t with [] => None | _ => Some t end.
Proof.
  intros Hs Ht. unfold token_of.
  destruct (scheme ++ 32%N :: t) as [|c h] eqn:A; [destruct scheme; discriminate|].
  rewrite <- A, (split_app _ _ Hs), (split_unbroken _ Ht). cbn.
  destruct t; reflexivity.
Qed.

Section Manager.

Variable jwt_verify : jsstring -> JwtError + user.

Lemma verifyToken_cases (token : jsstring) (log : Log) :
  match verifyToken jwt_verify token log with
  | Return decoded log' => jwt_verify token = inr decoded /\ log' = log
  | Throw error log' =>
      In (message error) refusal /\
      exists e, jwt_verify token = inl e /\
                (log' = log \/ log' = (log ++ [ErrorVerifying e])%list)
  | Exit _ _ => False
  end.
Proof.
  unfold verifyToken. destruct (jwt_verify token) as [e|decoded]; [|now split].
  destruct (String.eqb (name e) "JsonWebTokenError").
  { cbn. split; [now left|]. exists e. now split; [|left]. }
  destruct (String.eqb (name e) "TokenExpiredError").
  { cbn. split; [now right; left|]. exists e. now split; [|left]. }
  cbn. split; [now right; right; left|]. exists e. now split; [|right].
Qed.

Lemma authenticateToken_cases (req : Request) (log : Log) :
  exists r log',
    authenticateToken jwt_verify req log = Return r log' /\
    match r with
    | Next req' =>
        log' = log /\
        exists token decoded,
          token_of (authorization req) = Some token /\
          jwt_verify token = inr decoded /\
          req' = mkRequest (authorization req) (ip req) (Some decoded)
    | Respond _ _ =>
        token_of (authorization req) = None \/
        exists token e,
          token_of (authorization req) = Some token /\ jwt_verify token = inl e
    end.
Proof.
  unfold authenticateToken.
  destruct (token_of (authorization req)) as [token|] eqn:T.
  2:{ eexists _, _. split; [reflexivity|]. now left. }
  unfold try_catch, bind, verifyToken.
  destruct (jwt_verify token) as [e|decoded] eqn:V.
  - destruct (String.eqb (name e) "JsonWebTokenError");
      [|destruct (String.eqb (name e) "TokenExpiredError")];
      cbn; eexists _, _; (split; [reflexivity|]); right; now exists token, e.
  - cbn. eexists _, _. split; [reflexivity|]. split; [reflexivity|].
    now exists token, decoded.
Qed.

(** [authenticateToken] never throws.  It hands the request on
    only with a token that [jwt.verify] accepted, with the decoded payload
    as [req.user] and nothing logged; it answers 401 only when the header
    holds no token, and otherwise 403 with one of three fixed messages,
    never the message of the library's error, after logging the failure. *)
Theorem authenticateToken_answers (req : Request) (log : Log) :
  exists r log',
    authenticateToken jwt_verify req log = Return r log' /\
    match r with
    | Next req' =>
        log' = log /\
        exists token decoded,
          token_of (authorization req) = Some token /\
          jwt_verify token = inr decoded /\
          req' = mkRequest (authorization req) (ip req) (Some decoded)
    | Respond status error =>
        (status = 401%Z /\ error = "Access token is required" /\ log' = log /\
         token_of (authorization req) = None)
        \/
        (status = 403%Z /\ In error refusal /\
         exists token e,
           token_of (authorization req) = Some token /\
           jwt_verify token = inl e /\
           (log' = (log ++ [AuthenticationFailed error (ip req)])%list \/
            log' = (log ++ [ErrorVerifying e] ++ [AuthenticationFailed error (ip req)])%list))
    end.
Proof.
  unfold authenticateToken.
  destruct (token_of (authorization req)) as [token|] eqn:T.
  2:{ eexists _, _. split; [reflexivity|]. left. now repeat split. }
  unfold try_catch, bind.
  pose proof (verifyToken_cases token log) as V.
  destruct (verifyToken jwt_verify token log) as [decoded log'|error log'|code log'].
  - destruct V as [V ->]. eexists _, _. split; [reflexivity|]. cbn.
    split; [reflexivity|]. now exists token, decoded.
  - destruct V as [Hm [e [V Hlog]]]. eexists _, _. split; [reflexivity|]. cbn.
    right. split; [reflexivity|]. split; [exact Hm|]. exists token, e.
    split; [reflexivity|]. split; [exact V|].
    destruct Hlog as [->| ->]; [now left|right]. now rewrite <- app_assoc.
  - destruct V.
Qed.

(** [authorizeRoles(...roles)] hands the request on exactly when
    [req.user] is a payload whose [role] is a string among [roles]; it then
    leaves the request and the log as they are.  With no role listed nobody
    passes. *)
Theorem authorizeRoles_passes_iff (roles : list string) (req : Request) (log : Log) :
  (passes (authorizeRoles roles req log) = true <->
   exists id s, req_user req = Some (Claims id (Str s)) /\ In s roles) /\
  (passes (authorizeRoles roles req log) = true ->
   authorizeRoles roles req log = Return (Next req) log) /\
  passes (authorizeRoles [] req log) = false.
Proof.
  assert (I : forall s, existsb (String.eqb s) roles = true <-> In s roles).
  { intros s. rewrite existsb_exists. split.
    - intros [x [Hx E]]. apply String.eqb_eq in E. now subst.
    - intros H. exists s. split; [exact H|apply String.eqb_refl]. }
  unfold authorizeRoles.
  destruct (req_user req) as [[id [|s|]|[|c p]]|] eqn:U; cbn.
  all: try (split; [split; [discriminate|intros [? [? [? ?]]]; discriminate]|];
            split; [discriminate|reflexivity]).
  destruct (existsb (String.eqb s) roles) eqn:E; cbn.
  - split; [|now split]. split; [|reflexivity]. intros _. exists id, s.
    split; [reflexivity|]. now apply I.
  - split; [|split; [discriminate|reflexivity]].
    split; [discriminate|]. intros [id' [s' [X H]]]. injection X as -> ->.
    apply I in H. congruence.
Qed.

Lemma admin_chain_general (req : Request) (log : Log) :
  passes (chain (authenticateToken jwt_verify) requireAdmin req log) = true <->
  exists token id,
    token_of (authorization req) = Some token /\
    jwt_verify token = inr (Claims id (Str "admin")).
Proof.
  unfold chain, bind.
  destruct (authenticateToken_cases req log) as [r [log' [E R]]]. rewrite E.
  destruct r as [status error|req'].
  - cbn. split; [discriminate|]. intros [token [id [T V]]].
    destruct R as [N|[token' [e [T' V']]]]; congruence.
  - destruct R as [-> [token [decoded [T [V ->]]]]].
    unfold requireAdmin, authorizeRoles. cbn [req_user].
    destruct decoded as [id [|s|]|[|c p]]; cbn.
    1,3,4,5: split; [discriminate|]; intros [token' [id' [T' V']]]; congruence.
    rewrite orb_false_r. destruct (String.eqb s "admin") eqn:S; cbn.
    + apply String.eqb_eq in S. subst s. split; [|reflexivity]. intros _.
      now exists token, id.
    + split; [discriminate|]. intros [token' [id' [T' V']]].
      assert (s = "admin") by congruence. subst s. now rewrite String.eqb_refl in S.
Qed.

(** Behind [authenticateToken] followed by [requireAdmin()], a
    request with the header [scheme token] reaches the route exactly when
    the token is not empty and verifies to a payload whose role is the
    string [admin].  The scheme word is not looked at, not even for being
    there, and a [req.user] set before does not count. *)
Theorem admin_chain_passes_iff
    (scheme token : jsstring) (address : string) (before : option user) (log : Log) :
  unbroken scheme = true -> unbroken token = true ->
  (passes (chain (authenticateToken jwt_verify) requireAdmin
             (mkRequest (Some (scheme ++ 32%N :: token)%list) address before) log) = true
   <-> token <> [] /\ exists id, jwt_verify token = inr (Claims id (Str "admin"))).
Proof.
  intros Hs Ht. rewrite admin_chain_general. cbn [authorization].
  rewrite (token_of_second _ _ Hs Ht). split.
  - intros [t [id [T V]]]. destruct token as [|c token]; [discriminate|].
    injection T as <-. split; [discriminate|]. now exists id.
  - intros [N [id V]]. exists token, id. split; [|exact V].
    destruct token; [now destruct N|reflexivity].
Qed.

End Manager.

Lemma admin_chain_passes_iff_witness :
  passes (chain (authenticateToken (fun _ => inr (Claims (Str "7") (Str "admin")))) requireAdmin
            (mkRequest (Some (units "Basic" ++ 32%N :: units "abc")%list) "::1" None) []) = true
  <-> units "abc" <> [] /\
      exists id, (fun _ : jsstring => @inr JwtError user (Claims (Str "7") (Str "admin")))
                   (units "abc") = inr (Claims id (Str "admin")).
Proof.
  apply (admin_chain_passes_iff (fun _ => inr (Claims (Str "7") (Str "admin")))
           (units "Basic") (units "abc") "::1" None []); reflexivity.
Defined.

(** ** validateEnvironment *)

Lemma set_secret (env : string -> option string) :
  (negb (set env "JWT_SECRET") ||
   match env "JWT_SECRET" with
   | Some secret => String.eqb secret defaultSecret
   | None => false
   end) = String.eqb (jwtSecret env) defaultSecret.
Proof.
  unfold set, jwtSecret. destruct (env "JWT_SECRET") as [[|c s]|]; reflexivity.
Qed.

(** [validateEnvironment] returns exactly when the four database
    variables are set and not empty.  When it throws it has logged nothing;
    when it returns it has logged the warning about the default secret
    exactly when the secret the constructor chose is the built-in one. *)
Theorem validateEnvironment_outcome (env : string -> option string) (log : Log) :
  match validateEnvironment env log with
  | Return _ log' =>
      forallb (set env) required = true /\
      log' = (if String.eqb (jwtSecret env) defaultSecret
              then log ++ [DefaultSecret] else log)%list
  | Throw _ log' => forallb (set env) required = false /\ log' = log
  | Exit _ _ => False
  end.
Proof.
  unfold validateEnvironment, bind. rewrite set_secret.
  unfold required. cbn [filter forallb].
  destruct (set env "DB_HOST"), (set env "DB_USER"), (set env "DB_PASSWORD"),
    (set env "DB_NAME"); cbn [negb List.length Z.of_nat Z.ltb Z.compare throw ret andb];
    try (split; reflexivity).
  destruct (String.eqb (jwtSecret env) defaultSecret); cbn; split; reflexivity.
Qed.

End MiddlewareProps.


(* ===================================================================== *)
(** * The monitoring service: notification and cooldown *)
(* ===================================================================== *)

Module MonitoringFacts.

Import Js Eff Monitoring MonitoringViews.
Local Open Scope string_scope.

(** ** Arrays *)

Lemma slice_last_length {A : Type} (n : nat) (l : list A) :
  List.length (slice_last n l) = Nat.min n (List.length l).
Proof. unfold slice_last. rewrite length_skipn. lia. Qed.

Lemma slice_last_suffix {A : Type} (n : nat) (l : list A) :
  l = (firstn (List.length l - n) l ++ slice_last n l)%list.
Proof. unfold slice_last. symmetry. apply firstn_skipn. Qed.

(** Dropping from the front leaves the back alone. *)
Lemma slice_last_app_keep {A : Type} (n : nat) (pre post : list A) :
  (List.length post <= n)%nat ->
  slice_last n (pre ++ post) = (slice_last (n - List.length post) pre ++ post)%list.
Proof.
  intros H. unfold slice_last. rewrite length_app, skipn_app.
  replace (List.length pre + List.length post - n - List.length pre)%nat with 0%nat by lia.
  cbn [skipn]. f_equal. f_equal. lia.
Qed.

(** ** The log *)

Lemma dispatched_app (l1 l2 : list LogEntry) :
  dispatched (l1 ++ l2) = (dispatched l1 ++ dispatched l2)%list.
Proof.
  induction l1 as [|e l1 IH]; [reflexivity|].
  destruct e; cbn; now rewrite IH.
Qed.

(** ** sendAlert *)

Lemma sendAlert_returns (env : Env) (title : string) (details : Details) (w : World) :
  sendAlert env title details w = Return tt (sent env title details w).
Proof.
  unfold sent, sendAlert, bind, logger_warn, modify.
  destruct (emailTransporter env) as [transporter|]; [|reflexivity].
  destruct (truthy (ALERT_EMAIL env)); [|reflexivity].
  unfold try_catch, bind, settle.
  destruct (render env title details) as [e|body]; [reflexivity|].
  unfold ret, sendMail. destruct (transporter _); reflexivity.
Qed.

(** [sendAlert] touches the log and the outbox only. *)
Lemma sent_frame (env : Env) (title : string) (details : Details) (w : World) :
  alertHistory (sent env title details w) = alertHistory w /\
  errors (sent env title details w) = errors w /\
  lastCollection (sent env title details w) = lastCollection w /\
  issued (sent env title details w) = issued w /\
  acquired (sent env title details w) = acquired w /\
  released (sent env title details w) = released w /\
  metricsFile (sent env title details w) = metricsFile w.
Proof.
  unfold sent, sendAlert, bind, logger_warn, modify.
  destruct (emailTransporter env) as [transporter|]; [|cbn; tauto].
  destruct (truthy (ALERT_EMAIL env)); [|cbn; tauto].
  unfold try_catch, bind, settle.
  destruct (render env title details) as [e|body]; [cbn; tauto|].
  unfold ret, sendMail. destruct (transporter _); cbn; tauto.
Qed.

Lemma sent_alertHistory (env : Env) (title : string) (details : Details) (w : World) :
  alertHistory (sent env title details w) = alertHistory w.
Proof. apply sent_frame. Qed.

(** Each call shows in the log as one more alert. *)
Lemma sent_dispatched (env : Env) (title : string) (details : Details) (w : World) :
  dispatched (log (sent env title details w))
  = (dispatched (log w) ++ [("ALERT: " ++ title)%string])%list.
Proof.
  unfold sent, sendAlert, bind, logger_warn, modify.
  destruct (emailTransporter env) as [transporter|];
    [|cbn; now rewrite dispatched_app].
  destruct (truthy (ALERT_EMAIL env)); [|cbn; now rewrite dispatched_app].
  unfold try_catch, bind, settle.
  destruct (render env title details) as [e|body].
  - cbn. rewrite !dispatched_app. cbn. now rewrite app_nil_r.
  - unfold ret, sendMail. destruct (transporter _); cbn;
      rewrite !dispatched_app; cbn; now rewrite app_nil_r.
Qed.

(** ** processAlert *)

Lemma processAlert_suppressed (env : Env) (now : Z) (alert : Alert) (w : World)
    (e : AlertHistoryEntry) :
  find (recent (alertKey alert) now) (alertHistory w) = Some e ->
  processAlert env now alert w = Return tt w.
Proof.
  intros H. unfold processAlert, bind, gets. fold (alertKey alert). now rewrite H.
Qed.

Lemma processAlert_dispatched (env : Env) (now : Z) (alert : Alert) (w : World) :
  find (recent (alertKey alert) now) (alertHistory w) = None ->
  processAlert env now alert w
  = Return tt
      (set_alertHistory
         (trim (alertHistory w ++ [mkAlertHistoryEntry (alertKey alert) now alert]))
         (sent env (type alert) (AlertDetails alert) w)).
Proof.
  intros H. unfold processAlert, bind, gets. fold (alertKey alert). rewrite H.
  rewrite sendAlert_returns. unfold modify. cbn [alertHistory set_alertHistory].
  rewrite sent_alertHistory. unfold trim.
  destruct (100 <? _)%nat; reflexivity.
Qed.

Lemma processAlert_returns (env : Env) (now : Z) (alert : Alert) (w : World) :
  processAlert env now alert w = Return tt (final (processAlert env now alert w)).
Proof.
  destruct (find (recent (alertKey alert) now) (alertHistory w)) eqn:H.
  - now rewrite (processAlert_suppressed env now alert w _ H).
  - now rewrite (processAlert_dispatched env now alert w H).
Qed.

(** ** What a call of [processAlert] does to the history and to the log *)

Lemma processAlert_cases (env : Env) (now : Z) (alert : Alert) (w : World) :
  let w' := final (processAlert env now alert w) in
  (exists e, find (recent (alertKey alert) now) (alertHistory w) = Some e /\ w' = w) \/
  (find (recent (alertKey alert) now) (alertHistory w) = None /\
   alertHistory w' = trim (alertHistory w ++ [entry_of now alert]) /\
   dispatched (log w')
   = (dispatched (log w) ++ [("ALERT: " ++ type alert)%string])%list).
Proof.
  cbv zeta. destruct (find (recent (alertKey alert) now) (alertHistory w)) eqn:H.
  - left. exists a. split; [reflexivity|].
    now rewrite (processAlert_suppressed env now alert w _ H).
  - right. split; [reflexivity|].
    rewrite (processAlert_dispatched env now alert w H). cbn [final].
    split; [reflexivity|]. cbn [log set_alertHistory]. apply sent_dispatched.
Qed.

Lemma count_step (env : Env) (now : Z) (alert : Alert) (w : World) :
  (count w <= count (final (processAlert env now alert w)))%nat.
Proof.
  destruct (processAlert_cases env now alert w) as [[e [_ E]]|[_ [_ E]]];
    unfold count.
  - now rewrite E.
  - rewrite E, length_app. lia.
Qed.

(** ** Sequences of calls *)

Lemma processAlerts_index (env : Env) (events : list (Z * Alert)) (i j : nat) (w : World) :
  for_each (fun _ event => processAlert env (fst event) (snd event)) i events w
  = for_each (fun _ event => processAlert env (fst event) (snd event)) j events w.
Proof.
  revert i j w. induction events as [|ev events IH]; intros i j w; [reflexivity|].
  cbn [for_each]. unfold bind. rewrite processAlert_returns. apply IH.
Qed.

Lemma processAlerts_cons (env : Env) (ev : Z * Alert) (events : list (Z * Alert))
    (w : World) :
  processAlerts env (ev :: events) w
  = processAlerts env events (final (processAlert env (fst ev) (snd ev) w)).
Proof.
  unfold processAlerts. cbn [for_each]. unfold bind.
  rewrite processAlert_returns. apply processAlerts_index.
Qed.

Lemma processAlerts_returns (env : Env) (events : list (Z * Alert)) (w : World) :
  processAlerts env events w = Return tt (final (processAlerts env events w)).
Proof.
  revert w. induction events as [|ev events IH]; intros w; [reflexivity|].
  rewrite processAlerts_cons. apply IH.
Qed.

Lemma count_steps (env : Env) (events : list (Z * Alert)) (w : World) :
  (count w <= count (final (processAlerts env events w)))%nat.
Proof.
  revert w. induction events as [|ev events IH]; intros w; [cbn; lia|].
  rewrite processAlerts_cons.
  pose proof (count_step env (fst ev) (snd ev) w).
  pose proof (IH (final (processAlert env (fst ev) (snd ev) w))). lia.
Qed.

(** ** The bound of the history *)

Lemma trim_length (h : list AlertHistoryEntry) : (List.length (trim h) <= 100)%nat.
Proof.
  unfold trim. destruct (100 <? List.length h)%nat eqn:E.
  - rewrite slice_last_length. lia.
  - apply Nat.ltb_ge in E. exact E.
Qed.

(** [trim] keeps the most recent entries: what it drops is the front. *)
Lemma trim_suffix (h : list AlertHistoryEntry) :
  exists dropped,
    h = (dropped ++ trim h)%list /\
    List.length (trim h) = Nat.min 100 (List.length h).
Proof.
  unfold trim. destruct (100 <? List.length h)%nat eqn:E.
  - exists (firstn (List.length h - 100) h). split.
    + apply slice_last_suffix.
    + apply slice_last_length.
  - apply Nat.ltb_ge in E. exists []. split; [reflexivity|lia].
Qed.

Lemma bounded_step (env : Env) (now : Z) (alert : Alert) (w : World) :
  (List.length (alertHistory w) <= 100)%nat ->
  (List.length (alertHistory (final (processAlert env now alert w))) <= 100)%nat.
Proof.
  intros H. destruct (processAlert_cases env now alert w) as [[e [_ E]]|[_ [E _]]].
  - now rewrite E.
  - rewrite E. apply trim_length.
Qed.

Lemma bounded_steps (env : Env) (events : list (Z * Alert)) (w : World) :
  (List.length (alertHistory w) <= 100)%nat ->
  (List.length (alertHistory (final (processAlerts env events w))) <= 100)%nat.
Proof.
  revert w. induction events as [|ev events IH]; intros w H; [exact H|].
  rewrite processAlerts_cons. apply IH. now apply bounded_step.
Qed.

(** ** An entry stays in the history until 100 others are pushed after it *)

Lemma trim_keeps (pre post : list AlertHistoryEntry) (e x : AlertHistoryEntry) :
  (List.length post + 1 < 100)%nat ->
  exists pre', trim ((pre ++ e :: post) ++ [x]) = (pre' ++ e :: (post ++ [x]))%list.
Proof.
  intros H. unfold trim. rewrite <- app_assoc. cbn [app].
  destruct (100 <? _)%nat.
  - rewrite slice_last_app_keep; [eauto|]. cbn [List.length].
    rewrite length_app. cbn [List.length]. lia.
  - eauto.
Qed.

Lemma trim_last (h : list AlertHistoryEntry) (x : AlertHistoryEntry) :
  exists pre, trim (h ++ [x]) = (pre ++ [x])%list.
Proof.
  unfold trim. destruct (100 <? _)%nat.
  - rewrite slice_last_app_keep; [eauto|]. cbn. lia.
  - eauto.
Qed.

Lemma entry_survives (env : Env) (events : list (Z * Alert)) :
  forall (w : World) (pre post : list AlertHistoryEntry) (e : AlertHistoryEntry),
    alertHistory w = (pre ++ e :: post)%list ->
    (List.length post + (count (final (processAlerts env events w)) - count w) < 100)%nat ->
    In e (alertHistory (final (processAlerts env events w))).
Proof.
  induction events as [|ev events IH]; intros w pre post e Hw Hn.
  - cbn. rewrite Hw. apply in_elt.
  - rewrite processAlerts_cons in *.
    pose proof (count_steps env events (final (processAlert env (fst ev) (snd ev) w))) as Hmono.
    destruct (processAlert_cases env (fst ev) (snd ev) w) as [[e' [_ E]]|[_ [E D]]].
    + rewrite E in *. now apply (IH w pre post e).
    + assert (Hc : count (final (processAlert env (fst ev) (snd ev) w)) = S (count w)).
      { unfold count. rewrite D, length_app. cbn. lia. }
      rewrite Hw in E.
      destruct (trim_keeps pre post e (entry_of (fst ev) (snd ev))) as [pre' Hk]; [lia|].
      rewrite Hk in E.
      apply (IH _ pre' (post ++ [entry_of (fst ev) (snd ev)])%list e E).
      rewrite length_app. cbn [List.length]. lia.
Qed.

(** ** The loop of [checkAlerts] *)

Lemma processAlert_view (env : Env) (now : Z) (alert : Alert) (w : World) :
  view (final (processAlert env now alert w)) = step now alert (view w).
Proof.
  unfold step, view. cbn [fst snd].
  destruct (processAlert_cases env now alert w) as [[e [F E]]|[F [E D]]]; rewrite F.
  - now rewrite E.
  - now rewrite E, D.
Qed.

Lemma alert_loop_returns (env : Env) (clock : nat -> Z) (alerts : list Alert) :
  forall (i : nat) (w : World),
    for_each (fun i alert => processAlert env (clock i) alert) i alerts w
    = Return tt (final (for_each (fun i alert => processAlert env (clock i) alert)
                                 i alerts w)).
Proof.
  induction alerts as [|a alerts IH]; intros i w; [reflexivity|].
  cbn [for_each]. unfold bind. rewrite processAlert_returns. apply IH.
Qed.

Lemma alert_loop_view (env : Env) (clock : nat -> Z) (alerts : list Alert) :
  forall (i : nat) (w : World),
    view (final (for_each (fun i alert => processAlert env (clock i) alert) i alerts w))
    = steps clock i alerts (view w).
Proof.
  induction alerts as [|a alerts IH]; intros i w; [reflexivity|].
  cbn [for_each steps]. unfold bind. rewrite processAlert_returns, IH.
  now rewrite processAlert_view.
Qed.

(** With a connections row and a size row, [checkAlerts] gets to its loop
    and through it. *)
Lemma checkAlerts_returns (env : Env) (clock : nat -> Z) (metrics : MetricsSnapshot)
    (w : World) :
  connections metrics <> None -> size metrics <> None ->
  checkAlerts env clock metrics w
  = Return tt (final (checkAlerts env clock metrics w)).
Proof.
  intros Hc Hs. unfold checkAlerts, bind, defined.
  destruct (connections metrics) as [conn|]; [|contradiction].
  destruct (size metrics) as [sz|]; [|contradiction].
  unfold ret. apply alert_loop_returns.
Qed.

Lemma checkAlerts_view (env : Env) (clock : nat -> Z) (metrics : MetricsSnapshot)
    (conn : ConnectionsRow) (sz : SizeRow) (w : World) :
  connections metrics = Some conn -> size metrics = Some sz ->
  view (final (checkAlerts env clock metrics w))
  = steps clock 0 (candidates env conn (performance metrics) sz) (view w).
Proof.
  intros Hc Hs. unfold checkAlerts, bind, defined. rewrite Hc, Hs. unfold ret.
  apply alert_loop_view.
Qed.

(** ** Inside one hour the cooldown test is the key test *)

Lemma find_recent_window (t0 now : Z) (k : string) (h : list AlertHistoryEntry) :
  in_window t0 now -> all_in_window t0 h ->
  find (recent k now) h = find (same_key k) h.
Proof.
  intros Hn Hh. induction Hh as [|e h He Hh IH]; [reflexivity|].
  cbn [find]. unfold recent at 1, same_key at 1.
  assert (Ht : (now - timestamp e <? 3600000)%Z = true).
  { apply Z.ltb_lt. unfold in_window in *. lia. }
  rewrite Ht, andb_true_r, IH. reflexivity.
Qed.

Lemma trim_in_window (t0 : Z) (h : list AlertHistoryEntry) :
  all_in_window t0 h -> all_in_window t0 (trim h).
Proof.
  intros H. destruct (trim_suffix h) as [dropped [E _]].
  unfold all_in_window in *. rewrite E in H. now apply Forall_app in H.
Qed.

Lemma step_window (t0 now : Z) (alert : Alert) (v : list AlertHistoryEntry * list string) :
  in_window t0 now -> all_in_window t0 (fst v) ->
  step now alert v = step_key now alert v /\
  all_in_window t0 (fst (step_key now alert v)).
Proof.
  intros Hn Hv. unfold step, step_key.
  rewrite (find_recent_window t0 now (alertKey alert) (fst v) Hn Hv).
  split; [reflexivity|].
  destruct (find (same_key (alertKey alert)) (fst v)); [exact Hv|].
  cbn [fst]. apply trim_in_window. apply Forall_app. split; [exact Hv|].
  constructor; [exact Hn|constructor].
Qed.

Lemma steps_window (t0 : Z) (clock : nat -> Z) (alerts : list Alert) :
  within_hour t0 clock ->
  forall (i : nat) (v : list AlertHistoryEntry * list string),
    all_in_window t0 (fst v) ->
    steps clock i alerts v = steps_key clock i alerts v /\
    all_in_window t0 (fst (steps_key clock i alerts v)).
Proof.
  intros Hc. induction alerts as [|a alerts IH]; intros i v Hv; [now split|].
  cbn [steps steps_key].
  destruct (step_window t0 (clock i) a v (Hc i) Hv) as [E W].
  rewrite E. now apply IH.
Qed.

(** ** Streams over few keys *)

Lemma trim_keeps_window (pre win : list AlertHistoryEntry) :
  (List.length win <= 100)%nat ->
  exists pre', trim (pre ++ win) = (pre' ++ win)%list.
Proof.
  intros H. unfold trim. destruct (100 <? _)%nat.
  - rewrite slice_last_app_keep; eauto.
  - eauto.
Qed.

Lemma recent_found (k : string) (now : Z) (h : list AlertHistoryEntry)
    (e : AlertHistoryEntry) :
  In e h -> key e = k -> (now - timestamp e < 3600000)%Z ->
  exists e', find (recent k now) h = Some e'.
Proof.
  intros Hin Hk Ht. destruct (find (recent k now) h) as [e'|] eqn:F; [eauto|].
  pose proof (find_none _ _ F _ Hin) as R. unfold recent in R.
  rewrite Hk, String.eqb_refl in R. cbn [andb] in R. apply Z.ltb_ge in R. lia.
Qed.

(** While the alerts of one hour have at most 100 keys between them, the
    entries pushed in that hour all stay in the history: [win] holds them,
    one per key. *)
Lemma window_kept (env : Env) (keys : list string) (t1 : Z) (events : list (Z * Alert)) :
  (List.length keys <= 100)%nat ->
  (forall ev, In ev events ->
     In (alertKey (snd ev)) keys /\ in_window t1 (fst ev)) ->
  forall (w : World) (pre win : list AlertHistoryEntry),
    alertHistory w = (pre ++ win)%list ->
    NoDup (map key win) -> incl (map key win) keys ->
    Forall (fun e => in_window t1 (timestamp e)) win ->
    exists pre' more,
      alertHistory (final (processAlerts env events w)) = (pre' ++ win ++ more)%list.
Proof.
  intros HK. induction events as [|ev events IH]; intros Hev w pre win Hw Hnd Hincl Hwin.
  - exists pre, []. cbn. now rewrite app_nil_r.
  - rewrite processAlerts_cons.
    assert (Hev' : forall ev', In ev' events ->
                     In (alertKey (snd ev')) keys /\ in_window t1 (fst ev'))
      by (intros ev' H; apply Hev; now right).
    destruct (Hev ev (or_introl eq_refl)) as [Hk Ht].
    destruct (processAlert_cases env (fst ev) (snd ev) w) as [[e [_ E]]|[F [E _]]].
    + rewrite E. now apply (IH Hev' w pre win).
    + assert (Hnew : ~ In (alertKey (snd ev)) (map key win)).
      { intros Hin. apply in_map_iff in Hin. destruct Hin as [e [Hke Hin]].
        destruct (recent_found (alertKey (snd ev)) (fst ev) (alertHistory w) e)
          as [e' F']; trivial.
        - rewrite Hw. apply in_or_app. now right.
        - rewrite Forall_forall in Hwin. specialize (Hwin e Hin).
          unfold in_window in *. lia.
        - congruence. }
      assert (Hnd' : NoDup (map key (win ++ [entry_of (fst ev) (snd ev)]))).
      { rewrite map_app. cbn. apply NoDup_app; trivial.
        - constructor; [intros []|constructor].
        - intros k Hin [<-|[]]. contradiction. }
      assert (Hincl' : incl (map key (win ++ [entry_of (fst ev) (snd ev)])) keys).
      { rewrite map_app. apply incl_app; trivial. intros k [<-|[]]. exact Hk. }
      assert (Hlen : (List.length (win ++ [entry_of (fst ev) (snd ev)]) <= 100)%nat).
      { rewrite <- (length_map key). pose proof (NoDup_incl_length Hnd' Hincl'). lia. }
      rewrite Hw, <- app_assoc in E.
      destruct (trim_keeps_window pre _ Hlen) as [pre' Hk'].
      rewrite Hk' in E.
      destruct (IH Hev' _ pre' (win ++ [entry_of (fst ev) (snd ev)])%list E Hnd' Hincl')
        as [pre'' [more Hfin]].
      { apply Forall_app. split; trivial. constructor; [exact Ht|constructor]. }
      exists pre'', (entry_of (fst ev) (snd ev) :: more).
      rewrite Hfin, <- app_assoc. reflexivity.
Qed.

Lemma candidates_keys (env : Env) (conn : ConnectionsRow) (perf : PerformanceRow)
    (sz : SizeRow) (a : Alert) :
  In a (candidates env conn perf sz) -> In (alertKey a) alert_keys.
Proof.
  unfold candidates, alert_keys.
  destruct (maxConnections env <? _)%float, (0 <? _)%float, (1 <? _)%float;
    cbn; intros H; repeat (destruct H as [<-|H]; [cbn; tauto|]); contradiction.
Qed.

End MonitoringFacts.

(* ===================================================================== *)
(** * The monitoring service: main results *)
(* ===================================================================== *)

Module MonitoringClaims.

Import Js Eff Monitoring MonitoringViews MonitoringFacts.
Local Open Scope string_scope.

(** ** Cooldown *)

(** C2, as stated, fails: an alert is dispatched at time 0, a hundred
    alerts of other keys are dispatched in the next hundred milliseconds,
    which pushes the first entry out of the history of 100, and an alert of
    the first key, with another value, is dispatched again at time 101. *)
Lemma cooldown_broken_by_eviction :
  let a1 := burst_alert 0 1%float in
  let a2 := burst_alert 0 2%float in
  let between := map (fun i => (Z.of_nat i, burst_alert i 0%float)) (seq 1 100) in
  let w2 := final (processAlert quiet_env 0 a1 fresh) in
  let w3 := final (processAlerts quiet_env between w2) in
  let w4 := final (processAlert quiet_env 101 a2 w3) in
  alertKey a2 = alertKey a1 /\
  (101 - 0 < 3600000)%Z /\
  dispatched_of "burst" w2 = 1%nat /\
  count w3 = 101%nat /\
  dispatched_of "burst" w4 = 2%nat.
Proof. cbv zeta. repeat split; vm_compute; reflexivity. Qed.

(** C2, amended: an alert whose dedup key equals that of an alert
    dispatched less than 3600000 ms earlier is suppressed, whatever the
    values of the two alerts, provided fewer than 100 alerts were dispatched
    in between: the call sends nothing and records nothing. *)
Theorem cooldown_suppresses_repeat
    (env : Env) (w1 : World) (a1 a2 : Alert) (t1 t2 : Z) (between : list (Z * Alert)) :
  let w2 := final (processAlert env t1 a1 w1) in
  let w3 := final (processAlerts env between w2) in
  count w2 = S (count w1) ->
  alertKey a2 = alertKey a1 ->
  (t2 - t1 < 3600000)%Z ->
  (count w3 - count w2 < 100)%nat ->
  processAlert env t2 a2 w3 = Return tt w3.
Proof.
  cbv zeta. intros Hd Hk Ht Hn.
  destruct (processAlert_cases env t1 a1 w1) as [[e [_ E]]|[_ [E _]]].
  - rewrite E in Hd. lia.
  - destruct (trim_last (alertHistory w1) (entry_of t1 a1)) as [pre Hpre].
    rewrite Hpre in E.
    pose proof (entry_survives env between _ pre [] (entry_of t1 a1) E Hn) as Hin.
    destruct (find (recent (alertKey a2) t2) (alertHistory
               (final (processAlerts env between (final (processAlert env t1 a1 w1))))))
      as [e|] eqn:F.
    + exact (processAlert_suppressed env t2 a2 _ e F).
    + pose proof (find_none _ _ F _ Hin) as R.
      unfold recent, entry_of in R. cbn [key timestamp] in R.
      rewrite Hk, String.eqb_refl in R. cbn [andb] in R.
      apply Z.ltb_ge in R. lia.
Qed.

(** Two alerts of the same type and level with different values, one second
    apart, an alert of another key in between. *)
Lemma cooldown_suppresses_repeat_witness :
  let a1 := mkAlert "slow_queries" "warning" "3 slow queries detected" 3%float None in
  let a2 := mkAlert "slow_queries" "warning" "7 slow queries detected" 7%float None in
  let other := mkAlert "large_database" "info" "Database size: 2.00 GB" 2%float None in
  let w3 := final (processAlerts quiet_env [(500%Z, other)]
                     (final (processAlert quiet_env 0 a1 fresh))) in
  processAlert quiet_env 1000 a2 w3 = Return tt w3.
Proof.
  cbv zeta. apply cooldown_suppresses_repeat.
  - vm_compute. reflexivity.
  - reflexivity.
  - lia.
  - vm_compute. lia.
Defined.

(** For alerts of at most 100 keys in all, as are the three alerts of
    [checkAlerts], and a clock that does not go back, the cooldown has no
    exception: an alert whose key equals that of an alert dispatched less
    than an hour earlier is suppressed, however many alerts were processed
    in between. *)
Theorem cooldown_exact_for_few_keys
    (env : Env) (keys : list string) (w1 : World) (a1 a2 : Alert) (t1 t2 : Z)
    (between : list (Z * Alert)) :
  (List.length keys <= 100)%nat ->
  In (alertKey a1) keys ->
  (forall ev, In ev between -> In (alertKey (snd ev)) keys /\ in_window t1 (fst ev)) ->
  let w2 := final (processAlert env t1 a1 w1) in
  let w3 := final (processAlerts env between w2) in
  count w2 = S (count w1) ->
  alertKey a2 = alertKey a1 ->
  (t2 - t1 < 3600000)%Z ->
  processAlert env t2 a2 w3 = Return tt w3.
Proof.
  cbv zeta. intros HK Hk1 Hev Hd Hk Ht.
  destruct (processAlert_cases env t1 a1 w1) as [[e [_ E]]|[_ [E _]]].
  - rewrite E in Hd. lia.
  - destruct (trim_last (alertHistory w1) (entry_of t1 a1)) as [pre Hpre].
    rewrite Hpre in E.
    destruct (window_kept env keys t1 between HK Hev _ pre [entry_of t1 a1] E)
      as [pre' [more Hfin]].
    + cbn. constructor; [intros []|constructor].
    + intros k [<-|[]]. exact Hk1.
    + constructor; [|constructor]. cbn. unfold in_window. lia.
    + destruct (recent_found (alertKey a2) t2
                  (alertHistory (final (processAlerts env between
                     (final (processAlert env t1 a1 w1)))))
                  (entry_of t1 a1)) as [e' F];
        [rewrite Hfin; apply in_or_app; right; now left|now rewrite Hk|exact Ht|].
      exact (processAlert_suppressed env t2 a2 _ e' F).
Qed.

Lemma cooldown_exact_for_few_keys_witness :
  let a1 := mkAlert "slow_queries" "warning" "3 slow queries detected" 3%float None in
  let a2 := mkAlert "slow_queries" "warning" "7 slow queries detected" 7%float None in
  let other := mkAlert "large_database" "info" "Database size: 2.00 GB" 2%float None in
  let w3 := final (processAlerts quiet_env [(500%Z, other); (600%Z, other)]
                     (final (processAlert quiet_env 0 a1 fresh))) in
  processAlert quiet_env 1000 a2 w3 = Return tt w3.
Proof.
  cbv zeta. apply (cooldown_exact_for_few_keys quiet_env alert_keys).
  - cbn. lia.
  - cbn. tauto.
  - intros ev [<-|[<-|[]]]; (split; [cbn; tauto|unfold in_window; cbn; lia]).
  - vm_compute. reflexivity.
  - reflexivity.
  - lia.
Defined.

(** ** The bound of the alert history *)

(** C8: after every call of [processAlert] the alert history has at most
    100 entries; a call either leaves the history as it is or appends one
    entry and drops entries from the front, the oldest, so that the 100 most
    recent are kept. *)
Theorem alertHistory_bounded
    (env : Env) (events : list (Z * Alert)) (now : Z) (alert : Alert) (w : World) :
  (List.length (alertHistory (final (processAlerts env events fresh))) <= 100)%nat /\
  (let w' := final (processAlert env now alert w) in
   alertHistory w' = alertHistory w \/
   exists dropped,
     (alertHistory w ++ [entry_of now alert] = dropped ++ alertHistory w')%list /\
     List.length (alertHistory w') = Nat.min 100 (S (List.length (alertHistory w)))).
Proof.
  split.
  - apply bounded_steps. cbn. lia.
  - cbv zeta.
    destruct (processAlert_cases env now alert w) as [[e [_ E]]|[_ [E _]]].
    + left. now rewrite E.
    + right. rewrite E.
      destruct (trim_suffix (alertHistory w ++ [entry_of now alert])) as [dropped [H1 H2]].
      exists dropped. split; [exact H1|].
      rewrite H2, length_app. cbn [List.length]. f_equal. lia.
Qed.

(** A history of exactly 100 entries: the next dispatch drops the oldest
    one. *)
Example alertHistory_drops_oldest :
  let full := map (fun i => (Z.of_nat i, burst_alert i 0%float)) (seq 0 100) in
  let w := final (processAlerts quiet_env full fresh) in
  let w' := final (processAlert quiet_env 100 (burst_alert 100 0%float) w) in
  List.length (alertHistory w) = 100%nat /\
  List.length (alertHistory w') = 100%nat /\
  map timestamp (alertHistory w') = map Z.of_nat (seq 1 100).
Proof. cbv zeta. repeat split; vm_compute; reflexivity. Qed.

(** ** Notification *)

(** C7: [sendAlert] returns normally for every title and every payload,
    whatever the mail transport does; when the transport rejects the mail,
    the failure is logged and no error reaches the caller; and the loop of
    [checkAlerts] over its candidate alerts runs to its end. *)
Theorem sendAlert_swallows_mail_failure
    (env : Env) (title : string) (details : Details) (w : World) :
  (exists w', sendAlert env title details w = Return tt w') /\
  (forall transporter address body error,
      emailTransporter env = Some transporter ->
      ALERT_EMAIL env = Some address -> address <> "" ->
      render env title details = inr body ->
      transporter (mkMail (or_else (SMTP_FROM env) (SMTP_USER env)) address
                          ("Database Alert: " ++ title) body) = Some error ->
      sendAlert env title details w
      = Return tt
          (add_log (LogError "Failed to send alert email:" error)
             (add_log (LogWarn ("ALERT: " ++ title) details) w))) /\
  (forall clock metrics,
      connections metrics <> None -> size metrics <> None ->
      exists w', checkAlerts env clock metrics w = Return tt w').
Proof.
  split; [|split].
  - eexists. apply sendAlert_returns.
  - intros transporter address body error Ht Ha Hne Hr Hfail.
    unfold sendAlert, bind, logger_warn, modify. rewrite Ht, Ha.
    cbn [truthy]. destruct (String.eqb_spec address ""); [contradiction|].
    cbn [negb]. unfold try_catch, bind, settle. rewrite Hr.
    unfold ret, sendMail. rewrite Hfail. reflexivity.
  - intros clock metrics Hc Hs. eexists. now apply checkAlerts_returns.
Qed.

(** The transport of [failing_mail_env] rejects every mail. *)
Lemma sendAlert_swallows_mail_failure_witness :
  let details := AlertDetails (mkAlert "slow_queries" "warning" "" 3%float None) in
  sendAlert failing_mail_env "slow_queries" details fresh
  = Return tt
      (add_log (LogError "Failed to send alert email:" smtp_down)
         (add_log (LogWarn "ALERT: slow_queries" details) fresh)).
Proof.
  cbv zeta.
  destruct (sendAlert_swallows_mail_failure failing_mail_env "slow_queries"
              (AlertDetails (mkAlert "slow_queries" "warning" "" 3%float None)) fresh)
    as [_ [H _]].
  apply (H (fun _ => Some smtp_down) "ops@example.org" "<h2>Database Alert</h2>" smtp_down);
    try reflexivity.
  discriminate.
Defined.

(** ** Collection *)

(** C6: in a tick in which a catalog query fails, [collectMetrics] sends
    the queries in order up to the one that fails, each once, and no other
    afterwards; it logs the error, adds one to the error counter, gives the
    client back to the pool and returns normally.  Nothing is stored and no
    alert is evaluated in such a tick. *)
Theorem collectMetrics_query_failure
    (env : Env) (timestamp : Z) (clock : nat -> Z) (w : World) :
  connect env = None ->
  some_query_fails env = true ->
  exists (queries : list Query) (failed : Query) (error : Error) (w' : World),
    collectMetrics env timestamp clock w = Return tt w' /\
    errors w' = (errors w + 1)%Z /\
    log w' = (log w ++ [LogError "Error collecting metrics:" error])%list /\
    issued w' = (issued w ++ queries ++ [failed])%list /\
    ~ In failed queries /\
    acquired w' = S (acquired w) /\
    released w' = S (released w) /\
    alertHistory w' = alertHistory w /\
    metricsFile w' = metricsFile w /\
    outbox w' = outbox w /\
    lastCollection w' = lastCollection w.
Proof.
  intros Hc Hf. unfold some_query_fails in Hf.
  unfold collectMetrics, bind, pool_connect. rewrite Hc.
  unfold modify, try_finally, try_catch, bind, client_query, bind, modify, settle.
  destruct (connectionResult env) as [e|rows1].
  { exists [], ConnectionsQuery, e. eexists.
    split; [reflexivity|]. cbn. repeat split; try reflexivity. intro H; exact H. }
  destruct (performanceResult env) as [e|rows2].
  { exists [ConnectionsQuery], PerformanceQuery, e. eexists.
    split; [reflexivity|]. cbn.
    repeat split; try reflexivity; try (now rewrite <- app_assoc).
    unfold not; intros [H|[]]; discriminate. }
  destruct (sizeResult env) as [e|rows3].
  { exists [ConnectionsQuery; PerformanceQuery], SizeQuery, e. eexists.
    split; [reflexivity|]. cbn.
    repeat split; try reflexivity; try (now rewrite <- !app_assoc).
    unfold not; intros [H|[H|[]]]; discriminate. }
  destruct (lockResult env) as [e|rows4]; [|discriminate].
  exists [ConnectionsQuery; PerformanceQuery; SizeQuery], LocksQuery, e. eexists.
  split; [reflexivity|]. cbn.
  repeat split; try reflexivity; try (now rewrite <- !app_assoc).
  unfold not; intros [H|[H|[H|[]]]]; discriminate.
Qed.

(** The size query times out: two queries answered, the third sent once,
    the fourth never sent. *)
Lemma collectMetrics_query_failure_witness :
  exists (queries : list Query) (failed : Query) (error : Error) (w' : World),
    collectMetrics failing_query_env 1700000000000 (fun _ => 1700000000001%Z) fresh
    = Return tt w' /\
    errors w' = (errors fresh + 1)%Z /\
    log w' = (log fresh ++ [LogError "Error collecting metrics:" error])%list /\
    issued w' = (issued fresh ++ queries ++ [failed])%list /\
    ~ In failed queries /\
    acquired w' = S (acquired fresh) /\
    released w' = S (released fresh) /\
    alertHistory w' = alertHistory fresh /\
    metricsFile w' = metricsFile fresh /\
    outbox w' = outbox fresh /\
    lastCollection w' = lastCollection fresh.
Proof.
  apply collectMetrics_query_failure; reflexivity.
Defined.

Example collectMetrics_size_query_down :
  collectMetrics failing_query_env 1700000000000 (fun _ => 1700000000001%Z) fresh
  = Return tt
      (mkWorld [] 1 None [LogError "Error collecting metrics:" size_query_down] []
               [ConnectionsQuery; PerformanceQuery; SizeQuery] 1 1 Unreadable).
Proof. reflexivity. Qed.

(** When the pool gives no connection, the error leaves [collectMetrics]:
    the call to [pool.connect] stands before the [try], so nothing is
    logged and the error counter stays as it was. *)
Theorem collectMetrics_connect_failure
    (env : Env) (timestamp : Z) (clock : nat -> Z) (w : World) (error : Error) :
  connect env = Some error ->
  collectMetrics env timestamp clock w = Throw error w.
Proof.
  intros H. unfold collectMetrics, bind, pool_connect. now rewrite H.
Qed.

Lemma collectMetrics_connect_failure_witness :
  collectMetrics
    (mkEnv 80%float None None None None
           (fun _ _ => inr "") (fun _ _ => "") (fun _ => "")
           (Some (mkError "timeout exceeded when trying to connect"))
           (inr []) (inr []) (inr []) (inr []) None)
    0 (fun _ => 0%Z) fresh
  = Throw (mkError "timeout exceeded when trying to connect") fresh.
Proof.
  apply collectMetrics_connect_failure. reflexivity.
Defined.

(** ** Storage *)

(** C4: [storeMetrics] appends the snapshot to the stored history and keeps
    at most 1000 entries; what it drops is the front of the history, the
    oldest entries, so that the file holds the 1000 most recent in the order
    in which they were appended. *)
Theorem storeMetrics_bounded_fifo
    (env : Env) (metrics : MetricsSnapshot) (entries : list MetricsSnapshot) (w : World) :
  writeFile env = None ->
  metricsFile w = ArrayOf entries ->
  exists dropped kept,
    storeMetrics env metrics w = Return tt (set_metricsFile (ArrayOf kept) w) /\
    (entries ++ [metrics] = dropped ++ kept)%list /\
    List.length kept = Nat.min 1000 (S (List.length entries)) /\
    (List.length kept <= 1000)%nat.
Proof.
  intros Hw Hf. unfold storeMetrics, try_catch, bind, gets. rewrite Hf.
  unfold ret. rewrite Hw. unfold modify.
  destruct (1000 <? List.length (entries ++ [metrics]))%nat eqn:E.
  - exists (firstn (List.length (entries ++ [metrics]) - 1000) (entries ++ [metrics])),
      (slice_last 1000 (entries ++ [metrics])).
    split; [reflexivity|]. split; [apply slice_last_suffix|].
    rewrite slice_last_length, length_app. cbn [List.length].
    split; [f_equal|]; lia.
  - apply Nat.ltb_ge in E. rewrite length_app in E. cbn [List.length] in E.
    exists [], (entries ++ [metrics])%list. rewrite length_app. cbn [List.length].
    repeat split; lia.
Qed.

Lemma storeMetrics_bounded_fifo_witness :
  exists dropped kept,
    storeMetrics quiet_env (snapshot_at 1000)
      (set_metricsFile (ArrayOf (map snapshot_at (seq 0 1000))) fresh)
    = Return tt (set_metricsFile (ArrayOf kept)
                   (set_metricsFile (ArrayOf (map snapshot_at (seq 0 1000))) fresh)) /\
    (map snapshot_at (seq 0 1000) ++ [snapshot_at 1000] = dropped ++ kept)%list /\
    List.length kept = Nat.min 1000 (S (List.length (map snapshot_at (seq 0 1000)))) /\
    (List.length kept <= 1000)%nat.
Proof.
  apply storeMetrics_bounded_fifo; reflexivity.
Defined.

(** A file of 1000 entries: the next snapshot pushes the oldest one out. *)
Example storeMetrics_evicts_oldest :
  map snapshot_timestamp
    (stored (metricsFile (final
       (storeMetrics quiet_env (snapshot_at 1000)
          (set_metricsFile (ArrayOf (map snapshot_at (seq 0 1000))) fresh)))))
  = map Z.of_nat (seq 1 1000).
Proof. vm_compute. reflexivity. Qed.

(** When [metrics.json] cannot be read or parsed, [storeMetrics] starts
    from an empty history: the file then holds the new snapshot alone. *)
Theorem storeMetrics_unreadable_restarts
    (env : Env) (metrics : MetricsSnapshot) (w : World) :
  writeFile env = None ->
  metricsFile w = Unreadable ->
  storeMetrics env metrics w = Return tt (set_metricsFile (ArrayOf [metrics]) w).
Proof.
  intros Hw Hf. unfold storeMetrics, try_catch, bind, gets. rewrite Hf.
  unfold ret. rewrite Hw. reflexivity.
Qed.

Lemma storeMetrics_unreadable_restarts_witness :
  storeMetrics quiet_env (snapshot_at 7) fresh
  = Return tt (set_metricsFile (ArrayOf [snapshot_at 7]) fresh).
Proof.
  apply storeMetrics_unreadable_restarts; reflexivity.
Defined.

(** ** Three snapshots *)

(** The usage is computed in doubles as [(n / 100) * 100]: with a threshold
    of 7, seven connections give 7.000000000000001 and raise the alert. *)
Example seven_connections_exceed_seven :
  dispatched_of "high_connection_usage"
    (final (checkAlerts (quiet_env_with 7) (fun _ => 0%Z) (snapshot_with 7 0 0) fresh))
  = 1%nat.
Proof. vm_compute. reflexivity. Qed.

(** C3: snapshots with 10, 95 and 95 active connections, checked one after
    the other by a service just started, with a threshold of 80 and every
    reading of the clock inside one hour: no [high_connection_usage] alert
    after the first, one after the second, still one after the third, whose
    candidate finds the entry of the second in the history and is
    suppressed. *)
Theorem three_snapshots_one_connection_alert
    (env : Env) (t0 : Z) (clock1 clock2 clock3 : nat -> Z)
    (s1 s2 s3 : MetricsSnapshot) :
  maxConnections env = 80%float ->
  has_connections 10 s1 -> has_connections 95 s2 -> has_connections 95 s3 ->
  within_hour t0 clock1 -> within_hour t0 clock2 -> within_hour t0 clock3 ->
  let w1 := final (checkAlerts env clock1 s1 fresh) in
  let w2 := final (checkAlerts env clock2 s2 w1) in
  let w3 := final (checkAlerts env clock3 s3 w2) in
  dispatched_of connection_alert w1 = 0%nat /\
  dispatched_of connection_alert w2 = 1%nat /\
  dispatched_of connection_alert w3 = 1%nat /\
  exists e,
    find (recent "high_connection_usage_warning" (clock3 0%nat)) (alertHistory w2) = Some e /\
    timestamp e = clock2 0%nat.
Proof.
  intros Hmax [[c1 [Hc1 Ha1]] [z1 Hz1]] [[c2 [Hc2 Ha2]] [z2 Hz2]]
         [[c3 [Hc3 Ha3]] [z3 Hz3]] Hk1 Hk2 Hk3.
  cbv zeta.
  pose proof (checkAlerts_view env clock1 s1 c1 z1 fresh Hc1 Hz1) as V1.
  pose proof (checkAlerts_view env clock2 s2 c2 z2 _ Hc2 Hz2 : view
    (final (checkAlerts env clock2 s2 (final (checkAlerts env clock1 s1 fresh)))) = _) as V2.
  pose proof (checkAlerts_view env clock3 s3 c3 z3 _ Hc3 Hz3 : view
    (final (checkAlerts env clock3 s3 (final (checkAlerts env clock2 s2
       (final (checkAlerts env clock1 s1 fresh)))))) = _) as V3.
  destruct (steps_window t0 clock1 (candidates env c1 (performance s1) z1) Hk1 0
              (view fresh)) as [E1 W1]; [constructor|].
  rewrite E1 in V1. rewrite V1 in V2.
  destruct (steps_window t0 clock2 (candidates env c2 (performance s2) z2) Hk2 0 _ W1)
    as [E2 W2].
  rewrite E2 in V2. rewrite V2 in V3.
  destruct (steps_window t0 clock3 (candidates env c3 (performance s3) z3) Hk3 0 _ W2)
    as [E3 W3].
  rewrite E3 in V3.
  unfold dispatched_of.
  change (alertHistory (final (checkAlerts env clock2 s2
            (final (checkAlerts env clock1 s1 fresh)))))
    with (fst (view (final (checkAlerts env clock2 s2
            (final (checkAlerts env clock1 s1 fresh)))))).
  change (dispatched (log (final (checkAlerts env clock1 s1 fresh))))
    with (snd (view (final (checkAlerts env clock1 s1 fresh)))).
  change (dispatched (log (final (checkAlerts env clock2 s2
            (final (checkAlerts env clock1 s1 fresh))))))
    with (snd (view (final (checkAlerts env clock2 s2
            (final (checkAlerts env clock1 s1 fresh)))))).
  change (dispatched (log (final (checkAlerts env clock3 s3 (final (checkAlerts env clock2 s2
            (final (checkAlerts env clock1 s1 fresh))))))))
    with (snd (view (final (checkAlerts env clock3 s3 (final (checkAlerts env clock2 s2
            (final (checkAlerts env clock1 s1 fresh)))))))).
  assert (W2' : all_in_window t0 (fst (view (final (checkAlerts env clock2 s2
            (final (checkAlerts env clock1 s1 fresh)))))))
    by (rewrite V2; exact W2).
  rewrite (find_recent_window t0 (clock3 0%nat) _ _ (Hk3 0%nat) W2'). clear W2'.
  rewrite V1, V2, V3. clear V1 V2 V3 E1 E2 E3 W1 W2 W3.
  unfold candidates. rewrite Hmax, Ha1, Ha2, Ha3.
  destruct (0 <? slow_queries (performance s1))%float,
           (1 <? db_size z1 / (1024 * 1024 * 1024))%float,
           (0 <? slow_queries (performance s2))%float,
           (1 <? db_size z2 / (1024 * 1024 * 1024))%float,
           (0 <? slow_queries (performance s3))%float,
           (1 <? db_size z3 / (1024 * 1024 * 1024))%float;
    (split; [|split; [|split]]);
    try (vm_compute; reflexivity);
    (eexists; split; [vm_compute; reflexivity|reflexivity]).
Qed.

Lemma three_snapshots_one_connection_alert_witness :
  let clock1 := fun _ : nat => 1700000000000%Z in
  let clock2 := fun _ : nat => 1700000060000%Z in
  let clock3 := fun _ : nat => 1700000120000%Z in
  let w1 := final (checkAlerts quiet_env clock1 (snapshot_with 10 0 0) fresh) in
  let w2 := final (checkAlerts quiet_env clock2 (snapshot_with 95 4 0) w1) in
  let w3 := final (checkAlerts quiet_env clock3 (snapshot_with 95 9 0) w2) in
  dispatched_of connection_alert w1 = 0%nat /\
  dispatched_of connection_alert w2 = 1%nat /\
  dispatched_of connection_alert w3 = 1%nat /\
  exists e,
    find (recent "high_connection_usage_warning" (clock3 0%nat)) (alertHistory w2) = Some e /\
    timestamp e = clock2 0%nat.
Proof.
  cbv zeta.
  apply (three_snapshots_one_connection_alert quiet_env 1700000000000);
    try reflexivity;
    try (split; eexists; [split|]; reflexivity);
    intros i; unfold in_window; lia.
Defined.

End MonitoringClaims.
(* ===================================================================== *)
(** * Properties of the health checks *)
(* ===================================================================== *)

Module HealthProps.

Import Js Eff Monitoring MonitoringViews MonitoringFacts Health.
Local Open Scope string_scope.
Local Open Scope list_scope.

Lemma untouched_refl (w : World) : untouched w w.
Proof. now repeat split. Qed.

Lemma untouched_trans (a b c : World) : untouched a b -> untouched b c -> untouched a c.
Proof.
  unfold untouched. intros [A1 [A2 [A3 [A4 A5]]]] [B1 [B2 [B3 [B4 B5]]]].
  repeat split; congruence.
Qed.

Lemma lift_sendAlert (env : Monitoring.Env) (title : string) (details : Details) (w : World) :
  lift (sendAlert env title details) w
  = Return tt (set_service (sent env title details (service w)) w).
Proof. unfold lift. now rewrite sendAlert_returns. Qed.

Lemma alerted (env : Monitoring.Env) (title : string) (details : Details) (w : World) :
  let w' := set_service (sent env title details (service w)) w in
  untouched w w' /\ probes w' = probes w /\ healthFile w' = healthFile w /\
  alerts w' = alerts w ++ ["ALERT: " ++ title]%string.
Proof.
  cbn. unfold untouched, alerts. cbn [service set_service probes healthFile].
  rewrite sent_dispatched.
  destruct (sent_frame env title details (service w)) as [A [B [C [D [E [F G]]]]]].
  repeat split; assumption.
Qed.

(** [storeHealthChecks] catches what goes wrong in it. *)
Lemma storeHealthChecks_frame (env : Env) (now : Z) (healthChecks : list HealthCheck)
    (w : World) :
  exists w',
    storeHealthChecks env now healthChecks w = Return tt w' /\
    untouched w w' /\ probes w' = probes w /\ alerts w' = alerts w.
Proof.
  unfold storeHealthChecks, try_catch, bind, gets.
  destruct (healthFile w) as [|runs|]; cbn;
    try (destruct (writeHealthFile env); cbn);
    eexists; (split; [reflexivity|]); unfold untouched, alerts; cbn;
    try rewrite dispatched_app; cbn; rewrite ?app_nil_r; now repeat split.
Qed.

Lemma checkHealth_body_cases (env : Env) (clock : nat -> Z) (w : World) :
  match checkHealth_body env clock w with
  | Return _ w' =>
      probe_fails env = false /\ untouched w w' /\
      alerts w' = alerts w ++ (if unhealthy env then ["ALERT: Health Check Failed"] else [])
  | Throw _ w' =>
      probe_fails env = true /\ untouched w w' /\ alerts w' = alerts w /\
      healthFile w' = healthFile w
  | Exit _ _ => False
  end.
Proof.
  unfold checkHealth_body, probe_fails, unhealthy, probe, bind, modify, settle, try_catch.
  destruct (connectivityResult env) as [e|n]; cbn.
  { now repeat split. }
  destruct (tablesResult env) as [e|[|row rows]]; cbn.
  1,2: now repeat split.
  destruct (diskResult env) as [e|[]]; cbn.
  { now repeat split. }
  set (w0 := add_probe DiskSize (add_probe TableCount (add_probe Connectivity w))).
  assert (U0 : forall w1, untouched w0 w1 -> untouched w w1) by (intros w1 H; exact H).
  assert (A0 : alerts w0 = alerts w) by reflexivity.
  destruct (replicationResult env) as [e|replicas]; cbn.
  - match goal with
    | |- context [storeHealthChecks env ?now ?hc ?w1] =>
        destruct (storeHealthChecks_frame env now hc w1) as [w2 [E [U [P A]]]];
        rewrite E
    end.
    destruct n as [|n], (0 <? table_count row)%float; cbn;
      try rewrite lift_sendAlert;
      try match goal with
        | |- context [sent ?e ?t ?d (service w2)] =>
            destruct (alerted e t d w2) as [U' [_ [_ A']]]; cbn in U', A'
        end;
      (split; [reflexivity|]); split;
      try (apply U0; first [exact (untouched_trans _ _ _ U U') | exact U]);
      try (rewrite A', A; reflexivity);
      try (rewrite A, app_nil_r; reflexivity).
  - match goal with
    | |- context [storeHealthChecks env ?now ?hc ?w1] =>
        destruct (storeHealthChecks_frame env now hc w1) as [w2 [E [U [P A]]]];
        rewrite E
    end.
    destruct n as [|n], (0 <? table_count row)%float; cbn;
      try rewrite lift_sendAlert;
      try match goal with
        | |- context [sent ?e ?t ?d (service w2)] =>
            destruct (alerted e t d w2) as [U' [_ [_ A']]]; cbn in U', A'
        end;
      (split; [reflexivity|]); split;
      try (apply U0; first [exact (untouched_trans _ _ _ U U') | exact U]);
      try (rewrite A', A; reflexivity);
      try (rewrite A, app_nil_r; reflexivity).
Qed.

Lemma checkHealth_run (env : Env) (clock : nat -> Z) (w : World) :
  connect (base env) = None ->
  exists w',
    checkHealth env clock w = Return tt w' /\
    acquired (service w') = S (acquired (service w)) /\
    released (service w') = S (released (service w)) /\
    errors (service w') = errors (service w) /\
    alertHistory (service w') = alertHistory (service w) /\
    alerts w'
    = alerts w ++
      (if probe_fails env then ["ALERT: Health Check Error"]
       else if unhealthy env then ["ALERT: Health Check Failed"] else []) /\
    (probe_fails env = true -> healthFile w' = healthFile w).
Proof.
  intros C. unfold checkHealth, bind. unfold lift at 1, pool_connect. rewrite C.
  cbn [modify]. unfold try_finally, try_catch.
  set (w0 := set_service (add_acquired (service w)) w).
  pose proof (checkHealth_body_cases env clock w0) as B.
  destruct (checkHealth_body env clock w0) as [[] w1|e w1|code w1]; [| |destruct B].
  - destruct B as [F [[U1 [U2 [U3 [U4 _]]]] A]]. cbn.
    eexists. split; [reflexivity|]. subst w0. cbn in *. rewrite F.
    repeat split; try assumption; try congruence.
  - destruct B as [F [[U1 [U2 [U3 [U4 _]]]] [A Hf]]].
    unfold bind. unfold lift at 1, logger_error, modify.
    rewrite lift_sendAlert.
    match goal with
    | |- context [sent ?e ?t ?d (service ?x)] =>
        destruct (alerted e t d x) as [[V1 [V2 [V3 [V4 _]]]] [_ [Vf A']]];
        cbn in V1, V2, V3, V4, A', Vf
    end.
    cbn. eexists. split; [reflexivity|]. cbn. rewrite F.
    repeat split.
    + now rewrite V1, U1.
    + now rewrite V2, U2.
    + now rewrite V3, U3.
    + now rewrite V4, U4.
    + unfold alerts in *. cbn in *. rewrite A'. rewrite dispatched_app. cbn.
      rewrite app_nil_r. now rewrite A.
    + intros _. exact Hf.
Qed.

(** A health check that got its client gives it back, whatever the queries
    answer, and never throws; it counts no error in [this.metrics.errors],
    unlike [collectMetrics].  When the pool gives no client the rejection
    goes to the caller with nothing logged. *)
Theorem checkHealth_releases_client (env : Env) (clock : nat -> Z) (w : World) :
  match connect (base env) with
  | Some error => checkHealth env clock w = Throw error w
  | None =>
      exists w',
        checkHealth env clock w = Return tt w' /\
        acquired (service w') = S (acquired (service w)) /\
        released (service w') = S (released (service w)) /\
        errors (service w') = errors (service w)
  end.
Proof.
  destruct (connect (base env)) as [error|] eqn:C.
  - unfold checkHealth, bind, lift, pool_connect. rewrite C. cbn.
    now destruct w.
  - destruct (checkHealth_run env clock w C) as [w' [E [A [R [X _]]]]].
    now exists w'.
Qed.

(** Every run of the health check that finds a fault alerts: one alert
    [Health Check Error] when one of the first three queries fails (and
    then nothing is stored), one alert [Health Check Failed] when a check
    is unhealthy, none otherwise.  The alert history is neither read nor
    written, so no cooldown applies, and what the replication query
    answers plays no part. *)
Theorem checkHealth_alerts_every_run (env : Env) (clock : nat -> Z) (w : World) :
  connect (base env) = None ->
  let w' := final (checkHealth env clock w) in
  alerts w'
  = alerts w ++
    (if probe_fails env then ["ALERT: Health Check Error"]
     else if unhealthy env then ["ALERT: Health Check Failed"] else []) /\
  alertHistory (service w') = alertHistory (service w) /\
  (probe_fails env = true -> healthFile w' = healthFile w).
Proof.
  intros C. destruct (checkHealth_run env clock w C) as [w' [E [_ [_ [_ [H [A F]]]]]]].
  rewrite E. cbn. now repeat split.
Qed.

Lemma checkHealth_alerts_every_run_witness :
  let w' := final (checkHealth empty_schema_env (fun i => Z.of_nat i) fresh) in
  alerts w'
  = alerts fresh ++
    (if probe_fails empty_schema_env then ["ALERT: Health Check Error"]
     else if unhealthy empty_schema_env then ["ALERT: Health Check Failed"] else []) /\
  alertHistory (service w') = alertHistory (service fresh) /\
  (probe_fails empty_schema_env = true -> healthFile w' = healthFile fresh).
Proof.
  apply (checkHealth_alerts_every_run empty_schema_env (fun i => Z.of_nat i) fresh).
  reflexivity.
Defined.

(** With no table in the schema the run stores its two checks and alerts. *)
Example checkHealth_empty_schema :
  let w' := final (checkHealth empty_schema_env (fun i => Z.of_nat i) fresh) in
  alerts w' = ["ALERT: Health Check Failed"] /\
  map (fun run => map healthy (checks run)) (runs_of (healthFile w')) = [[true; false]] /\
  probes w' = [Connectivity; TableCount; DiskSize; Replication].
Proof. vm_compute. repeat split. Qed.

(** [storeHealthChecks] never throws.  When the file holds an array, or
    cannot be read, and the write goes through, the file then holds the
    runs it held followed by the new one, without the oldest ones beyond a
    hundred; otherwise the file stays as it is and one error is logged. *)
Theorem storeHealthChecks_outcome (env : Env) (now : Z) (healthChecks : list HealthCheck)
    (w : World) :
  exists w',
    storeHealthChecks env now healthChecks w = Return tt w' /\
    ((writeHealthFile env = None /\ healthFile w <> NotRuns /\
      service w' = service w /\
      exists dropped kept,
        healthFile w' = Runs kept /\
        runs_of (healthFile w) ++ [mkHealthRun now healthChecks] = dropped ++ kept /\
        List.length kept = Nat.min 100 (S (List.length (runs_of (healthFile w)))))
     \/
     ((writeHealthFile env <> None \/ healthFile w = NotRuns) /\
      healthFile w' = healthFile w /\
      exists error,
        service w' = add_log (LogError "Error storing health checks:" error) (service w))).
Proof.
  assert (K : forall runs : list HealthRun,
             exists dropped kept,
               (if (100 <? List.length (runs ++ [mkHealthRun now healthChecks]))%nat
                then slice_last 100 (runs ++ [mkHealthRun now healthChecks])
                else runs ++ [mkHealthRun now healthChecks]) = kept /\
               runs ++ [mkHealthRun now healthChecks] = dropped ++ kept /\
               List.length kept = Nat.min 100 (S (List.length runs))).
  { intros runs. set (pushed := runs ++ [mkHealthRun now healthChecks]).
    assert (L : List.length pushed = S (List.length runs)).
    { unfold pushed. rewrite length_app. cbn. lia. }
    destruct (100 <? List.length pushed)%nat eqn:E.
    - exists (firstn (List.length pushed - 100) pushed), (slice_last 100 pushed).
      split; [reflexivity|]. split; [apply slice_last_suffix|].
      rewrite slice_last_length. lia.
    - apply Nat.ltb_ge in E. exists [], pushed. repeat split. lia. }
  unfold storeHealthChecks, try_catch, bind, gets.
  destruct (healthFile w) as [|runs|] eqn:F; cbn.
  - destruct (writeHealthFile env) as [error|] eqn:W; cbn.
    + eexists. split; [reflexivity|]. right. cbn.
      split; [now left|]. split; [exact F|]. now exists error.
    + eexists. split; [reflexivity|]. left. cbn.
      split; [reflexivity|]. split; [discriminate|]. split; [reflexivity|].
      exists [], [mkHealthRun now healthChecks]. now repeat split.
  - destruct (writeHealthFile env) as [error|] eqn:W; cbn.
    + eexists. split; [reflexivity|]. right. cbn.
      split; [now left|]. split; [exact F|]. now exists error.
    + eexists. split; [reflexivity|]. left. cbn.
      split; [reflexivity|]. split; [discriminate|]. split; [reflexivity|].
      destruct (K runs) as [dropped [kept [K1 [K2 K3]]]].
      exists dropped, kept. split; [f_equal; exact K1|now split].
  - eexists. split; [reflexivity|]. right. cbn.
    split; [now right|]. split; [exact F|]. now eexists.
Qed.

End HealthProps.

(* ===================================================================== *)
(** * Effects: composition *)
(* ===================================================================== *)

Module EffFacts.

Import Js Eff EffViews.

Section Keeps.

Context {W X : Type} (f : W -> X).

Lemma keeps_ret {A : Type} (a : A) : keeps f (ret a).
Proof. intros w. reflexivity. Qed.

Lemma keeps_throw {A : Type} (e : Error) : keeps f (@throw W A e).
Proof. intros w. reflexivity. Qed.

Lemma keeps_exit {A : Type} (code : Z) : keeps f (@exit W A code).
Proof. intros w. reflexivity. Qed.

Lemma keeps_settle {A : Type} (r : Error + A) : keeps f (settle r).
Proof. intros w. now destruct r. Qed.

Lemma keeps_gets {A : Type} (g : W -> A) : keeps f (gets g).
Proof. intros w. reflexivity. Qed.

Lemma keeps_modify (g : W -> W) : (forall w, f (g w) = f w) -> keeps f (modify g).
Proof. intros H w. apply H. Qed.

Lemma keeps_bind {A B : Type} (m : M W A) (k : A -> M W B) :
  keeps f m -> (forall a, keeps f (k a)) -> keeps f (bind m k).
Proof.
  intros Hm Hk w. unfold bind. specialize (Hm w).
  destruct (m w) as [a s|e s|c s]; cbn in Hm |- *; [|exact Hm|exact Hm].
  now rewrite (Hk a s).
Qed.

Lemma keeps_bind_with {A B : Type} (P : A -> Prop) (m : M W A) (k : A -> M W B) :
  (forall w a w', m w = Return a w' -> P a) ->
  keeps f m -> (forall a, P a -> keeps f (k a)) -> keeps f (bind m k).
Proof.
  intros HP Hm Hk w. unfold bind. specialize (Hm w). specialize (HP w).
  destruct (m w) as [a s|e s|c s]; cbn in Hm |- *; [|exact Hm|exact Hm].
  now rewrite (Hk a (HP a s eq_refl) s).
Qed.

Lemma keeps_try_catch {A : Type} (body : M W A) (handler : Error -> M W A) :
  keeps f body -> (forall e, keeps f (handler e)) -> keeps f (try_catch body handler).
Proof.
  intros Hb Hh w. unfold try_catch. specialize (Hb w).
  destruct (body w) as [a s|e s|c s]; cbn in Hb |- *; [exact Hb| |exact Hb].
  now rewrite (Hh e s).
Qed.

Lemma keeps_for_each {A : Type} (body : nat -> A -> M W unit) (xs : list A) :
  (forall i x, keeps f (body i x)) -> forall i, keeps f (for_each body i xs).
Proof.
  intros H. induction xs as [|x xs IH]; intros i; [apply keeps_ret|].
  cbn [for_each]. apply keeps_bind; [apply H|]. intros _. apply IH.
Qed.

Lemma keeps_return {A : Type} (m : M W A) (w w' : W) (a : A) :
  keeps f m -> m w = Return a w' -> f w' = f w.
Proof. intros H E. specialize (H w). now rewrite E in H. Qed.

End Keeps.

(** ** Computations that do not throw *)

Lemma catches_ret {W A : Type} (a : A) : catches (@ret W A a).
Proof. intros w e w'. discriminate. Qed.

Lemma catches_exit {W A : Type} (code : Z) : catches (@exit W A code).
Proof. intros w e w'. discriminate. Qed.

Lemma catches_modify {W : Type} (g : W -> W) : catches (modify g).
Proof. intros w e w'. discriminate. Qed.

Lemma catches_bind {W A B : Type} (m : M W A) (k : A -> M W B) :
  catches m -> (forall a, catches (k a)) -> catches (bind m k).
Proof.
  intros Hm Hk w e w'. unfold bind. specialize (Hm w).
  destruct (m w) as [a s|e0 s|c s]; [apply Hk| |discriminate].
  intros _. now apply (Hm e0 s).
Qed.

Lemma catches_try_catch {W A : Type} (body : M W A) (handler : Error -> M W A) :
  (forall e, catches (handler e)) -> catches (try_catch body handler).
Proof.
  intros Hh w e w'. unfold try_catch.
  destruct (body w) as [a s|e0 s|c s]; [discriminate|apply Hh|discriminate].
Qed.

(** ** Computations that do not end the process *)

Lemma stays_ret {W A : Type} (a : A) : stays (@ret W A a).
Proof. intros w c w'. discriminate. Qed.

Lemma stays_throw {W A : Type} (e : Error) : stays (@throw W A e).
Proof. intros w c w'. discriminate. Qed.

Lemma stays_modify {W : Type} (g : W -> W) : stays (modify g).
Proof. intros w c w'. discriminate. Qed.

Lemma stays_gets {W A : Type} (f : W -> A) : stays (gets f).
Proof. intros w c w'. discriminate. Qed.

Lemma stays_settle {W A : Type} (r : Error + A) : stays (@settle W A r).
Proof. intros w c w'. destruct r; discriminate. Qed.

Lemma stays_bind {W A B : Type} (m : M W A) (k : A -> M W B) :
  stays m -> (forall a, stays (k a)) -> stays (bind m k).
Proof.
  intros Hm Hk w c w'. unfold bind. specialize (Hm w).
  destruct (m w) as [a s|e0 s|c0 s]; [apply Hk|discriminate|].
  intros _. now apply (Hm c0 s).
Qed.

Lemma stays_try_catch {W A : Type} (body : M W A) (handler : Error -> M W A) :
  stays body -> (forall e, stays (handler e)) -> stays (try_catch body handler).
Proof.
  intros Hb Hh w c w'. unfold try_catch. specialize (Hb w).
  destruct (body w) as [a s|e0 s|c0 s]; [discriminate|apply Hh|].
  intros _. now apply (Hb c0 s).
Qed.

Lemma stays_for_each {W A : Type} (body : nat -> A -> M W unit) (xs : list A) :
  (forall i x, stays (body i x)) -> forall i, stays (for_each body i xs).
Proof.
  intros H. induction xs as [|x xs IH]; intros i; [apply stays_ret|].
  cbn [for_each]. apply stays_bind; [apply H|]. intros _. apply IH.
Qed.

Lemma bind_exits {W A B : Type} (m : M W A) (k : A -> M W B) (w w2 : W) (code : Z) :
  bind m k w = Exit code w2 ->
  m w = Exit code w2 \/
  exists a w1, m w = Return a w1 /\ k a w1 = Exit code w2.
Proof.
  unfold bind. destruct (m w) as [a s|e s|c s]; try discriminate.
  - intros H. right. now exists a, s.
  - intros H. injection H as -> ->. now left.
Qed.

Lemma try_catch_exits {W A : Type} (body : M W A) (handler : Error -> M W A)
    (w w2 : W) (code : Z) :
  try_catch body handler w = Exit code w2 ->
  body w = Exit code w2 \/
  exists e w1, body w = Throw e w1 /\ handler e w1 = Exit code w2.
Proof.
  unfold try_catch. destruct (body w) as [a' s|e s|c s]; try discriminate.
  - intros H. right. now exists e, s.
  - intros H. now left.
Qed.

(** ** Inversion of a return *)

Lemma bind_returns {W A B : Type} (m : M W A) (k : A -> M W B) (w w2 : W) (b : B) :
  bind m k w = Return b w2 ->
  exists a w1, m w = Return a w1 /\ k a w1 = Return b w2.
Proof.
  unfold bind. destruct (m w) as [a s|e s|c s]; try discriminate.
  intros H. now exists a, s.
Qed.

Lemma try_catch_returns {W A : Type} (body : M W A) (handler : Error -> M W A)
    (w w2 : W) (a : A) :
  try_catch body handler w = Return a w2 ->
  body w = Return a w2 \/
  exists e w1, body w = Throw e w1 /\ handler e w1 = Return a w2.
Proof.
  unfold try_catch. destruct (body w) as [a' s|e s|c s]; try discriminate.
  - intros H. now left.
  - intros H. right. now exists e, s.
Qed.

Lemma final_return {W A : Type} (m : M W A) (w w' : W) (a : A) :
  m w = Return a w' -> final (m w) = w'.
Proof. intros H. now rewrite H. Qed.

End EffFacts.


(* ===================================================================== *)
(** * Backups: which calls start an external tool *)
(* ===================================================================== *)

Module BackupFacts.

Import Js Eff Backup.
Local Open Scope string_scope.

(** ** restoreBackup, by extension *)

Lemma restoreBackup_sql (env : Env) (backupPath : string) (w : World) :
  extname env backupPath = ".sql" ->
  restoreBackup env backupPath w
  = match psql env backupPath with
    | Closed code =>
        if isZero code
        then Return tt (add_output (Info ("Backup restored from: " ++ backupPath))
                          (add_spawned (Psql backupPath) w))
        else Throw (mkError ("psql exited with code " ++ decimal code))
                   (add_spawned (Psql backupPath) w)
    | SpawnError error => Throw error (add_spawned (Psql backupPath) w)
    end.
Proof.
  intros H. unfold restoreBackup, bind. rewrite H. cbn [String.eqb Ascii.eqb Bool.eqb andb].
  unfold restoreSQLBackup, bind, modify, exits.
  destruct (psql env backupPath) as [code|error]; [|reflexivity].
  destruct (isZero code); reflexivity.
Qed.

Lemma restoreBackup_zip (env : Env) (backupPath : string) (w : World) :
  extname env backupPath = ".zip" ->
  restoreBackup env backupPath w = Throw not_implemented w.
Proof.
  intros H. unfold restoreBackup, bind. rewrite H. reflexivity.
Qed.

Lemma restoreBackup_other (env : Env) (backupPath : string) (w : World) :
  extname env backupPath <> ".sql" -> extname env backupPath <> ".zip" ->
  restoreBackup env backupPath w = Throw unsupported w.
Proof.
  intros H1 H2. unfold restoreBackup, bind.
  destruct (String.eqb_spec (extname env backupPath) ".sql"); [contradiction|].
  destruct (String.eqb_spec (extname env backupPath) ".zip"); [contradiction|].
  reflexivity.
Qed.

(** ** The restore tool before its validation *)

Lemma stat_all_frame (env : Env) (options : Options) (files : list string) (w : World) :
  final (stat_all env options files w) = w.
Proof.
  induction files as [|f files IH]; [reflexivity|].
  cbn [stat_all]. unfold bind, settle.
  destruct (stat env _) as [e|stats]; [reflexivity|]. unfold ret.
  destruct (stat_all env options files w) eqn:E; cbn in IH |- *; exact IH.
Qed.

Lemma stat_all_no_exit (env : Env) (options : Options) (files : list string) (w : World)
    (code : Z) (w' : World) :
  stat_all env options files w <> Exit code w'.
Proof.
  revert w'. induction files as [|f files IH]; intros w'; [discriminate|].
  cbn [stat_all]. unfold bind, settle.
  destruct (stat env _) as [e|stats]; [discriminate|]. unfold ret.
  destruct (stat_all env options files w) as [l s|e s|c s] eqn:E; try discriminate.
  intros H. injection H as H1 H2. subst. now apply (IH w').
Qed.

Lemma listAvailableBackups_frame (env : Env) (options : Options) (w : World) :
  spawned (final (listAvailableBackups env options w)) = spawned w /\
  written (final (listAvailableBackups env options w)) = written w.
Proof.
  unfold listAvailableBackups, try_catch, bind, settle.
  destruct (readdir env _) as [e|files]; [cbn; tauto|]. unfold ret.
  pose proof (stat_all_frame env options
    (filter (fun f => startsWith "backup-" f &&
                      (endsWith ".sql" f || endsWith ".zip" f || endsWith ".gz" f)) files) w)
    as F.
  destruct (stat_all env options _ w) eqn:E; cbn in F |- *; subst; tauto.
Qed.

Lemma listAvailableBackups_returns (env : Env) (options : Options) (w : World) :
  exists backups,
    listAvailableBackups env options w
    = Return backups (final (listAvailableBackups env options w)).
Proof.
  unfold listAvailableBackups, try_catch, bind, settle.
  destruct (readdir env _) as [e|files]; [cbn; eauto|]. unfold ret.
  pose proof (stat_all_no_exit env options
    (filter (fun f => startsWith "backup-" f &&
                      (endsWith ".sql" f || endsWith ".zip" f || endsWith ".gz" f)) files) w)
    as N.
  destruct (stat_all env options _ w) as [l s|e s|c s] eqn:E; cbn; eauto.
  exfalso. now apply (N c s).
Qed.

(** Choosing the backup file starts no tool and writes no file. *)
Lemma selectBackupFile_frame (env : Env) (options : Options) (w : World) :
  spawned (final (selectBackupFile env options w)) = spawned w /\
  written (final (selectBackupFile env options w)) = written w.
Proof.
  unfold selectBackupFile. destruct (file options) as [f|].
  - unfold try_catch, bind, attempt. destruct (access env _); cbn; tauto.
  - unfold bind.
    destruct (listAvailableBackups_returns env options w) as [backups E].
    destruct (listAvailableBackups_frame env options w) as [F1 F2].
    rewrite E. destruct backups; cbn; tauto.
Qed.

(** A file of no byte does not pass the validation. *)
Lemma validateBackup_empty (env : Env) (backupPath : string)
    (stats : Stats) (w : World) :
  stat env backupPath = inr stats -> size stats = 0%Z ->
  validateBackup env backupPath w
  = Return false (add_output (Failure "Backup file is empty") w).
Proof.
  intros Hs Hz. unfold validateBackup, try_catch, bind, settle. rewrite Hs.
  unfold ret. rewrite Hz. reflexivity.
Qed.

End BackupFacts.

(* ===================================================================== *)
(** * Backups: main results *)
(* ===================================================================== *)

Module BackupClaims.

Import Js Eff Backup BackupFacts.
Local Open Scope string_scope.

(** ** Extensions *)

(** C10: [restoreBackup] goes on to a restore routine only for the
    extensions [.sql] and [.zip]; for any other extension, [.gz] included,
    it throws "Unsupported backup file format" and leaves the world as it
    was: no external tool is started.  Only a [.sql] file gets as far as
    [psql]; a [.zip] file ends in "CSV restore not implemented yet". *)
Theorem restoreBackup_by_extension (env : Env) (backupPath : string) (w : World) :
  (extname env backupPath <> ".sql" -> extname env backupPath <> ".zip" ->
   restoreBackup env backupPath w = Throw unsupported w) /\
  (extname env backupPath = ".gz" ->
   restoreBackup env backupPath w = Throw unsupported w) /\
  (extname env backupPath = ".zip" ->
   restoreBackup env backupPath w = Throw not_implemented w) /\
  (tool_started w (final (restoreBackup env backupPath w)) = true ->
   extname env backupPath = ".sql") /\
  (returns (restoreBackup env backupPath w) = true ->
   extname env backupPath = ".sql").
Proof.
  assert (Hother : extname env backupPath <> ".sql" -> extname env backupPath <> ".zip" ->
                   restoreBackup env backupPath w = Throw unsupported w)
    by apply restoreBackup_other.
  split; [exact Hother|]. split; [|split; [apply restoreBackup_zip|]].
  - intros H. apply Hother; rewrite H; discriminate.
  - split; intros H;
      destruct (string_dec (extname env backupPath) ".sql") as [E|E]; trivial;
      destruct (string_dec (extname env backupPath) ".zip") as [Z|Z].
    + rewrite (restoreBackup_zip env backupPath w Z) in H.
      unfold tool_started in H. cbn in H. now rewrite Nat.eqb_refl in H.
    + rewrite (Hother E Z) in H.
      unfold tool_started in H. cbn in H. now rewrite Nat.eqb_refl in H.
    + now rewrite (restoreBackup_zip env backupPath w Z) in H.
    + now rewrite (Hother E Z) in H.
Qed.

(** The file that [backup-database --compress] leaves for [empty_backup]. *)
Lemma restoreBackup_by_extension_witness :
  restoreBackup empty_file_env (compressedPath empty_backup) fresh
  = Throw unsupported fresh.
Proof.
  exact (proj1 (proj2 (restoreBackup_by_extension empty_file_env
                         (compressedPath empty_backup) fresh)) eq_refl).
Defined.

(** ** Empty backup files *)

(** C5 fails at the restore endpoint: for a [.sql] file of no byte the
    handler starts [psql] on the file, since nothing on its path reads the
    size of the file; when [psql] exits with 0 the answer is a success. *)
Theorem restore_endpoint_runs_psql_on_empty_file
    (env : Env) (backupPath : string) (stats : Stats) (w : World) :
  stat env backupPath = inr stats -> size stats = 0%Z ->
  extname env backupPath = ".sql" ->
  spawned (final (post_restore env backupPath w))
  = (spawned w ++ [Psql backupPath])%list /\
  (psql env backupPath = Closed 0 ->
   post_restore env backupPath w
   = Return (Ok "Database restored successfully")
       (add_output (Info ("Backup restored from: " ++ backupPath))
          (add_spawned (Psql backupPath) w))).
Proof.
  intros _ _ Hext. unfold post_restore, try_catch, bind.
  rewrite (restoreBackup_sql env backupPath w Hext).
  destruct (psql env backupPath) as [code|error].
  - destruct (isZero code) eqn:Hz.
    + split; [reflexivity|]. intros _. reflexivity.
    + split; [reflexivity|]. intros H. injection H as H. subst code. discriminate.
  - split; [reflexivity|]. discriminate.
Qed.

Lemma restore_endpoint_runs_psql_on_empty_file_witness :
  spawned (final (post_restore empty_file_env empty_backup fresh))
  = (spawned fresh ++ [Psql empty_backup])%list /\
  (psql empty_file_env empty_backup = Closed 0 ->
   post_restore empty_file_env empty_backup fresh
   = Return (Ok "Database restored successfully")
       (add_output (Info ("Backup restored from: " ++ empty_backup))
          (add_spawned (Psql empty_backup) fresh))).
Proof.
  apply (restore_endpoint_runs_psql_on_empty_file empty_file_env empty_backup
           (mkStats 0 1704067200000) fresh); reflexivity.
Defined.

(** The restore tool refuses a file of no byte before it starts any tool or
    writes any file: it ends with exit code 1 right after the validation. *)
Theorem restore_tool_rejects_empty_file
    (env : Env) (options : Options) (w w1 : World) (backupPath : string) (stats : Stats) :
  selectBackupFile env options
    (add_output (Info "Ghibli Food Database Restore Tool") w) = Return backupPath w1 ->
  stat env backupPath = inr stats -> size stats = 0%Z ->
  main env options w = Exit 1 (add_output (Failure "Backup file is empty") w1) /\
  spawned w1 = spawned w /\ written w1 = written w.
Proof.
  intros Hsel Hs Hz. split.
  - unfold main, bind, say, modify, try_catch, bind. rewrite Hsel.
    rewrite (validateBackup_empty env backupPath stats w1 Hs Hz). reflexivity.
  - pose proof (selectBackupFile_frame env options
                  (add_output (Info "Ghibli Food Database Restore Tool") w)) as F.
    rewrite Hsel in F. exact F.
Qed.

Lemma restore_tool_rejects_empty_file_witness :
  main empty_file_env restore_empty_options fresh
  = Exit 1 (add_output (Failure "Backup file is empty")
              (add_output (Info "Ghibli Food Database Restore Tool") fresh)) /\
  spawned (add_output (Info "Ghibli Food Database Restore Tool") fresh) = spawned fresh /\
  written (add_output (Info "Ghibli Food Database Restore Tool") fresh) = written fresh.
Proof.
  apply (restore_tool_rejects_empty_file empty_file_env restore_empty_options fresh _
           empty_backup (mkStats 0 1704067200000)); reflexivity.
Defined.

(** A file with SQL in it goes through the tool: a restore point is dumped
    first, then [psql] runs on the file. *)
Example restore_tool_restores_sound_file :
  returns (main sound_file_env restore_empty_options fresh) = true /\
  spawned (final (main sound_file_env restore_empty_options fresh))
  = [PgDump "/app/admin/../backup/backup-2024-01-02T00-00-00-000Z.sql" [];
     Psql empty_backup].
Proof. split; vm_compute; reflexivity. Qed.

End BackupClaims.
(* ===================================================================== *)
(** * Properties of the restore tool *)
(* ===================================================================== *)

Module RestoreProps.

Import Js Eff EffViews EffFacts Backup BackupViews BackupFacts.
Local Open Scope string_scope.
Local Open Scope list_scope.

(** ** What each step leaves alone *)

Ltac keeps_step :=
  first
    [ apply keeps_ret | apply keeps_throw | apply keeps_exit | apply keeps_settle
    | apply keeps_modify; intros; reflexivity
    | apply keeps_bind; [|intros ?]
    | apply keeps_try_catch; [|intros ?]
    | apply keeps_for_each; intros ? ?
    | match goal with
      | |- keeps _ (if ?b then _ else _) => destruct b
      | |- keeps _ (match ?x with _ => _ end) => destruct x
      end ].

Ltac keeps_all := repeat keeps_step.

Section Frames.

Context {X : Type} (f : World -> X).
Hypothesis f_output : forall l w, f (add_output l w) = f w.

Lemma keeps_say (text : string) : keeps f (say text).
Proof. apply keeps_modify. intros. apply f_output. Qed.

Lemma keeps_complain (text : string) : keeps f (complain text).
Proof. apply keeps_modify. intros. apply f_output. Qed.

Lemma keeps_attempt (r : option Error) : keeps f (attempt r).
Proof. destruct r; [apply keeps_throw|apply keeps_ret]. Qed.

Lemma keeps_stat_all (env : Env) (options : Options) (files : list string) :
  keeps f (stat_all env options files).
Proof.
  induction files as [|x files IH]; [apply keeps_ret|].
  cbn [stat_all]. apply keeps_bind; [apply keeps_settle|]. intros stats.
  apply keeps_bind; [exact IH|]. intros rest. apply keeps_ret.
Qed.

Lemma keeps_selectBackupFile (env : Env) (options : Options) :
  keeps f (selectBackupFile env options).
Proof.
  unfold selectBackupFile, listAvailableBackups.
  repeat first [apply keeps_say | apply keeps_complain | apply keeps_attempt
               | apply keeps_stat_all | keeps_step].
Qed.

Lemma keeps_validateBackup (env : Env) (backupPath : string) :
  keeps f (validateBackup env backupPath).
Proof.
  unfold validateBackup.
  repeat first [apply keeps_say | apply keeps_complain | apply keeps_attempt | keeps_step].
Qed.

Lemma keeps_confirmRestore (env : Env) (options : Options) (backupPath : string) :
  keeps f (confirmRestore env options backupPath).
Proof.
  unfold confirmRestore.
  repeat first [apply keeps_say | apply keeps_complain | apply keeps_attempt | keeps_step].
Qed.

Lemma keeps_showRestoreSummary (env : Env) :
  keeps f (showRestoreSummary env).
Proof.
  unfold showRestoreSummary.
  repeat first [apply keeps_say | apply keeps_complain | apply keeps_attempt | keeps_step].
Qed.

End Frames.

Ltac frame_all :=
  repeat first [apply keeps_say | apply keeps_complain | apply keeps_attempt
               | apply keeps_selectBackupFile | apply keeps_validateBackup
               | apply keeps_confirmRestore | apply keeps_showRestoreSummary
               | keeps_step];
  try (intros; reflexivity).

(** ** A dry run *)

(** With [--dry-run] the tool starts no external program and writes no
    file, whatever the machine answers and however the run ends. *)
Theorem dry_run_leaves_no_footprint (env : Env) (options : Options) (w : World) :
  dryRun options = true ->
  footprint (final (main env options w)) = footprint w.
Proof.
  intros H. revert w. change (keeps footprint (main env options)).
  unfold main, performRestore. rewrite H. cbn [negb]. frame_all.
Qed.

Lemma dry_run_leaves_no_footprint_witness :
  footprint (final (main sound_file_env dry_run_options fresh)) = footprint fresh.
Proof.
  apply (dry_run_leaves_no_footprint sound_file_env dry_run_options fresh).
  reflexivity.
Defined.

(** ** The confirmation *)

Lemma psql_runs_dump (file : string) (tables : list string) (w : World) :
  psql_runs (add_spawned (PgDump file tables) w) = psql_runs w.
Proof.
  unfold psql_runs. cbn. rewrite filter_app. cbn. apply app_nil_r.
Qed.

Lemma keeps_createRestorePoint (env : Env) : keeps psql_runs (createRestorePoint env).
Proof.
  unfold createRestorePoint, createBackup, createSQLBackup, exits.
  repeat first [apply keeps_say | apply keeps_complain | apply keeps_attempt
               | apply keeps_modify; intros; apply psql_runs_dump
               | keeps_step];
  try (intros; reflexivity).
Qed.

Lemma confirmRestore_declined (env : Env) (options : Options) (backupPath : string)
    (w w' : World) (ok : bool) :
  force options = false -> confirmed env = false ->
  confirmRestore env options backupPath w = Return ok w' -> ok = false.
Proof.
  intros F C. unfold confirmRestore. rewrite F, C.
  unfold bind, say, modify, settle.
  destruct (getDatabaseInfo env); cbn; [discriminate|].
  intros H. injection H as H _. now symmetry.
Qed.

(** Without [--force], when the user answers no, [psql] is not started and
    the tool does not end as a success: it exits. *)
Theorem declined_restore_runs_no_psql (env : Env) (options : Options) (w : World) :
  force options = false -> confirmed env = false ->
  psql_runs (final (main env options w)) = psql_runs w /\
  returns (main env options w) = false.
Proof.
  intros F C. split.
  - revert w. change (keeps psql_runs (main env options)).
    unfold main.
    apply keeps_bind; [frame_all|]. intros _.
    apply keeps_try_catch; [|intros e; frame_all].
    apply keeps_bind; [frame_all|]. intros backupPath.
    apply keeps_bind; [frame_all|]. intros isValid.
    destruct isValid; cbn [negb]; [|frame_all].
    apply keeps_bind.
    { destruct (dryRun options); cbn [negb];
        [apply keeps_ret|apply keeps_createRestorePoint]. }
    intros _.
    apply (keeps_bind_with psql_runs (fun ok => ok = false)).
    + intros w0 ok w'. now apply confirmRestore_declined.
    + frame_all.
    + intros ok ->. cbn [negb]. frame_all.
  - destruct (main env options w) as [[] w'|e w'|code w'] eqn:M; try reflexivity.
    exfalso. unfold main in M.
    apply bind_returns in M. destruct M as [_ [w0 [_ M]]].
    apply try_catch_returns in M. destruct M as [M|[e [w1 [_ M]]]].
    2:{ apply bind_returns in M. destruct M as [_ [w2 [_ M]]].
        apply bind_returns in M. destruct M as [_ [w3 [_ M]]]. discriminate. }
    apply bind_returns in M. destruct M as [backupPath [w1 [_ M]]].
    apply bind_returns in M. destruct M as [isValid [w2 [_ M]]].
    destruct isValid; cbn [negb] in M; [|discriminate].
    apply bind_returns in M. destruct M as [_ [w3 [_ M]]].
    apply bind_returns in M. destruct M as [ok [w4 [K M]]].
    rewrite (confirmRestore_declined _ _ _ _ _ _ F C K) in M. cbn [negb] in M.
    apply bind_returns in M. destruct M as [_ [w5 [_ M]]]. discriminate.
Qed.

Lemma declined_restore_runs_no_psql_witness :
  psql_runs (final (main declining_env ask_options fresh)) = psql_runs fresh /\
  returns (main declining_env ask_options fresh) = false.
Proof.
  apply declined_restore_runs_no_psql; reflexivity.
Defined.

Lemma createRestorePoint_dumps (env : Env) (w : World) :
  mkdir env (join env (dirname env) "../backup") = None ->
  exists w',
    createRestorePoint env w = Return tt w' /\
    spawned w'
    = spawned w ++
      [PgDump (join env (join env (dirname env) "../backup")
                 ("backup-" ++ isoTimestamp env ++ ".sql")%string) []].
Proof.
  intros H. unfold createRestorePoint, createBackup, createSQLBackup, exits, bind, say,
    complain, modify, try_catch, attempt.
  rewrite H. cbn. destruct (pg_dump env _) as [code|error]; [destruct (isZero code)|];
    cbn; eexists; split; reflexivity.
Qed.

(** The restore point comes before the question: outside a dry run, once
    the file passed the validation, [pg_dump] has been started by the time
    the user is asked, and a run that the user declines still leaves with
    exactly that one tool started. *)
Theorem declined_restore_still_dumps
    (env : Env) (options : Options) (w w1 w2 : World) (backupPath : string) :
  dryRun options = false -> force options = false -> confirmed env = false ->
  selectBackupFile env options
    (add_output (Info "Ghibli Food Database Restore Tool") w) = Return backupPath w1 ->
  validateBackup env backupPath w1 = Return true w2 ->
  mkdir env (join env (dirname env) "../backup") = None ->
  spawned (final (main env options w))
  = spawned w ++
    [PgDump (join env (join env (dirname env) "../backup")
               ("backup-" ++ isoTimestamp env ++ ".sql")%string) []].
Proof.
  intros D F C Hsel Hval Hmk.
  destruct (createRestorePoint_dumps env w2 Hmk) as [w3 [Hcrp S3]].
  assert (S1 : spawned w1 = spawned w).
  { refine (keeps_return spawned _ _ _ _ _ Hsel). frame_all. }
  assert (S2 : spawned w2 = spawned w1).
  { refine (keeps_return spawned _ _ _ _ _ Hval). frame_all. }
  pose proof (keeps_confirmRestore spawned (fun _ _ => eq_refl) env options backupPath w3)
    as K3.
  unfold main, try_catch, bind, say, modify.
  rewrite Hsel, Hval. cbn [negb]. rewrite D. cbn [negb]. rewrite Hcrp.
  destruct (confirmRestore env options backupPath w3) as [ok w4|e w4|code w4] eqn:K;
    cbn in K3.
  - rewrite (confirmRestore_declined _ _ _ _ _ _ F C K).
    cbn -[String.append]. now rewrite K3, S3, S2, S1.
  - unfold complain, modify. destruct (includes "connection" (message e));
      cbn -[String.append]; now rewrite K3, S3, S2, S1.
  - cbn -[String.append]. now rewrite K3, S3, S2, S1.
Qed.

Lemma declined_restore_still_dumps_witness :
  spawned (final (main declining_env ask_options fresh))
  = spawned fresh ++
    [PgDump (join declining_env (join declining_env (dirname declining_env) "../backup")
               ("backup-" ++ isoTimestamp declining_env ++ ".sql")%string) []].
Proof.
  apply (declined_restore_still_dumps declining_env ask_options fresh
           (add_output (Info "Ghibli Food Database Restore Tool") fresh)
           (add_output (Info "Backup file validation passed")
              (add_output (Info "Ghibli Food Database Restore Tool") fresh))
           empty_backup); reflexivity.
Defined.

(** ** A run that ends well *)

Lemma restoreBackup_returned (env : Env) (p : string) (w w' : World) :
  restoreBackup env p w = Return tt w' ->
  extname env p = ".sql" /\ psql env p = Closed 0 /\
  psql_runs w' = psql_runs w ++ [Psql p].
Proof.
  intros R. destruct (string_dec (extname env p) ".sql") as [E|E].
  - rewrite (restoreBackup_sql env p w E) in R.
    destruct (psql env p) as [code|error]; [|discriminate].
    destruct (isZero code) eqn:Z; [|discriminate].
    apply Z.eqb_eq in Z. subst code. injection R as <-.
    split; [exact E|]. split; [reflexivity|].
    unfold psql_runs. cbn. rewrite filter_app. reflexivity.
  - destruct (string_dec (extname env p) ".zip") as [Z|Z].
    + now rewrite (restoreBackup_zip env p w Z) in R.
    + now rewrite (restoreBackup_other env p w E Z) in R.
Qed.

Lemma keeps_decompressBackup (env : Env) (compressed : string) :
  keeps psql_runs (decompressBackup env compressed).
Proof. unfold decompressBackup. frame_all. Qed.

Lemma performRestore_returned (env : Env) (options : Options) (backupPath : string)
    (w w' : World) :
  dryRun options = false ->
  performRestore env options backupPath w = Return tt w' ->
  exists p,
    p = (if endsWith ".gz" backupPath then remove_first ".gz" backupPath else backupPath) /\
    extname env p = ".sql" /\ psql env p = Closed 0 /\
    psql_runs w' = psql_runs w ++ [Psql p].
Proof.
  intros D R. unfold performRestore in R. rewrite D in R.
  apply try_catch_returns in R. destruct R as [R|[e [w1 [_ R]]]].
  2:{ apply bind_returns in R. destruct R as [_ [w2 [_ R]]]. discriminate. }
  apply bind_returns in R. destruct R as [[] [w1 [T R]]].
  assert (W1 : w1 = w).
  { unfold attempt in T. destruct (testConnection env); [discriminate|].
    unfold ret in T. congruence. }
  subst w1.
  apply bind_returns in R. destruct R as [p [w2 [G R]]].
  apply bind_returns in R. destruct R as [[] [w3 [B R]]].
  apply bind_returns in R. destruct R as [[] [w4 [Y R]]].
  apply restoreBackup_returned in B. destruct B as [E [Z B]].
  exists p. split.
  - destruct (endsWith ".gz" backupPath); [|now injection G as <-].
    unfold decompressBackup in G.
    apply bind_returns in G. destruct G as [_ [w5 [_ G]]].
    apply bind_returns in G. destruct G as [_ [w6 [_ G]]].
    now injection G as <-.
  - split; [exact E|]. split; [exact Z|].
    assert (K2 : psql_runs w2 = psql_runs w).
    { destruct (endsWith ".gz" backupPath).
      - exact (keeps_return psql_runs _ _ _ _ (keeps_decompressBackup env backupPath) G).
      - now injection G as _ <-. }
    assert (K4 : psql_runs w4 = psql_runs w3).
    { refine (keeps_return psql_runs _ _ _ _ _ Y). frame_all. }
    assert (K5 : psql_runs w' = psql_runs w4).
    { refine (keeps_return psql_runs _ _ _ _ _ R). frame_all. }
    congruence.
Qed.

(** When the tool ends as a success outside a dry run, [psql] has run once,
    on the chosen file or on what was unpacked from it, the file had the
    extension [.sql], and [psql] exited with 0. *)
Theorem restore_success_means_psql_succeeded
    (env : Env) (options : Options) (w w' : World) :
  dryRun options = false ->
  main env options w = Return tt w' ->
  exists p,
    extname env p = ".sql" /\ psql env p = Closed 0 /\
    psql_runs w' = psql_runs w ++ [Psql p].
Proof.
  intros D M. unfold main in M.
  apply bind_returns in M. destruct M as [[] [w0 [S0 M]]].
  apply try_catch_returns in M. destruct M as [M|[e [w1 [_ M]]]].
  2:{ apply bind_returns in M. destruct M as [_ [w2 [_ M]]].
      apply bind_returns in M. destruct M as [_ [w3 [_ M]]]. discriminate. }
  apply bind_returns in M. destruct M as [backupPath [w1 [S1 M]]].
  apply bind_returns in M. destruct M as [isValid [w2 [S2 M]]].
  destruct isValid; cbn [negb] in M; [|discriminate].
  apply bind_returns in M. destruct M as [[] [w3 [S3 M]]].
  apply bind_returns in M. destruct M as [ok [w4 [S4 M]]].
  destruct ok; cbn [negb] in M.
  2:{ apply bind_returns in M. destruct M as [_ [w5 [_ M]]]. discriminate. }
  apply bind_returns in M. destruct M as [[] [w5 [S5 M]]].
  destruct (performRestore_returned env options backupPath w4 w5 D S5)
    as [p [_ [E [Z R]]]].
  exists p. split; [exact E|]. split; [exact Z|].
  assert (K0 : psql_runs w0 = psql_runs w).
  { refine (keeps_return psql_runs _ _ _ _ _ S0). frame_all. }
  assert (K1 : psql_runs w1 = psql_runs w0).
  { refine (keeps_return psql_runs _ _ _ _ _ S1). frame_all. }
  assert (K2 : psql_runs w2 = psql_runs w1).
  { refine (keeps_return psql_runs _ _ _ _ _ S2). frame_all. }
  assert (K3 : psql_runs w3 = psql_runs w2).
  { rewrite D in S3. cbn [negb] in S3.
    exact (keeps_return psql_runs _ _ _ _ (keeps_createRestorePoint env) S3). }
  assert (K4 : psql_runs w4 = psql_runs w3).
  { refine (keeps_return psql_runs _ _ _ _ _ S4). frame_all. }
  assert (K5 : psql_runs w' = psql_runs w5).
  { refine (keeps_return psql_runs _ _ _ _ _ M). frame_all. }
  congruence.
Qed.

Lemma restore_success_means_psql_succeeded_witness :
  exists p,
    extname sound_file_env p = ".sql" /\ psql sound_file_env p = Closed 0 /\
    psql_runs (final (main sound_file_env restore_empty_options fresh))
    = psql_runs fresh ++ [Psql p].
Proof.
  apply (restore_success_means_psql_succeeded sound_file_env restore_empty_options fresh);
    vm_compute; reflexivity.
Defined.

(** However the run goes, the rejection of no step leaves [main]: it
    returns or it ends the process. *)
Lemma main_catches (env : Env) (options : Options) : catches (main env options).
Proof.
  unfold main. apply catches_bind; [apply catches_modify|]. intros _.
  apply catches_try_catch. intros e.
  apply catches_bind; [apply catches_modify|]. intros _.
  apply catches_bind; [|intros _; apply catches_exit].
  destruct (includes "connection" (message e)); [apply catches_modify|apply catches_ret].
Qed.

(** ** Exit codes *)

Ltac stays_step :=
  first
    [ apply stays_ret | apply stays_throw | apply stays_settle | apply stays_modify
    | apply stays_bind; [|intros ?]
    | apply stays_try_catch; [|intros ?]
    | apply stays_for_each; intros ? ?
    | match goal with
      | |- stays (attempt ?r) => destruct r
      | |- stays (if ?b then _ else _) => destruct b
      | |- stays (match ?x with _ => _ end) => destruct x
      end ].

Lemma stays_validateBackup (env : Env) (backupPath : string) :
  stays (validateBackup env backupPath).
Proof. unfold validateBackup, say, complain. repeat stays_step. Qed.

Lemma stays_createRestorePoint (env : Env) : stays (createRestorePoint env).
Proof.
  unfold createRestorePoint, createBackup, createSQLBackup, exits, say, complain.
  repeat stays_step.
Qed.

Lemma stays_confirmRestore (env : Env) (options : Options) (backupPath : string) :
  stays (confirmRestore env options backupPath).
Proof. unfold confirmRestore, say. repeat stays_step. Qed.

Lemma stays_performRestore (env : Env) (options : Options) (backupPath : string) :
  stays (performRestore env options backupPath).
Proof.
  unfold performRestore, decompressBackup, restoreBackup, restoreSQLBackup,
    restoreCSVBackup, showRestoreSummary, exits, say, complain.
  repeat stays_step.
Qed.

Lemma selectBackupFile_exit (env : Env) (options : Options) (w w' : World) (code : Z) :
  selectBackupFile env options w = Exit code w' -> code = 1%Z.
Proof.
  unfold selectBackupFile. destruct (file options) as [f|].
  - unfold try_catch, bind, attempt, complain, modify.
    destruct (access env _); cbn; [|discriminate]. intros H. now injection H as <-.
  - unfold bind. destruct (listAvailableBackups_returns env options w) as [backups E].
    rewrite E. destruct backups; cbn; [|discriminate]. intros H. now injection H as <-.
Qed.

Lemma confirmRestore_refused (env : Env) (options : Options) (backupPath : string)
    (w w' : World) :
  confirmRestore env options backupPath w = Return false w' ->
  force options = false /\ confirmed env = false.
Proof.
  unfold confirmRestore. destruct (force options); [discriminate|].
  unfold bind, say, modify, settle.
  destruct (getDatabaseInfo env); cbn; [discriminate|].
  intros H. injection H as H _. now split.
Qed.

(** The tool never lets a rejection out: it returns or ends the process,
    and it ends it with 1, or with 0 when the user, asked without
    [--force], answered no.  Every failure gives 1. *)
Theorem restore_tool_exit_codes (env : Env) (options : Options) (w : World) :
  match main env options w with
  | Return _ _ => True
  | Throw _ _ => False
  | Exit code _ =>
      code = 1%Z \/ (code = 0%Z /\ force options = false /\ confirmed env = false)
  end.
Proof.
  destruct (main env options w) as [[] w'|e w'|code w'] eqn:M; [exact I| |].
  { exact (main_catches env options w e w' M). }
  unfold main in M.
  apply bind_exits in M. destruct M as [M|[[] [w0 [_ M]]]]; [discriminate|].
  apply try_catch_exits in M. destruct M as [M|[e [w1 [_ M]]]].
  2:{ left. unfold bind, complain, modify in M.
      destruct (includes "connection" (message e)); cbn in M; now injection M as <-. }
  apply bind_exits in M. destruct M as [M|[backupPath [w1 [_ M]]]].
  { left. exact (selectBackupFile_exit _ _ _ _ _ M). }
  apply bind_exits in M. destruct M as [M|[isValid [w2 [_ M]]]].
  { exfalso. exact (stays_validateBackup _ _ _ _ _ M). }
  destruct isValid; cbn [negb] in M; [|left; now injection M as <-].
  apply bind_exits in M. destruct M as [M|[[] [w3 [_ M]]]].
  { exfalso. destruct (dryRun options); cbn [negb] in M; [discriminate|].
    exact (stays_createRestorePoint _ _ _ _ M). }
  apply bind_exits in M. destruct M as [M|[ok [w4 [K M]]]].
  { exfalso. exact (stays_confirmRestore _ _ _ _ _ _ M). }
  destruct ok; cbn [negb] in M.
  - exfalso. apply bind_exits in M. destruct M as [M|[[] [w5 [_ M]]]]; [|discriminate].
    exact (stays_performRestore _ _ _ _ _ _ M).
  - right. apply confirmRestore_refused in K.
    unfold bind, say, modify in M. cbn in M. injection M as <-. now split.
Qed.

(** ** The list of backups *)

Lemma insert_by_created_perm (b : BackupFile) (l : list BackupFile) :
  Permutation (insert_by_created b l) (b :: l).
Proof.
  induction l as [|b' l IH]; [apply Permutation_refl|]. cbn.
  destruct (created b' <=? created b)%Z; [apply Permutation_refl|].
  apply perm_trans with (b' :: b :: l); [now apply perm_skip|apply perm_swap].
Qed.

Lemma sort_by_created_perm (l : list BackupFile) : Permutation (sort_by_created l) l.
Proof.
  induction l as [|b l IH]; [apply perm_nil|]. cbn.
  apply perm_trans with (b :: sort_by_created l);
    [apply insert_by_created_perm|now apply perm_skip].
Qed.

Lemma insert_by_created_sorted (b : BackupFile) (l : list BackupFile) :
  StronglySorted newer_first l -> StronglySorted newer_first (insert_by_created b l).
Proof.
  induction l as [|b' l IH]; intros S; cbn.
  - constructor; constructor.
  - inversion S as [|? ? S' F]; subst.
    destruct (created b' <=? created b)%Z eqn:E.
    + apply Z.leb_le in E. constructor; [exact S|].
      constructor; [exact E|]. revert F. apply Forall_impl.
      intros c H. unfold newer_first in *. lia.
    + apply Z.leb_gt in E. constructor; [now apply IH|].
      apply (Permutation_Forall (Permutation_sym (insert_by_created_perm b l))).
      constructor; [unfold newer_first; lia|exact F].
Qed.

Lemma sort_by_created_sorted (l : list BackupFile) :
  StronglySorted newer_first (sort_by_created l).
Proof.
  induction l as [|b l IH]; [constructor|]. cbn. now apply insert_by_created_sorted.
Qed.

Lemma stat_all_reports (env : Env) (options : Options) (files : list string)
    (w w' : World) (backups : list BackupFile) :
  Forall (fun f => listed f = true) files ->
  stat_all env options files w = Return backups w' ->
  map name backups = files /\ Forall (reported env options) backups.
Proof.
  revert backups w'. induction files as [|f files IH]; intros backups w' L H.
  - cbn in H. injection H as <- _. now split.
  - cbn [stat_all] in H. inversion L as [|? ? Lf L']; subst.
    apply bind_returns in H. destruct H as [stats [w1 [H1 H]]].
    apply bind_returns in H. destruct H as [rest [w2 [H2 H]]].
    injection H as <- _.
    unfold settle in H1. destruct (stat env _) as [e|stats'] eqn:E; [discriminate|].
    injection H1 as -> <-.
    destruct (IH rest w2 L' H2) as [N R]. split; [cbn; now rewrite N|].
    constructor; [|exact R]. unfold reported. cbn. repeat split; [exact Lf|].
    now exists stats.
Qed.

Lemma stat_all_succeeds (env : Env) (options : Options) (files : list string) (w : World) :
  (forall f, In f files -> exists stats, stat env (join env (backupDir env options) f) = inr stats) ->
  exists backups, stat_all env options files w = Return backups w.
Proof.
  induction files as [|f files IH]; intros H; [now exists []|].
  destruct (H f (or_introl eq_refl)) as [stats E].
  destruct IH as [rest R]; [intros g Hg; apply H; now right|].
  cbn [stat_all]. unfold bind, settle. rewrite E. cbn. rewrite R. eexists. reflexivity.
Qed.

(** [listAvailableBackups] always returns.  What it returns is sorted by
    date of creation, newest first; every entry is a file of the directory
    whose name starts with [backup-] and ends with [.sql], [.zip] or [.gz],
    with the date that [stat] gave.  When the directory cannot be read the
    list is empty; when every such file can be examined the list holds them
    all, each once. *)
Theorem listAvailableBackups_newest_first (env : Env) (options : Options) (w : World) :
  exists backups w',
    listAvailableBackups env options w = Return backups w' /\
    StronglySorted newer_first backups /\
    Forall (reported env options) backups /\
    match readdir env (backupDir env options) with
    | inl _ => backups = []
    | inr files =>
        (forall f, In f (filter listed files) ->
                   exists stats, stat env (join env (backupDir env options) f) = inr stats) ->
        Permutation (map name backups) (filter listed files)
    end.
Proof.
  unfold listAvailableBackups, try_catch. unfold bind at 1. unfold settle at 1.
  destruct (readdir env (backupDir env options)) as [e|files].
  { cbn. eexists _, _. split; [reflexivity|]. repeat split; constructor. }
  cbn [ret]. fold (listed). change (fun f : string => listed f) with listed.
  assert (L : Forall (fun f => listed f = true) (filter listed files)).
  { apply Forall_forall. intros f Hf. now apply filter_In in Hf. }
  unfold bind.
  destruct (stat_all env options (filter listed files) w) as [backups w1|e w1|code w1] eqn:S.
  - destruct (stat_all_reports env options _ w w1 backups L S) as [N R].
    eexists _, _. split; [reflexivity|].
    split; [apply sort_by_created_sorted|]. split.
    + apply (Permutation_Forall (Permutation_sym (sort_by_created_perm backups))). exact R.
    + intros _. rewrite <- N. apply Permutation_map. apply sort_by_created_perm.
  - cbn. eexists _, _. split; [reflexivity|]. split; [constructor|]. split; [constructor|].
    intros H. destruct (stat_all_succeeds env options _ w H) as [backups S'].
    rewrite S in S'. discriminate.
  - exfalso. exact (stat_all_no_exit env options _ w code w1 S).
Qed.

(** ** Compressed backups *)

Lemma length_append (a b : string) :
  String.length (a ++ b) = (String.length a + String.length b)%nat.
Proof. induction a as [|c a IH]; [reflexivity|]. cbn. now rewrite IH. Qed.

Lemma substring_append (a b : string) :
  substring (String.length a) (String.length b) (a ++ b) = b.
Proof.
  induction a as [|c a IH]; cbn; [|exact IH].
  induction b as [|c b IH]; cbn; [reflexivity|].
  destruct b; cbn in *; now rewrite ?IH.
Qed.

Lemma endsWith_append (a b : string) : endsWith b (a ++ b) = true.
Proof.
  unfold endsWith. rewrite length_append.
  replace (String.length a + String.length b - String.length b)%nat
    with (String.length a) by lia.
  rewrite substring_append, String.eqb_refl.
  rewrite andb_true_r. apply Nat.leb_le. lia.
Qed.

Lemma prefix_gz_append (p : string) :
  p <> "" -> String.prefix ".gz" p = false -> String.prefix ".gz" (p ++ ".gz") = false.
Proof.
  intros N H.
  destruct p as [|c [|d [|e p]]]; [now destruct N| | |].
  3:{ change (String.prefix ".gz" (String c (String d (String e p)) ++ ".gz"))
        with (if ascii_dec "." c
              then if ascii_dec "g" d
                   then if ascii_dec "z" e then String.prefix "" (p ++ ".gz") else false
                   else false
              else false).
      change (String.prefix ".gz" (String c (String d (String e p))))
        with (if ascii_dec "." c
              then if ascii_dec "g" d
                   then if ascii_dec "z" e then String.prefix "" p else false
                   else false
              else false) in H.
      destruct (ascii_dec "." c); [|reflexivity].
      destruct (ascii_dec "g" d); [|reflexivity].
      destruct (ascii_dec "z" e); [|reflexivity].
      now destruct p. }
  - change (String.prefix ".gz" (String c "" ++ ".gz"))
      with (if ascii_dec "." c then String.prefix "gz" ".gz" else false).
    now destruct (ascii_dec "." c).
  - change (String.prefix ".gz" (String c (String d "") ++ ".gz"))
      with (if ascii_dec "." c
            then if ascii_dec "g" d then String.prefix "z" ".gz" else false
            else false).
    destruct (ascii_dec "." c); [|reflexivity]. now destruct (ascii_dec "g" d).
Qed.

Lemma remove_first_append (p : string) :
  includes ".gz" p = false -> remove_first ".gz" (compressedPath p) = p.
Proof.
  unfold compressedPath. induction p as [|c p IH]; intros H; [reflexivity|].
  cbn [includes] in H. apply orb_false_iff in H. destruct H as [H1 H2].
  change ((String c p) ++ ".gz")%string with (String c (p ++ ".gz")).
  cbn [remove_first].
  change (String c (p ++ ".gz")) with ((String c p) ++ ".gz")%string.
  rewrite (prefix_gz_append (String c p)); [|discriminate|exact H1].
  cbn [String.append]. f_equal. now apply IH.
Qed.

(** What [backup-database --compress] leaves, [restore-database] takes
    back: for a path without [.gz] in it, on whose name [psql] succeeds,
    the restore of the compressed file unpacks to the path the dump had
    and runs [psql] on it. *)
Theorem compressed_backup_restores_under_its_name
    (env : Env) (options : Options) (backupPath : string) (w : World) :
  dryRun options = false ->
  includes ".gz" backupPath = false ->
  extname env backupPath = ".sql" ->
  testConnection env = None ->
  gunzip env (compressedPath backupPath) = None ->
  psql env backupPath = Closed 0 ->
  let w' := final (performRestore env options (compressedPath backupPath) w) in
  returns (performRestore env options (compressedPath backupPath) w) = true /\
  spawned w' = spawned w ++ [Psql backupPath] /\
  written w' = written w ++ [backupPath].
Proof.
  intros D G E T U P.
  assert (R : exists w1,
             performRestore env options (compressedPath backupPath) w = Return tt w1 /\
             spawned w1 = spawned w ++ [Psql backupPath] /\
             written w1 = written w ++ [backupPath]).
  { unfold performRestore, try_catch. unfold bind at 1. rewrite T. cbn [attempt ret].
    rewrite D. unfold compressedPath at 1. rewrite endsWith_append.
    unfold bind at 1. unfold decompressBackup. rewrite (remove_first_append _ G).
    unfold bind at 1. rewrite U. cbn [attempt ret]. unfold bind at 1. cbn [modify].
    cbn [ret]. unfold bind at 1.
    rewrite (restoreBackup_sql env backupPath _ E), P. cbn [isZero Z.eqb].
    unfold bind at 1. cbn [say modify].
    pose proof (keeps_showRestoreSummary footprint (fun _ _ => eq_refl) env) as K.
    match goal with
    | |- context [showRestoreSummary env ?x] =>
        specialize (K x);
        assert (Rs : exists w2, showRestoreSummary env x = Return tt w2)
    end.
    { unfold showRestoreSummary, try_catch, bind, settle, say, modify.
      destruct (getDatabaseInfo env); cbn; [eauto|].
      destruct (getTableStatistics env) as [e|tables]; cbn; [eauto|].
      match goal with
      | |- context [for_each ?b ?i tables ?x] =>
          assert (F : exists w3, for_each b i tables x = Return tt w3)
      end.
      { generalize 0%nat.
        match goal with |- forall n, exists w3, for_each ?b n tables ?x = _ => generalize x end.
        induction tables as [|t tables IH]; intros x n; [cbn; eauto|].
        cbn [for_each]. unfold bind. cbn. apply IH. }
      destruct F as [w3 ->]. eauto. }
    destruct Rs as [w2 Rs]. unfold bind. rewrite Rs in K |- *. cbn in K.
    eexists. split; [reflexivity|]. unfold footprint in K. cbn in K.
    injection K as K1 K2. now split. }
  destruct R as [w1 [R [S W]]]. cbn. rewrite R. cbn. now repeat split.
Qed.

Lemma compressed_backup_restores_under_its_name_witness :
  let w' := final (performRestore sound_file_env restore_empty_options
                     (compressedPath empty_backup) fresh) in
  returns (performRestore sound_file_env restore_empty_options
             (compressedPath empty_backup) fresh) = true /\
  spawned w' = spawned fresh ++ [Psql empty_backup] /\
  written w' = written fresh ++ [empty_backup].
Proof.
  apply (compressed_backup_restores_under_its_name sound_file_env restore_empty_options
           empty_backup fresh); reflexivity.
Defined.

(** [replace('.gz', '')] takes out the first [.gz] of the path, which need
    not be the extension: below a directory with [.gz] in its name the file
    is unpacked into another directory, under a name that still ends in
    [.gz], which [restoreBackup] then refuses. *)
Example decompressBackup_first_occurrence :
  remove_first ".gz" "/srv/dumps.gz/backup-1.sql.gz" = "/srv/dumps/backup-1.sql.gz" /\
  performRestore sound_file_env restore_empty_options "/srv/dumps.gz/backup-1.sql.gz" fresh
  = Throw unsupported
      (add_output (Failure "Restore failed: Unsupported backup file format")
         (add_written "/srv/dumps/backup-1.sql.gz" fresh)).
Proof. split; vm_compute; reflexivity. Qed.

End RestoreProps.

(* ===================================================================== *)
(** * Properties of the backup tool *)
(* ===================================================================== *)

Module BackupToolProps.

Import Js Eff EffViews EffFacts Backup BackupTool.
Local Open Scope string_scope.
Local Open Scope list_scope.

(** ** Frames *)

Lemma keeps_lift {X A : Type} (f : World -> X) (m : M Backup.World A) :
  (forall s w, f (set_manager s w) = f w) -> keeps f (lift m).
Proof.
  intros H w. unfold lift. destruct (m (manager w)); cbn; apply H.
Qed.

Lemma keeps_lifted {X A : Type} (g : Backup.World -> X) (m : M Backup.World A) :
  keeps g m -> keeps (fun w => g (manager w)) (lift m).
Proof.
  intros H w. unfold lift. specialize (H (manager w)).
  destruct (m (manager w)); cbn in *; exact H.
Qed.

Lemma stays_lift {A : Type} (m : M Backup.World A) : stays m -> stays (lift m).
Proof.
  intros H w c w'. unfold lift. specialize (H (manager w)).
  destruct (m (manager w)) as [a s|e s|c0 s]; try discriminate.
  intros _. now apply (H c0 s).
Qed.

Lemma fs_stat_cases (env : Env) (p : string) (w : World) :
  (exists stats, fs_stat env p w = Return stats w /\
                 stat (base env) p = inr stats /\
                 existsb (String.eqb p) (unlinked w) = false) \/
  (exists e, fs_stat env p w = Throw e w).
Proof.
  unfold fs_stat, bind, gets.
  destruct (existsb (String.eqb p) (unlinked w)) eqn:G; [right; eauto|].
  unfold settle. destruct (stat (base env) p) as [e|stats]; [right; eauto|].
  left. exists stats. now repeat split.
Qed.

(** For the format [sql], [createBackup_of] is the [createBackup] of
    [Backup], run on the manager's part of the world. *)
Lemma createBackup_of_sql (env : Env) (tables : list string) (w : World) :
  createBackup_of env tables "sql" w = lift (Backup.createBackup (base env) tables) w.
Proof.
  unfold createBackup_of, Backup.createBackup, lift, bind, try_catch, attempt.
  cbn [String.eqb Ascii.eqb Bool.eqb].
  destruct (mkdir (base env) _); cbn; [reflexivity|].
  unfold createSQLBackup, bind, modify, exits.
  destruct (pg_dump (base env) _) as [code|error]; cbn; [|reflexivity].
  destruct (isZero code); reflexivity.
Qed.

(** ** cleanOldBackups *)

Lemma clean_deletes (env : Env) (options : Options) (files : list string) :
  forall (n t : Z) (w : World),
    match clean env options files n t w with
    | Exit _ _ => False
    | Return _ w' | Throw _ w' =>
        manager w' = manager w /\
        exists deleted,
          unlinked w'
          = unlinked w ++ map (join (base env) (backupDir env options)) deleted /\
          Forall (fun f => In f files /\ old_backup env options f = true) deleted
    end.
Proof.
  induction files as [|f files IH]; intros n t w.
  { cbn. split; [reflexivity|]. exists []. cbn. now rewrite app_nil_r. }
  assert (Weaken : forall deleted,
             Forall (fun g => In g files /\ old_backup env options g = true) deleted ->
             Forall (fun g => In g (f :: files) /\ old_backup env options g = true) deleted).
  { intros deleted. apply Forall_impl. intros g [G1 G2]. split; [now right|exact G2]. }
  assert (Skip : forall n t,
             match clean env options files n t w with
             | Exit _ _ => False
             | Return _ w' | Throw _ w' =>
                 manager w' = manager w /\
                 exists deleted,
                   unlinked w'
                   = unlinked w ++ map (join (base env) (backupDir env options)) deleted /\
                   Forall (fun g => In g (f :: files) /\ old_backup env options g = true)
                          deleted
             end).
  { intros n' t'. specialize (IH n' t' w).
    destruct (clean env options files n' t' w) as [r w'|e w'|c w']; [| |exact IH];
      destruct IH as [M [deleted [U F]]]; (split; [exact M|]);
      exists deleted; (split; [exact U|now apply Weaken]). }
  cbn [clean]. destruct (startsWith "backup-" f) eqn:P; [|apply Skip].
  unfold bind at 1.
  destruct (fs_stat_cases env (join (base env) (backupDir env options) f) w)
    as [[stats [E [S G]]]|[e E]]; rewrite E.
  2:{ split; [reflexivity|]. exists []. cbn. now rewrite app_nil_r. }
  destruct (birthtime stats <? cutoffDate env)%Z eqn:B; [|apply Skip].
  unfold bind at 1. unfold fs_unlink.
  destruct (unlink env _) as [e|].
  { cbn. split; [reflexivity|]. exists []. cbn. now rewrite app_nil_r. }
  cbn [modify].
  specialize (IH (n + 1)%Z (t + size stats)%Z
                (add_unlinked (join (base env) (backupDir env options) f) w)).
  assert (O : old_backup env options f = true).
  { unfold old_backup. now rewrite P, S. }
  destruct (clean env options files _ _ _) as [r w'|e w'|c w']; [| |exact IH];
    destruct IH as [M [deleted [U F]]]; (split; [exact M|]);
    exists (f :: deleted); cbn [map]; cbn in U; rewrite U, <- app_assoc;
    (split; [reflexivity|]);
    (constructor; [split; [now left|exact O]|now apply Weaken]).
Qed.

(** [cleanOldBackups] never throws and starts no tool.  What it unlinks are
    entries of the output directory whose name starts with [backup-] and
    whose date of creation lies before the cutoff, whatever their
    extension; an error on the way ends the cleaning with what was
    unlinked so far. *)
Theorem cleanOldBackups_deletes_only_old_backups
    (env : Env) (options : Options) (w : World) :
  exists w' deleted,
    cleanOldBackups env options w = Return tt w' /\
    dumps w' = dumps w /\
    unlinked w' = unlinked w ++ map (join (base env) (backupDir env options)) deleted /\
    Forall (expired env options) deleted.
Proof.
  unfold cleanOldBackups, try_catch. unfold bind at 1. unfold lift at 1, settle at 1.
  unfold expired, entries.
  destruct (readdir (base env) (backupDir env options)) as [e|files].
  { cbn. eexists _, []. cbn. rewrite app_nil_r. now repeat split. }
  cbn [ret]. replace (set_manager (manager w) w) with w by now destruct w.
  unfold bind at 1.
  pose proof (clean_deletes env options files 0 0 w) as C.
  assert (Old : forall deleted,
             Forall (fun f => In f files /\ old_backup env options f = true) deleted ->
             Forall (fun f => In f files /\ startsWith "backup-" f = true /\
                     exists stats,
                       stat (base env) (join (base env) (backupDir env options) f)
                       = inr stats /\
                       (birthtime stats < cutoffDate env)%Z) deleted).
  { intros deleted. apply Forall_impl. intros f [I O]. unfold old_backup in O.
    apply andb_true_iff in O. destruct O as [P O]. split; [exact I|]. split; [exact P|].
    destruct (stat (base env) _) as [e|stats] eqn:S; [discriminate|].
    exists stats. split; [reflexivity|]. now apply Z.ltb_lt. }
  destruct (clean env options files 0 0 w) as [r w1|e w1|c w1]; [| |destruct C];
    destruct C as [M [deleted [U F]]]; cbn; eexists _, deleted;
    (split; [reflexivity|]); unfold dumps; cbn; rewrite M;
    (split; [reflexivity|]); (split; [exact U|now apply Old]).
Qed.

Lemma clean_complete (env : Env) (options : Options) (files : list string) :
  forall (n t : Z) (w : World),
    (forall f, In f files ->
               unlink env (join (base env) (backupDir env options) f) = None) ->
    (forall f, In f files -> startsWith "backup-" f = true ->
               exists stats,
                 stat (base env) (join (base env) (backupDir env options) f) = inr stats) ->
    NoDup (map (join (base env) (backupDir env options)) files) ->
    (forall f, In f files ->
               existsb (String.eqb (join (base env) (backupDir env options) f))
                       (unlinked w) = false) ->
    exists r w',
      clean env options files n t w = Return r w' /\
      manager w' = manager w /\
      unlinked w'
      = unlinked w ++
        map (join (base env) (backupDir env options)) (filter (old_backup env options) files) /\
      fst r = (n + Z.of_nat (List.length (filter (old_backup env options) files)))%Z.
Proof.
  induction files as [|f files IH]; intros n t w Hu Hs Hd Hg.
  { cbn. eexists _, _. split; [reflexivity|]. cbn. rewrite app_nil_r.
    repeat split. lia. }
  inversion Hd as [|? ? Hn Hd']; subst.
  assert (Hu' : forall g, In g files ->
                  unlink env (join (base env) (backupDir env options) g) = None)
    by (intros g G; apply Hu; now right).
  assert (Hs' : forall g, In g files -> startsWith "backup-" g = true ->
                  exists stats,
                    stat (base env) (join (base env) (backupDir env options) g) = inr stats)
    by (intros g G; apply Hs; now right).
  assert (Hg' : forall g, In g files ->
                  existsb (String.eqb (join (base env) (backupDir env options) g))
                          (unlinked w) = false)
    by (intros g G; apply Hg; now right).
  cbn [clean filter].
  destruct (startsWith "backup-" f) eqn:P.
  2:{ assert (O : old_backup env options f = false)
        by (unfold old_backup; now rewrite P).
      rewrite O. apply IH; assumption. }
  destruct (Hs f (or_introl eq_refl) P) as [stats S].
  assert (O : old_backup env options f = (birthtime stats <? cutoffDate env)%Z)
    by (unfold old_backup; now rewrite P, S).
  rewrite O. unfold bind at 1. unfold fs_stat, bind, gets.
  rewrite (Hg f (or_introl eq_refl)). unfold settle. rewrite S. cbn [ret].
  destruct (birthtime stats <? cutoffDate env)%Z eqn:B.
  2:{ apply IH; assumption. }
  unfold fs_unlink. rewrite (Hu f (or_introl eq_refl)). cbn [modify].
  destruct (IH (n + 1)%Z (t + size stats)%Z
              (add_unlinked (join (base env) (backupDir env options) f) w) Hu' Hs' Hd')
    as [r [w' [E [M [U N]]]]].
  { intros g G. cbn [unlinked add_unlinked]. rewrite existsb_app, (Hg' g G).
    cbn. rewrite orb_false_r. apply String.eqb_neq. intros X. apply Hn.
    rewrite <- X. now apply in_map. }
  exists r, w'. split; [exact E|]. split; [exact M|]. split.
  - rewrite U. cbn. now rewrite <- app_assoc.
  - rewrite N. cbn [List.length]. lia.
Qed.

(** On a directory that can be read, whose backups can all be examined and
    unlinked, [cleanOldBackups] unlinks every old backup, in the order of
    the directory, and reports their number. *)
Theorem cleanOldBackups_deletes_every_old_backup
    (env : Env) (options : Options) (files : list string) (w : World) :
  readdir (base env) (backupDir env options) = inr files ->
  NoDup (map (join (base env) (backupDir env options)) files) ->
  (forall f, In f files ->
             unlink env (join (base env) (backupDir env options) f) = None) ->
  (forall f, In f files -> startsWith "backup-" f = true ->
             exists stats,
               stat (base env) (join (base env) (backupDir env options) f) = inr stats) ->
  (forall f, In f files ->
             existsb (String.eqb (join (base env) (backupDir env options) f))
                     (unlinked w) = false) ->
  let old := filter (old_backup env options) files in
  let w' := final (cleanOldBackups env options w) in
  unlinked w' = unlinked w ++ map (join (base env) (backupDir env options)) old /\
  exists freed,
    lines w'
    = lines w ++
      [Info ("Cleaned " ++ decimal (Z.of_nat (List.length old)) ++ " old backups (freed " ++
             formatBytes env freed ++ ")")].
Proof.
  intros R Hd Hu Hs Hg. cbn zeta.
  destruct (clean_complete env options files 0 0 w Hu Hs Hd Hg) as [r [w1 [E [M [U N]]]]].
  assert (X : cleanOldBackups env options w
              = Return tt
                  (set_manager
                     (add_output
                        (Info ("Cleaned " ++ decimal (fst r) ++ " old backups (freed " ++
                               formatBytes env (snd r) ++ ")"))
                        (manager w1)) w1)).
  { unfold cleanOldBackups, try_catch, bind. unfold lift at 1, settle.
    rewrite R. cbn [ret]. replace (set_manager (manager w) w) with w by now destruct w.
    rewrite E. reflexivity. }
  rewrite X, N. cbn [final unlinked set_manager lines manager output add_output Z.add].
  rewrite M. split; [exact U|]. now exists (snd r).
Qed.

Lemma cleanOldBackups_deletes_every_old_backup_witness :
  let old := filter (old_backup sound_env plain_options)
               ["backup-2024-01-01T00-00-00-000Z.sql"] in
  let w' := final (cleanOldBackups sound_env plain_options fresh) in
  unlinked w'
  = unlinked fresh ++ map (join (base sound_env) (backupDir sound_env plain_options)) old /\
  exists freed,
    lines w'
    = lines fresh ++
      [Info ("Cleaned " ++ decimal (Z.of_nat (List.length old)) ++ " old backups (freed " ++
             formatBytes sound_env freed ++ ")")].
Proof.
  apply (cleanOldBackups_deletes_every_old_backup sound_env plain_options
           ["backup-2024-01-01T00-00-00-000Z.sql"] fresh).
  - reflexivity.
  - repeat constructor. intros [].
  - intros f _. reflexivity.
  - intros f _ _. eexists. reflexivity.
  - intros f _. reflexivity.
Defined.

(** ** Compression *)

Ltac tool_stays :=
  repeat first
    [ apply stays_ret | apply stays_throw | apply stays_settle | apply stays_modify
    | apply stays_gets | apply stays_lift
    | apply stays_bind; [|intros ?]
    | apply stays_try_catch; [|intros ?]
    | apply stays_for_each; intros ? ?
    | match goal with
      | |- stays (attempt ?r) => destruct r
      | |- stays (if ?b then _ else _) => destruct b
      | |- stays (match ?x with _ => _ end) => destruct x
      end ].

Lemma stays_say (text : string) : stays (say text).
Proof. unfold say, Backup.say. tool_stays. Qed.

Lemma stays_complain (text : string) : stays (complain text).
Proof. unfold complain, Backup.complain. tool_stays. Qed.

Lemma stays_fs_stat (env : Env) (p : string) : stays (fs_stat env p).
Proof. unfold fs_stat. tool_stays. Qed.

Lemma stays_createBackup_of (env : Env) (tables : list string) (format : string) :
  stays (createBackup_of env tables format).
Proof.
  unfold createBackup_of, createSQLBackup, exits, say, complain, Backup.say,
    Backup.complain.
  tool_stays.
Qed.

Lemma stays_listBackups (env : Env) (options : Options) : stays (listBackups env options).
Proof.
  unfold listBackups, fs_stat, say, complain, Backup.say, Backup.complain. tool_stays.
Qed.

Lemma stays_clean (env : Env) (options : Options) (files : list string) (n t : Z) :
  stays (clean env options files n t).
Proof.
  intros w c w' H. pose proof (clean_deletes env options files n t w) as C.
  now rewrite H in C.
Qed.

Lemma stays_cleanOldBackups (env : Env) (options : Options) :
  stays (cleanOldBackups env options).
Proof.
  unfold cleanOldBackups.
  apply stays_try_catch; [|intros e; apply stays_complain].
  apply stays_bind; [tool_stays|]. intros files.
  apply stays_bind; [apply stays_clean|]. intros counts. apply stays_say.
Qed.

Lemma unlinked_say (text : string) (w w' : World) :
  say text w = Return tt w' -> unlinked w' = unlinked w.
Proof. unfold say, lift, Backup.say, modify. intros H. now injection H as <-. Qed.

Lemma compressBackup_cases (env : Env) (backupPath : string) (w : World) :
  match compressBackup env backupPath w with
  | Return _ w' => existsb (String.eqb backupPath) (unlinked w') = true
  | Throw _ _ => True
  | Exit code _ => code = 1%Z
  end.
Proof.
  unfold compressBackup, uncaught.
  destruct (readStream env backupPath); [reflexivity|].
  destruct (writeStream env _); [exact I|].
  unfold bind, try_catch, lift, modify, fs_unlink.
  destruct (unlink env backupPath); cbn; [reflexivity|].
  rewrite existsb_app. cbn. now rewrite String.eqb_refl, orb_true_r.
Qed.

Lemma createBackup_compressed (env : Env) (options : Options) (w : World) :
  compress options = true -> format options = "sql" ->
  match createBackup env options w with
  | Return _ _ => False
  | Throw _ _ => True
  | Exit code _ => code = 1%Z
  end.
Proof.
  intros C F.
  destruct (createBackup env options w) as [p w'|e w'|code w'] eqn:H; [|exact I|];
    unfold createBackup in H; rewrite C, F in H; cbn [andb String.eqb Ascii.eqb Bool.eqb] in H.
  - apply try_catch_returns in H. destruct H as [H|[e [w1 [_ H]]]].
    2:{ apply bind_returns in H. destruct H as [_ [w2 [_ H]]]. discriminate. }
    apply bind_returns in H. destruct H as [_ [w1 [_ H]]].
    apply bind_returns in H. destruct H as [backupPath [w2 [_ H]]].
    apply bind_returns in H. destruct H as [[] [w3 [Z H]]].
    apply bind_returns in Z. destruct Z as [z [w3' [Z Z']]].
    injection Z' as ->.
    apply bind_returns in H. destruct H as [[] [w4 [S H]]].
    apply bind_returns in H. destruct H as [stats [w5 [T _]]].
    pose proof (compressBackup_cases env backupPath w2) as G. rewrite Z in G.
    apply unlinked_say in S. unfold fs_stat, bind, gets in T. rewrite S, G in T.
    discriminate.
  - apply try_catch_exits in H. destruct H as [H|[e [w1 [_ H]]]].
    2:{ exfalso. revert H. apply stays_bind; [apply stays_complain|].
        intros _. apply stays_throw. }
    apply bind_exits in H. destruct H as [H|[[] [w1 [_ H]]]].
    { exfalso. revert H. tool_stays. }
    apply bind_exits in H. destruct H as [H|[backupPath [w2 [_ H]]]].
    { exfalso. revert H. apply stays_createBackup_of. }
    apply bind_exits in H. destruct H as [H|[[] [w3 [_ H]]]].
    { apply bind_exits in H. destruct H as [H|[z [w3 [_ H]]]]; [|discriminate].
      pose proof (compressBackup_cases env backupPath w2) as G. now rewrite H in G. }
    exfalso. revert H.
    apply stays_bind; [apply stays_say|]. intros _.
    apply stays_bind; [apply stays_fs_stat|]. intros stats.
    apply stays_bind; [apply stays_say|]. intros _.
    apply stays_bind; [apply stays_say|]. intros _. apply stays_ret.
Qed.

Lemma ensureBackupDirectory_exit (env : Env) (options : Options) (w w' : World) (code : Z) :
  ensureBackupDirectory env options w = Exit code w' -> code = 1%Z.
Proof.
  unfold ensureBackupDirectory, try_catch, bind, lift, attempt, say, complain,
    Backup.say, Backup.complain, modify.
  destruct (mkdir (base env) _); cbn; [|discriminate].
  intros H. now injection H as <-.
Qed.

Lemma scheduleBackups_exit (env : Env) (cronExpression : string) (w w' : World) (code : Z) :
  scheduleBackups env cronExpression w = Exit code w' -> code = 1%Z.
Proof.
  unfold scheduleBackups, bind, lift, say, complain, Backup.say, Backup.complain, modify.
  destruct (validCron env cronExpression); cbn; [discriminate|].
  intros H. now injection H as <-.
Qed.

Lemma main_compressed (env : Env) (options : Options) (w : World) :
  compress options = true -> format options = "sql" -> schedule options = None ->
  returns (createBackup env options w) = false /\
  exists w', main env options w = Exit 1 w'.
Proof.
  intros C F N. split.
  { pose proof (createBackup_compressed env options w C F) as H.
    now destruct (createBackup env options w). }
  destruct (main env options w) as [[] w'|e w'|code w'] eqn:M; unfold main in M;
    rewrite N in M.
  - exfalso. apply bind_returns in M. destruct M as [[] [w0 [_ M]]].
    apply try_catch_returns in M. destruct M as [M|[e [w1 [_ M]]]].
    2:{ apply bind_returns in M. destruct M as [_ [w2 [_ M]]]. discriminate. }
    apply bind_returns in M. destruct M as [[] [w1 [_ M]]].
    apply bind_returns in M. destruct M as [[] [w2 [_ M]]].
    apply bind_returns in M. destruct M as [[] [w3 [_ M]]].
    apply bind_returns in M. destruct M as [p [w4 [M _]]].
    pose proof (createBackup_compressed env options w3 C F) as H. now rewrite M in H.
  - exfalso. revert M. apply catches_bind; [unfold say, lift, Backup.say, modify;
      intros ? ? ?; discriminate|].
    intros _. apply catches_try_catch. intros e0.
    apply catches_bind; [|intros _; apply catches_exit].
    unfold complain, lift, Backup.complain, modify. intros ? ? ?. discriminate.
  - exists w'. f_equal.
    apply bind_exits in M. destruct M as [M|[[] [w0 [_ M]]]].
    { exfalso. revert M. apply stays_say. }
    apply try_catch_exits in M. destruct M as [M|[e [w1 [_ M]]]].
    2:{ apply bind_exits in M. destruct M as [M|[[] [w2 [_ M]]]].
        - exfalso. revert M. apply stays_complain.
        - now injection M as <-. }
    apply bind_exits in M. destruct M as [M|[[] [w1 [_ M]]]].
    { now apply ensureBackupDirectory_exit in M. }
    apply bind_exits in M. destruct M as [M|[[] [w2 [_ M]]]].
    { exfalso. revert M. apply stays_listBackups. }
    apply bind_exits in M. destruct M as [M|[[] [w3 [_ M]]]].
    { exfalso. revert M. apply stays_say. }
    apply bind_exits in M. destruct M as [M|[p [w4 [_ M]]]].
    { pose proof (createBackup_compressed env options w3 C F) as H. now rewrite M in H. }
    exfalso. revert M. apply stays_cleanOldBackups.
Qed.

(** With [--compress] and the format [sql] the tool never reports a
    backup: [createBackup] looks at the dump after [compressBackup] has
    unlinked it, so that it throws when the compression went well, and
    does not return either when it went wrong.  When the dump can be read
    and unlinked, the run of [main] ends with exit code 1 whatever else
    happens, and the old backups are not cleaned. *)
Theorem compressed_backup_always_fails (env : Env) (options : Options) (w : World) :
  compress options = true -> format options = "sql" -> schedule options = None ->
  returns (createBackup env options w) = false /\
  ((forall p, readStream env p = None) -> (forall p, unlink env p = None) ->
   exists w', main env options w = Exit 1 w').
Proof.
  intros C F N.
  destruct (main_compressed env options w C F N) as [R [w' M]].
  split; [exact R|]. intros _ _. now exists w'.
Qed.

Lemma compressed_backup_always_fails_witness :
  returns (createBackup sound_env compress_options fresh) = false /\
  ((forall p, readStream sound_env p = None) -> (forall p, unlink sound_env p = None) ->
   exists w', main sound_env compress_options fresh = Exit 1 w').
Proof.
  apply compressed_backup_always_fails; reflexivity.
Defined.

(** On a machine where the dump and the compression succeed, the
    compressed file is written, the dump is unlinked, and the tool reports
    a success and then the failure. *)
Example compressed_backup_is_there :
  let w' := final (createBackup sound_env compress_options fresh) in
  written (manager w') = ["/app/admin/../backup/backup-2024-01-02T00-00-00-000Z.sql.gz"] /\
  unlinked w' = ["/app/admin/../backup/backup-2024-01-02T00-00-00-000Z.sql"] /\
  skipn 2 (lines w')
  = [Info "Backup created successfully: /app/admin/../backup/backup-2024-01-02T00-00-00-000Z.sql";
     Failure ("Backup failed: ENOENT: no such file or directory, stat " ++
              "'/app/admin/../backup/backup-2024-01-02T00-00-00-000Z.sql'")].
Proof. vm_compute. repeat split. Qed.

(** ** A run that ends well *)

Ltac dumps_step :=
  first
    [ apply keeps_ret | apply keeps_throw | apply keeps_exit | apply keeps_settle
    | apply keeps_gets
    | apply keeps_modify; intros; reflexivity
    | apply (keeps_lifted spawned)
    | apply keeps_bind; [|intros ?]
    | apply keeps_try_catch; [|intros ?]
    | apply keeps_for_each; intros ? ?
    | match goal with
      | |- keeps _ (attempt ?r) => destruct r
      | |- keeps _ (if ?b then _ else _) => destruct b
      | |- keeps _ (match ?x with _ => _ end) => destruct x
      end ].

Lemma dumps_say (text : string) : keeps dumps (say text).
Proof. unfold say, Backup.say, dumps. repeat dumps_step. Qed.

Lemma dumps_complain (text : string) : keeps dumps (complain text).
Proof. unfold complain, Backup.complain, dumps. repeat dumps_step. Qed.

Lemma dumps_fs_stat (env : Env) (p : string) : keeps dumps (fs_stat env p).
Proof. unfold fs_stat, dumps. repeat dumps_step. Qed.

Lemma dumps_ensureBackupDirectory (env : Env) (options : Options) :
  keeps dumps (ensureBackupDirectory env options).
Proof.
  unfold ensureBackupDirectory, say, complain, Backup.say, Backup.complain, dumps.
  repeat dumps_step.
Qed.

Lemma dumps_listBackups (env : Env) (options : Options) :
  keeps dumps (listBackups env options).
Proof.
  unfold listBackups, fs_stat, say, complain, Backup.say, Backup.complain, dumps.
  repeat dumps_step.
Qed.

Lemma dumps_cleanOldBackups (env : Env) (options : Options) :
  keeps dumps (cleanOldBackups env options).
Proof.
  unfold cleanOldBackups.
  apply keeps_try_catch; [|intros e; apply dumps_complain].
  apply keeps_bind; [unfold dumps; repeat dumps_step|]. intros files.
  apply keeps_bind; [|intros counts; apply dumps_say].
  intros w. pose proof (clean_deletes env options files 0 0 w) as C. unfold dumps.
  destruct (clean env options files 0 0 w) as [r w'|e w'|c w']; [| |destruct C];
    destruct C as [M _]; cbn; now rewrite M.
Qed.

Lemma createBackup_of_returned (env : Env) (tables : list string) (w w' : World)
    (backupPath : string) :
  createBackup_of env tables "sql" w = Return backupPath w' ->
  backupPath
  = join (base env) (join (base env) (dirname (base env)) "../backup")
         ("backup-" ++ isoTimestamp (base env) ++ ".sql") /\
  pg_dump (base env) backupPath = Closed 0 /\
  dumps w' = dumps w ++ [PgDump backupPath tables].
Proof.
  unfold createBackup_of. cbn [String.eqb Ascii.eqb Bool.eqb].
  set (p := join (base env) (join (base env) (dirname (base env)) "../backup")
                 ("backup-" ++ isoTimestamp (base env) ++ "." ++ "sql")).
  intros H.
  apply bind_returns in H. destruct H as [[] [w1 [A H]]].
  apply try_catch_returns in H. destruct H as [H|[e [w2 [_ H]]]].
  2:{ apply bind_returns in H. destruct H as [_ [w3 [_ H]]]. discriminate. }
  apply bind_returns in H. destruct H as [[] [w2 [B H]]].
  apply bind_returns in H. destruct H as [[] [w3 [S H]]].
  injection H as <- <-.
  assert (D1 : dumps w1 = dumps w).
  { refine (keeps_return dumps _ _ _ _ _ A). unfold dumps. repeat dumps_step. }
  assert (D3 : dumps w3 = dumps w2).
  { exact (keeps_return dumps _ _ _ _ (dumps_say _) S). }
  unfold lift, createSQLBackup, bind, modify, exits in B.
  destruct (pg_dump (base env) p) as [code|error] eqn:P; [|discriminate].
  destruct (isZero code) eqn:Z; [|discriminate].
  apply Z.eqb_eq in Z. subst code. cbn in B. injection B as <-.
  split; [reflexivity|]. split; [reflexivity|].
  rewrite D3. unfold dumps in *. cbn. now rewrite D1.
Qed.

(** When the tool ends as a success, it was run without [--compress] (or
    with a format other than [sql]); for the format [sql], [pg_dump] has
    run once and exited with 0, on a file of the directory [../backup]
    beside the database manager, wherever [--output] points. *)
Theorem backup_success_means_dump_succeeded
    (env : Env) (options : Options) (w w' : World) :
  schedule options = None -> format options = "sql" ->
  main env options w = Return tt w' ->
  compress options = false /\
  pg_dump (base env)
    (join (base env) (join (base env) (dirname (base env)) "../backup")
          ("backup-" ++ isoTimestamp (base env) ++ ".sql")) = Closed 0 /\
  dumps w'
  = dumps w ++
    [PgDump (join (base env) (join (base env) (dirname (base env)) "../backup")
                  ("backup-" ++ isoTimestamp (base env) ++ ".sql"))
            (tables options)].
Proof.
  intros N F M. unfold main in M. rewrite N in M.
  apply bind_returns in M. destruct M as [[] [w0 [S0 M]]].
  apply try_catch_returns in M. destruct M as [M|[e [w1 [_ M]]]].
  2:{ apply bind_returns in M. destruct M as [_ [w2 [_ M]]]. discriminate. }
  apply bind_returns in M. destruct M as [[] [w1 [S1 M]]].
  apply bind_returns in M. destruct M as [[] [w2 [S2 M]]].
  apply bind_returns in M. destruct M as [[] [w3 [S3 M]]].
  apply bind_returns in M. destruct M as [p [w4 [S4 M]]].
  assert (C : compress options = false).
  { destruct (compress options) eqn:C; [|reflexivity].
    pose proof (createBackup_compressed env options w3 C F) as H. now rewrite S4 in H. }
  split; [exact C|].
  assert (D0 : dumps w0 = dumps w) by exact (keeps_return dumps _ _ _ _ (dumps_say _) S0).
  assert (D1 : dumps w1 = dumps w0)
    by exact (keeps_return dumps _ _ _ _ (dumps_ensureBackupDirectory _ _) S1).
  assert (D2 : dumps w2 = dumps w1)
    by exact (keeps_return dumps _ _ _ _ (dumps_listBackups _ _) S2).
  assert (D3 : dumps w3 = dumps w2) by exact (keeps_return dumps _ _ _ _ (dumps_say _) S3).
  assert (D5 : dumps w' = dumps w4)
    by exact (keeps_return dumps _ _ _ _ (dumps_cleanOldBackups _ _) M).
  unfold createBackup in S4. rewrite C, F in S4. cbn [andb] in S4.
  apply try_catch_returns in S4. destruct S4 as [S4|[e [w5 [_ S4]]]].
  2:{ apply bind_returns in S4. destruct S4 as [_ [w6 [_ S4]]]. discriminate. }
  apply bind_returns in S4. destruct S4 as [[] [w5 [T1 S4]]].
  apply bind_returns in S4. destruct S4 as [q [w6 [T2 S4]]].
  apply bind_returns in S4. destruct S4 as [[] [w7 [T3 S4]]].
  apply bind_returns in S4. destruct S4 as [[] [w8 [T4 S4]]].
  apply bind_returns in S4. destruct S4 as [stats [w9 [T5 S4]]].
  apply bind_returns in S4. destruct S4 as [[] [w10 [T6 S4]]].
  apply bind_returns in S4. destruct S4 as [[] [w11 [T7 S4]]].
  injection S4 as _ <-.
  destruct (createBackup_of_returned env _ _ _ _ T2) as [Q [P D6]].
  subst q. split; [exact P|].
  assert (E5 : dumps w5 = dumps w3).
  { refine (keeps_return dumps _ _ _ _ _ T1). unfold dumps. repeat dumps_step. }
  assert (E7 : w7 = w6) by (unfold ret in T3; congruence).
  assert (E8 : dumps w8 = dumps w7) by exact (keeps_return dumps _ _ _ _ (dumps_say _) T4).
  assert (E9 : dumps w9 = dumps w8)
    by exact (keeps_return dumps _ _ _ _ (dumps_fs_stat _ _) T5).
  assert (E10 : dumps w10 = dumps w9)
    by exact (keeps_return dumps _ _ _ _ (dumps_say _) T6).
  assert (E11 : dumps w11 = dumps w10)
    by exact (keeps_return dumps _ _ _ _ (dumps_say _) T7).
  subst w7. congruence.
Qed.

Lemma backup_success_means_dump_succeeded_witness :
  compress plain_options = false /\
  pg_dump (base sound_env)
    (join (base sound_env) (join (base sound_env) (dirname (base sound_env)) "../backup")
          ("backup-" ++ isoTimestamp (base sound_env) ++ ".sql")) = Closed 0 /\
  dumps (final (main sound_env plain_options fresh))
  = dumps fresh ++
    [PgDump (join (base sound_env)
                  (join (base sound_env) (dirname (base sound_env)) "../backup")
                  ("backup-" ++ isoTimestamp (base sound_env) ++ ".sql"))
            (tables plain_options)].
Proof.
  apply (backup_success_means_dump_succeeded sound_env plain_options fresh);
    vm_compute; reflexivity.
Defined.

End BackupToolProps.

(* ===================================================================== *)
(** * Properties of the database manager *)
(* ===================================================================== *)

Module ManagerProps.

Import Js Eff EffViews EffFacts Manager.
Local Open Scope string_scope.
Local Open Scope list_scope.

(** ** executeQuery *)

Lemma executeQuery_cases (env : Env) (start finish : Z) (query : jsstring)
    (params : list jsstring) (w : World) :
  executeQuery env start finish query params w
  = if (max <=? outstanding w)%nat then Throw connectionTimeout w
    else match connect env with
         | Some error => Throw error w
         | None =>
             let w' := add_released (add_sent (Text query params) (add_acquired w)) in
             match answer env (Text query params) with
             | inl error => Throw error w'
             | inr result =>
                 Return (mkQueryResult (rows result) (rowCount result) (finish - start)
                           (firstn 100 query ++
                            (if (100 <? List.length query)%nat then units "..." else [])))
                        w'
             end
         end.
Proof.
  unfold executeQuery, bind, pool_connect, bind, gets.
  destruct (max <=? outstanding w)%nat; [reflexivity|].
  destruct (connect env); [reflexivity|]. cbn [modify].
  unfold try_finally, bind, client_query, bind, modify, settle.
  destruct (answer env (Text query params)); reflexivity.
Qed.

Lemma outstanding_round (s : Statement) (w : World) :
  outstanding (add_released (add_sent s (add_acquired w))) = outstanding w.
Proof. reflexivity. Qed.

(** [executeQuery] gives its client back however the query ends.  It sends
    the query as it is, and echoes at most its first hundred code units,
    followed by three dots when there were more. *)
Theorem executeQuery_releases_and_echoes (env : Env) (start finish : Z) (query : jsstring)
    (params : list jsstring) (w : World) :
  outstanding (final (executeQuery env start finish query params w)) = outstanding w /\
  forall r w',
    executeQuery env start finish query params w = Return r w' ->
    sent w' = sent w ++ [Text query params] /\
    (List.length (query_echo r) <= 103)%nat /\
    firstn 100 (query_echo r) = firstn 100 query /\
    ((List.length query <= 100)%nat -> query_echo r = query) /\
    ((100 < List.length query)%nat -> skipn 100 (query_echo r) = units "...").
Proof.
  rewrite executeQuery_cases. split.
  - destruct (max <=? outstanding w)%nat; [reflexivity|].
    destruct (connect env); [reflexivity|].
    cbn zeta. destruct (answer env _); reflexivity.
  - intros r w'. destruct (max <=? outstanding w)%nat; [discriminate|].
    destruct (connect env); [discriminate|].
    cbn zeta. destruct (answer env _) as [e|result]; [discriminate|].
    assert (F : List.length (firstn 100 query) = Nat.min 100 (List.length query))
      by apply length_firstn.
    assert (G : firstn 100 (firstn 100 query) = firstn 100 query)
      by (rewrite firstn_firstn; reflexivity).
    assert (K : (List.length query <= 100)%nat -> firstn 100 query = query)
      by (intros; now apply firstn_all2).
    remember (firstn 100 query) as head eqn:Hh.
    intros H. injection H as <- <-. unfold query_echo.
    split; [reflexivity|].
    destruct (100 <? List.length query)%nat eqn:L.
    + apply Nat.ltb_lt in L.
      split; [rewrite length_app, F; cbn [List.length]; lia|].
      split.
      { rewrite firstn_app, F, G.
        replace (100 - Nat.min 100 (List.length query))%nat with 0%nat by lia.
        cbn [firstn]. now rewrite app_nil_r. }
      split; [lia|]. intros _.
      rewrite skipn_app, F.
      replace (100 - Nat.min 100 (List.length query))%nat with 0%nat by lia.
      rewrite (skipn_all2 head) by lia. reflexivity.
    + apply Nat.ltb_ge in L. rewrite app_nil_r.
      split; [rewrite F; lia|]. split; [exact G|]. split; [exact K|]. lia.
Qed.

(** ** testConnection *)

Lemma testConnection_cases (env : Env) (w : World) :
  testConnection env w
  = if (max <=? outstanding w)%nat
    then Throw connectionTimeout
           (add_log (Failure "Database connection failed:" connectionTimeout) w)
    else match connect env with
         | Some error =>
             Throw error (add_log (Failure "Database connection failed:" error) w)
         | None =>
             match answer env SelectNow with
             | inl error =>
                 Throw error (add_log (Failure "Database connection failed:" error)
                                (add_sent SelectNow (add_acquired w)))
             | inr _ =>
                 Return true (add_log (Info "Database connection successful")
                                (add_released (add_sent SelectNow (add_acquired w))))
             end
         end.
Proof.
  unfold testConnection, try_catch, bind, pool_connect, bind, gets.
  destruct (max <=? outstanding w)%nat; [reflexivity|].
  destruct (connect env); [reflexivity|]. cbn [modify].
  unfold client_query, bind, modify, settle.
  destruct (answer env SelectNow); reflexivity.
Qed.

(** [testConnection] releases its client after the query, outside any
    [finally]: when the server is reached and the query fails, the client
    stays checked out. *)
Theorem testConnection_leaks_client (env : Env) (error : Error) (w : World) :
  connect env = None -> answer env SelectNow = inl error ->
  (released w <= acquired w)%nat -> (outstanding w < max)%nat ->
  exists w',
    testConnection env w = Throw error w' /\
    outstanding w' = S (outstanding w) /\
    (released w' <= acquired w')%nat.
Proof.
  intros C A I B. rewrite testConnection_cases, C, A.
  apply Nat.leb_gt in B. rewrite B.
  eexists. split; [reflexivity|]. unfold outstanding.
  cbn [acquired released add_log add_sent add_acquired]. split; lia.
Qed.

Lemma testConnection_leaks_client_witness :
  exists w',
    testConnection no_clock_env fresh
    = Throw (mkError "canceling statement due to statement timeout") w' /\
    outstanding w' = S (outstanding fresh) /\
    (released w' <= acquired w')%nat.
Proof.
  apply testConnection_leaks_client; try reflexivity; unfold fresh, outstanding, max;
    cbn; lia.
Defined.

Lemma testConnections_leak (env : Env) (error : Error) (n : nat) :
  connect env = None -> answer env SelectNow = inl error ->
  forall w, (released w <= acquired w)%nat -> (outstanding w + n <= max)%nat ->
            outstanding (testConnections env n w) = (outstanding w + n)%nat.
Proof.
  intros C A. induction n as [|n IH]; intros w I B; cbn [testConnections]; [lia|].
  assert (B' : (outstanding w < max)%nat) by lia.
  rewrite testConnection_cases, C, A.
  apply Nat.leb_gt in B'. rewrite B'. cbn [final].
  rewrite IH; unfold outstanding in *;
    cbn [acquired released add_log add_sent add_acquired]; lia.
Qed.

(** Twenty such failures of [testConnection] leave no client in the pool:
    from then on [executeQuery] rejects with the timeout of the pool, and
    sends nothing, though the server would answer. *)
Theorem failed_connection_tests_exhaust_pool
    (env : Env) (error : Error) (start finish : Z) (query : jsstring)
    (params : list jsstring) (w : World) :
  connect env = None -> answer env SelectNow = inl error ->
  acquired w = released w ->
  let w' := testConnections env max w in
  executeQuery env start finish query params w' = Throw connectionTimeout w'.
Proof.
  intros C A E. cbn zeta. rewrite executeQuery_cases.
  rewrite (testConnections_leak env error max C A w); unfold outstanding; try lia.
  rewrite E, Nat.sub_diag. cbn [Nat.add]. now rewrite Nat.leb_refl.
Qed.

Lemma failed_connection_tests_exhaust_pool_witness :
  let w' := testConnections no_clock_env max fresh in
  executeQuery no_clock_env 0 1 (units "SELECT 1") [] w' = Throw connectionTimeout w'.
Proof.
  apply (failed_connection_tests_exhaust_pool no_clock_env
           (mkError "canceling statement due to statement timeout")); reflexivity.
Defined.

(** ** optimizeDatabase *)

Lemma keeps_client_query {X : Type} (f : World -> X) (env : Env) (s : Statement) :
  (forall s w, f (add_sent s w) = f w) -> keeps f (client_query env s).
Proof.
  intros H. unfold client_query. apply keeps_bind; [now apply keeps_modify|].
  intros _. apply keeps_settle.
Qed.

Lemma vacuum_clients (env : Env) (tables : list Row) (results : list jsstring) :
  keeps clients (vacuum env tables results).
Proof.
  revert results. induction tables as [|table tables IH]; intros results;
    [apply keeps_ret|].
  cbn [vacuum]. apply keeps_bind; [now apply keeps_client_query|]. intros _. apply IH.
Qed.

Lemma vacuum_cases (env : Env) (tables : list Row) :
  forall (results : list jsstring) (w : World),
    match vacuum env tables results w with
    | Return rs w' =>
        sent w' = sent w ++ map vacuuming tables /\
        rs = results ++ map (fun table => units "Optimized table: " ++ field "tablename" table)
                            tables /\
        forallb (answers env) (map vacuuming tables) = true
    | Throw _ w' =>
        (exists k, sent w' = sent w ++ firstn k (map vacuuming tables)) /\
        forallb (answers env) (map vacuuming tables) = false
    | Exit _ _ => False
    end.
Proof.
  induction tables as [|table tables IH]; intros results w.
  { cbn. rewrite !app_nil_r. now repeat split. }
  cbn [vacuum map forallb]. unfold bind at 1. unfold client_query, bind, modify, settle.
  fold (vacuuming table).
  assert (A1 : answers env (vacuuming table)
               = match answer env (vacuuming table) with inr _ => true | inl _ => false end)
    by reflexivity.
  rewrite A1.
  destruct (answer env (vacuuming table)) as [e|r].
  { cbn. split; [|reflexivity]. exists 1%nat. reflexivity. }
  cbn [ret andb].
  specialize (IH (results ++ [units "Optimized table: " ++ field "tablename" table])
                (add_sent (vacuuming table) w)).
  destruct (vacuum env tables _ _) as [rs w'|e w'|c w']; [| |exact IH].
  - destruct IH as [S [R A]]. cbn in S. rewrite S, R, <- !app_assoc. now repeat split.
  - destruct IH as [[k S] A]. split; [|exact A]. exists (Datatypes.S k).
    cbn in S. rewrite S, <- app_assoc. reflexivity.
Qed.

Lemma optimizeDatabase_cases (env : Env) (tables : Result) (w : World) :
  connect env = None -> (outstanding w < max)%nat ->
  answer env ListTables = inr tables ->
  optimizeDatabase env w
  = match vacuum env (rows tables) [] (add_sent ListTables (add_acquired w)) with
    | Return rs w2 =>
        match answer env Analyze with
        | inr _ => Return (rs ++ [units "Updated database statistics"])
                          (add_released (add_sent Analyze w2))
        | inl e => Throw e (add_released (add_sent Analyze w2))
        end
    | Throw e w2 => Throw e (add_released w2)
    | Exit c w2 => Exit c w2
    end.
Proof.
  intros C B L.
  unfold optimizeDatabase. unfold bind at 1. unfold pool_connect, bind, gets.
  apply Nat.leb_gt in B. rewrite B, C. cbn [modify].
  unfold try_finally, bind. unfold client_query at 1.
  unfold bind, modify, settle. rewrite L. cbn [ret].
  destruct (vacuum env (rows tables) [] _) as [rs w2|e w2|c w2]; try reflexivity.
  unfold client_query, bind, modify, settle.
  destruct (answer env Analyze); reflexivity.
Qed.

(** [optimizeDatabase] gives its client back however it ends.  It sends
    the tables query, then one [VACUUM ANALYZE] for each table in the
    order of the answer, with the name as the server gave it, then
    [ANALYZE]; it stops at the first statement that fails, and returns
    exactly when the server answered them all. *)
Theorem optimizeDatabase_outcome (env : Env) (tables : Result) (w : World) :
  connect env = None -> (outstanding w < max)%nat ->
  answer env ListTables = inr tables ->
  let o := optimizeDatabase env w in
  outstanding (final o) = outstanding w /\
  (exists k, sent (final o) = sent w ++ firstn k (optimizing (rows tables))) /\
  (returns o = forallb (answers env) (optimizing (rows tables))) /\
  forall results w',
    o = Return results w' ->
    sent w' = sent w ++ optimizing (rows tables) /\
    results
    = map (fun table => units "Optimized table: " ++ field "tablename" table) (rows tables)
      ++ [units "Updated database statistics"].
Proof.
  intros C B L. cbn zeta. rewrite (optimizeDatabase_cases env tables w C B L).
  unfold optimizing. cbn [forallb].
  assert (A0 : answers env ListTables = true) by (unfold answers; now rewrite L).
  rewrite A0. cbn [andb].
  rewrite forallb_app. cbn [forallb]. rewrite andb_true_r.
  assert (A2 : answers env Analyze
               = match answer env Analyze with inr _ => true | inl _ => false end)
    by reflexivity.
  rewrite A2.
  set (w1 := add_sent ListTables (add_acquired w)).
  pose proof (vacuum_cases env (rows tables) [] w1) as V.
  pose proof (vacuum_clients env (rows tables) [] w1) as K.
  destruct (vacuum env (rows tables) [] w1) as [rs w2|e w2|c w2]; [| |destruct V];
    cbn in K; injection K as K1 K2.
  - destruct V as [S [R A]]. rewrite A. cbn [andb].
    assert (T : sent w2 ++ [Analyze]
                = sent w ++ ListTables :: map vacuuming (rows tables) ++ [Analyze]).
    { rewrite S. subst w1. cbn. now rewrite <- !app_assoc. }
    destruct (answer env Analyze) as [e|r]; cbn [final returns].
    + split; [unfold outstanding; cbn; now rewrite K1, K2|].
      split; [|split; [reflexivity|discriminate]].
      exists (Datatypes.S (Datatypes.S (List.length (rows tables)))).
      cbn [sent add_released add_sent]. rewrite T. rewrite firstn_all2; [reflexivity|].
      cbn [List.length]. rewrite length_app, length_map. cbn [List.length]. lia.
    + split; [unfold outstanding; cbn; now rewrite K1, K2|].
      split; [|split; [reflexivity|]].
      * exists (Datatypes.S (Datatypes.S (List.length (rows tables)))).
        cbn [sent add_released add_sent]. rewrite T. rewrite firstn_all2; [reflexivity|].
        cbn [List.length]. rewrite length_app, length_map. cbn [List.length]. lia.
      * intros results w' H. injection H as <- <-. cbn [sent add_released add_sent].
        split; [exact T|]. now rewrite R.
  - destruct V as [[k S] A]. rewrite A. cbn [andb final returns].
    split; [unfold outstanding; cbn; now rewrite K1, K2|].
    split; [|split; [reflexivity|discriminate]].
    exists (Datatypes.S (Nat.min k (List.length (rows tables)))).
    cbn [sent add_released]. rewrite S. subst w1.
    cbn [sent add_sent add_acquired]. rewrite <- app_assoc. cbn [app].
    rewrite firstn_cons. f_equal. f_equal.
    rewrite firstn_app, length_map.
    replace (Nat.min k (List.length (rows tables)) - List.length (rows tables))%nat
      with 0%nat by lia.
    rewrite firstn_O, app_nil_r.
    destruct (Nat.le_ge_cases k (List.length (rows tables))) as [H|H].
    + now rewrite Nat.min_l.
    + rewrite Nat.min_r by lia.
      rewrite !firstn_all2; try reflexivity; rewrite length_map; lia.
Qed.

Lemma optimizeDatabase_outcome_witness :
  let o := optimizeDatabase two_tables_env fresh in
  let tables := mkResult [[("tablename", units "books")]; [("tablename", units "users")]] 2 in
  outstanding (final o) = outstanding fresh /\
  (exists k, sent (final o) = sent fresh ++ firstn k (optimizing (rows tables))) /\
  (returns o = forallb (answers two_tables_env) (optimizing (rows tables))) /\
  forall results w',
    o = Return results w' ->
    sent w' = sent fresh ++ optimizing (rows tables) /\
    results
    = map (fun table => units "Optimized table: " ++ field "tablename" table) (rows tables)
      ++ [units "Updated database statistics"].
Proof.
  apply (optimizeDatabase_outcome two_tables_env
           (mkResult [[("tablename", units "books")]; [("tablename", units "users")]] 2)
           fresh); try reflexivity.
  unfold outstanding, max. cbn. lia.
Defined.

(** ** POST /api/database/query *)

(** The query endpoint always answers, and leaves the pool as it found it.
    For a query that the filter refuses it answers 400 and touches
    nothing: no client is taken, nothing is sent.  For a query that the
    filter accepts it answers 200 after sending the query as it is, or 500
    with the message of the error of the pool or of the server, which it
    also logs. *)
Theorem post_query_contained (env : Env) (start finish : Z) (query : jsstring)
    (params : list jsstring) (w : World) :
  exists r w',
    post_query env start finish query params w = Return r w' /\
    outstanding w' = outstanding w /\
    (Admin.isQuerySafe query = false -> Admin.status r = 400%Z /\ w' = w) /\
    (Admin.isQuerySafe query = true ->
     (Admin.status r = 200%Z /\ sent w' = sent w ++ [Text query params] /\ log w' = log w)
     \/
     (Admin.status r = 500%Z /\
      exists error,
        Admin.payload r = Admin.ErrorBody (message error) /\
        log w' = log w ++ [Failure "Error executing query:" error])).
Proof.
  unfold post_query, try_catch.
  destruct (Admin.isQuerySafe query) eqn:Safe; cbn [negb].
  2:{ eexists _, _. split; [reflexivity|]. split; [reflexivity|].
      split; [now split|discriminate]. }
  unfold bind. rewrite executeQuery_cases.
  destruct (max <=? outstanding w)%nat.
  { cbn. eexists _, _. split; [reflexivity|]. split; [reflexivity|].
    split; [discriminate|]. intros _. right. split; [reflexivity|].
    exists connectionTimeout. now split. }
  destruct (connect env) as [error|].
  { cbn. eexists _, _. split; [reflexivity|]. split; [reflexivity|].
    split; [discriminate|]. intros _. right. split; [reflexivity|].
    exists error. now split. }
  cbn zeta. destruct (answer env (Text query params)) as [error|result].
  - cbn. eexists _, _. split; [reflexivity|]. split; [reflexivity|].
    split; [discriminate|]. intros _. right. split; [reflexivity|].
    exists error. now split.
  - cbn. eexists _, _. split; [reflexivity|]. split; [reflexivity|].
    split; [discriminate|]. intros _. left. now repeat split.
Qed.

(** The three-line [UPDATE] without [WHERE] that the filter accepts goes
    to the server as it is. *)
Example post_query_sends_update_without_where :
  sent (final (post_query two_tables_env 0 1 QueryWords.update_all_rows [] fresh))
  = [Text QueryWords.update_all_rows []].
Proof. vm_compute. reflexivity. Qed.

End ManagerProps.

